(** * rpi-gamehawk: word-hunt solver and pointer gesture sequencer

    A shallow embedding of the Python sources
      - [mouse/build_trie.py]        (dictionary trie builder),
      - [solver.py]                  (path enumerator, result selector,
                                      table-mode coordinate lookup, relative
                                      movement controller, gesture loop),
      - [finetune.py]                (the second copy of the movement controller),
      - [mouse/word_hunt_solver.py]  (interpolation-mode coordinate mapper,
                                      absolute pointer client),
    followed by the properties established about them.

    Conventions.  Python [int] is [Z].  A Python [str] is a [string]; its
    characters are the code points below 256.  A [dict] whose values nest (the
    trie) is an association list in insertion order, meant with distinct
    keys; the flat dictionaries and sets of the solver are [gmap] and [gset].
    A call returns ([Ok]), raises ([Raise]) or does not return ([Diverge]).
    [time.sleep], [print] and the D-Bus plumbing are left out; what the
    service does with a packet is a parameter. *)

From Stdlib Require Import ZArith String Ascii List QArith Qround Floats.
From stdpp Require Import base tactics option list sorting gmap strings.

Set Warnings "-register-all,-clear-no-such-hyp".

Open Scope Z_scope.

(** ** Exceptions and the error monad *)

Inductive exn : Type :=
  | IndexError
  | KeyError
  | TypeError
  | ValueError
  | AttributeError
  | DBusException.

(** What a call does: it returns a value, it raises, or it never returns. *)
Inductive result (A : Type) : Type :=
  | Ok (a : A)
  | Raise (e : exn)
  | Diverge.

Arguments Ok {A} a.
Arguments Raise {A} e.
Arguments Diverge {A}.

Definition bind {A B} (m : result A) (k : A → result B) : result B :=
  match m with
  | Ok a => k a
  | Raise e => Raise e
  | Diverge => Diverge
  end.

Notation "x ←! m ; k" := (bind m (fun x => k))
  (at level 20, m at level 100, k at level 200, right associativity,
   format "x  ←!  m ;  '/' k").

(** [for x in xs: body], threading the loop-carried state and stopping at the
    first exception. *)
Fixpoint for_each {A S} (body : A → S → result S) (xs : list A) (s : S) : result S :=
  match xs with
  | [] => Ok s
  | x :: xs' => s' ←! body x s; for_each body xs' s'
  end.

(** [seq[i]] for a Python list, negative indices counting from the end. *)
Definition py_index {A} (l : list A) (i : Z) : result A :=
  let n := Z.of_nat (length l) in
  let j := if i <? 0 then i + n else i in
  if (0 <=? j) && (j <? n) then
    match l !! Z.to_nat j with
    | Some a => Ok a
    | None => Raise IndexError
    end
  else Raise IndexError.

(** ** The dictionary trie

    The pickled trie is a nest of dictionaries keyed by single characters; the
    end of a word is the entry ['$'] ↦ [True]. *)

Inductive pyobj : Type :=
  | PyTrue
  | PyDict (items : list (ascii * pyobj)).

Definition dollar : ascii := "$"%char.

(** Case analysis on [d.get(k)], written so that the value found is visibly a
    component of the dictionary. *)
Definition dict_case {B} (k : ascii) (none : B) (some : pyobj → B)
  : list (ascii * pyobj) → B :=
  fix go items :=
    match items with
    | [] => none
    | (k', v) :: rest => if decide (k' = k) then some v else go rest
    end.

Definition dict_get (k : ascii) (items : list (ascii * pyobj)) : option pyobj :=
  dict_case k None Some items.

(** [k in d] *)
Definition dict_mem (k : ascii) (items : list (ascii * pyobj)) : bool :=
  dict_case k false (fun _ => true) items.

(** [d[k] = v]: an existing key keeps its place, a new one goes last. *)
Fixpoint dict_set (k : ascii) (v : pyobj) (items : list (ascii * pyobj))
  : list (ascii * pyobj) :=
  match items with
  | [] => [(k, v)]
  | (k', v') :: rest =>
      if decide (k' = k) then (k, v) :: rest else (k', v') :: dict_set k v rest
  end.

(** Truth value of an object: [True] and non-empty dictionaries. *)
Definition truthy (o : pyobj) : bool :=
  match o with
  | PyTrue => true
  | PyDict [] => false
  | PyDict (_ :: _) => true
  end.

(** [k in o]; [bool] is not a container. *)
Definition py_contains (k : ascii) (o : pyobj) : result bool :=
  match o with
  | PyTrue => Raise TypeError
  | PyDict items => Ok (dict_mem k items)
  end.

Definition Position : Type := Z * Z.

(** ** mouse/build_trie.py *)

Module BuildTrie.

Definition between (lo hi : N) (c : ascii) : bool :=
  ((lo <=? N_of_ascii c) && (N_of_ascii c <=? hi))%N.

(** [str.isspace], [str.isalpha] and [str.lower] on one character. *)
Definition isspace_char (c : ascii) : bool :=
  between 9 13 c || between 28 32 c || between 133 133 c || between 160 160 c.

Definition isalpha_char (c : ascii) : bool :=
  between 65 90 c || between 97 122 c
  || between 170 170 c || between 181 181 c || between 186 186 c
  || between 192 214 c || between 216 246 c || between 248 255 c.

Definition lower_char (c : ascii) : ascii :=
  if between 65 90 c || between 192 214 c || between 216 222 c
  then ascii_of_N (N_of_ascii c + 32) else c.

Fixpoint lstrip (s : string) : string :=
  match s with
  | String c rest => if isspace_char c then lstrip rest else s
  | EmptyString => EmptyString
  end.

Fixpoint rstrip (s : string) : string :=
  match s with
  | String c rest =>
      match rstrip rest with
      | EmptyString => if isspace_char c then EmptyString else String c EmptyString
      | rest' => String c rest'
      end
  | EmptyString => EmptyString
  end.

Fixpoint lower (s : string) : string :=
  match s with
  | String c rest => String (lower_char c) (lower rest)
  | EmptyString => EmptyString
  end.

(** [word.isalpha()]: at least one character and all of them alphabetic. *)
Definition isalpha (word : string) : bool :=
  match word with
  | EmptyString => false
  | _ => forallb isalpha_char (list_ascii_of_string word)
  end.

(** [line.strip().lower()] *)
Definition clean (line : string) : string := lower (rstrip (lstrip line)).

(** The two [continue] tests of the loop body. *)
Definition skipped (word : string) : bool :=
  (if decide (word = EmptyString) then true else negb (isalpha word))
  || (String.length word <? 3)%nat.

(** [d[k]] on the items of a dictionary. *)
Definition dict_getitem (k : ascii) (items : list (ascii * pyobj)) : result pyobj :=
  match dict_get k items with
  | Some v => Ok v
  | None => Raise KeyError
  end.

(** The insertion loop followed by the end-of-word mark:
<<
    for char in word:
        if char not in node: node[char] = {}
        node = node[char]
    node['$'] = True
>>
    [node] is an alias into the trie, so what it is turned into is stored
    back under [char]. *)
Fixpoint insert (word : string) (node : pyobj) : result pyobj :=
  match node with
  | PyTrue => Raise TypeError
  | PyDict items =>
      match word with
      | EmptyString => Ok (PyDict (dict_set dollar PyTrue items))
      | String char rest =>
          let items :=
            if dict_mem char items then items else dict_set char (PyDict []) items in
          sub ←! dict_getitem char items;
          sub' ←! insert rest sub;
          Ok (PyDict (dict_set char sub' items))
      end
  end.

Definition build_step (line : string) (trie : pyobj) : result pyobj :=
  let word := clean line in
  if skipped word then Ok trie else insert word trie.

Definition build_trie (lines : list string) : result pyobj :=
  for_each build_step lines (PyDict []).

(** Following [word] down from [node]. *)
Fixpoint walk (word : string) (node : pyobj) : option pyobj :=
  match word with
  | EmptyString => Some node
  | String c rest =>
      match node with
      | PyTrue => None
      | PyDict items =>
          match dict_get c items with
          | Some sub => walk rest sub
          | None => None
          end
      end
  end.

(** [word] leads from the root to a node carrying the end-of-word mark. *)
Definition terminal_path (trie : pyobj) (word : string) : Prop :=
  ∃ items, walk word trie = Some (PyDict items) ∧ dict_mem dollar items = true.

(** The shape every trie built here has: the mark is [True], everything
    else is a dictionary of the same shape. *)
Fixpoint trie_wf (o : pyobj) : bool :=
  match o with
  | PyTrue => false
  | PyDict items =>
      forallb (fun kv =>
                 if decide (kv.1 = dollar)
                 then match kv.2 with PyTrue => true | PyDict _ => false end
                 else trie_wf kv.2)
              items
  end.

Definition entry_wf (kv : ascii * pyobj) : bool :=
  if decide (kv.1 = dollar)
  then match kv.2 with PyTrue => true | PyDict _ => false end
  else trie_wf kv.2.

(** A candidate the builder does not skip: it is not empty, all of its
    characters are alphabetic, and it has three of them at least. *)
Definition accepted (word : string) : Prop :=
  word ≠ EmptyString
  ∧ forallb isalpha_char (list_ascii_of_string word) = true
  ∧ (3 ≤ String.length word)%nat.

#[global] Instance accepted_dec word : Decision (accepted word).
Proof. unfold accepted. apply _. Defined.

End BuildTrie.

Module Solver.

Definition SOLVER_NUMWORDS_LIMIT : nat := 500.
Definition FIXED_DELTA : Z := 10.

(** *** Word finder *)

Definition get_neighbors (row col : Z) (num_rows num_cols : Z) : list Position :=
  dr ← [-1; 0; 1];
  dc ← [-1; 0; 1];
  let r := row + dr in
  let c := col + dc in
  if (negb (dr =? 0) || negb (dc =? 0))
     && ((0 <=? r) && (r <? num_rows))
     && ((0 <=? c) && (c <? num_cols))
  then [(r, c)] else [].

(** [board[row][col]] *)
Definition board_at (board : list (list ascii)) (row col : Z) : result ascii :=
  line ←! py_index board row; py_index line col.

(** The four mutable objects shared by all frames of one search. *)
Record dfs_state : Type := {
  visited : gset Position;
  current_path : list Position;
  results : gset string;
  paths : gmap string (list Position)
}.

Definition append_char (w : string) (c : ascii) : string := String.append w (String c EmptyString).

(** [visited.add((row, col)); current_path.append((row, col))] *)
Definition enter (pos : Position) (st : dfs_state) : dfs_state :=
  {| visited := {[pos]} ∪ visited st;
     current_path := current_path st ++ [pos];
     results := results st;
     paths := paths st |}.

(** [results.add(w); if w not in paths: paths[w] = list(current_path)] *)
Definition record (w : string) (st : dfs_state) : dfs_state :=
  {| visited := visited st;
     current_path := current_path st;
     results := {[w]} ∪ results st;
     paths := match paths st !! w with
              | Some _ => paths st
              | None => <[w := current_path st]> (paths st)
              end |}.

(** [visited.remove((row, col)); current_path.pop()] *)
Definition leave (pos : Position) (st : dfs_state) : result dfs_state :=
  if decide (pos ∈ visited st) then
    match current_path st with
    | [] => Raise IndexError
    | _ :: _ =>
        Ok {| visited := visited st ∖ {[pos]};
              current_path := removelast (current_path st);
              results := results st;
              paths := paths st |}
    end
  else Raise KeyError.

(** The part of [dfs] after [next_node] has been found; [rec] stands for
    the recursive call [dfs(nrow, ncol, board, next_node, ...)]. *)
Definition dfs_found
    (rec : Z → Z → string → dfs_state → result dfs_state)
    (next_node : pyobj) (row col : Z) (letter : ascii)
    (current_word : string) (st : dfs_state) : result dfs_state :=
  if negb (truthy next_node) then Ok st
  else
    let st := enter (row, col) st in
    let current_word := append_char current_word letter in
    terminal ←! py_contains dollar next_node;
    let st :=
      if terminal && (3 <=? String.length current_word)%nat
      then record current_word st else st in
    st ←! for_each
            (fun '(nrow, ncol) st =>
               if decide ((nrow, ncol) ∈ visited st) then Ok st
               else rec nrow ncol current_word st)
            (get_neighbors row col 4 4) st;
    leave (row, col) st.

Fixpoint dfs (node : pyobj) (row col : Z) (board : list (list ascii))
    (current_word : string) (st : dfs_state) {struct node} : result dfs_state :=
  letter ←! board_at board row col;
  match node with
  | PyTrue => Raise AttributeError
  | PyDict items =>
      dict_case letter (Ok st)
        (fun next_node =>
           dfs_found (fun nrow ncol w st' => dfs next_node nrow ncol board w st')
                     next_node row col letter current_word st)
        items
  end.

(** [trie.items()] *)
Definition py_items (o : pyobj) : result (list (ascii * pyobj)) :=
  match o with
  | PyTrue => Raise AttributeError
  | PyDict items => Ok items
  end.

(** The fresh [set()] and [[]] handed to each top-level [dfs] call;
    [results] and [paths] are the objects of the enclosing [find_words]. *)
Definition fresh (st : dfs_state) : dfs_state :=
  {| visited := ∅; current_path := []; results := results st; paths := paths st |}.

Definition range (n : nat) : list Z := Z.of_nat <$> seq 0 n.

(** *** Result selector *)

(** The sort key [(-len(w), w)] and the order of tuples: the first
    components decide unless they are equal. *)
Definition sort_key (w : string) : Z * string :=
  (- Z.of_nat (String.length w), w).

Definition tuple_le (k1 k2 : Z * string) : Prop :=
  k1.1 < k2.1 ∨ (k1.1 = k2.1 ∧ String.le k1.2 k2.2).

Definition key_le (w1 w2 : string) : Prop := tuple_le (sort_key w1) (sort_key w2).

#[global] Instance key_le_dec : RelDecision key_le.
Proof. intros w1 w2. unfold key_le, tuple_le. apply _. Defined.

(** [sorted(xs, key=lambda w: (-len(w), w))]: an ascending sort.  Distinct
    words have distinct keys, so the result does not depend on the sorting
    algorithm. *)
Definition sorted (xs : list string) : list string := merge_sort key_le xs.

(** [xs[:limit]] *)
Definition slice_to {A} (limit : nat) (xs : list A) : list A := take limit xs.

(** [paths[word]] *)
Definition paths_getitem (paths : gmap string (list Position)) (word : string)
  : result (list Position) :=
  match paths !! word with
  | Some p => Ok p
  | None => Raise KeyError
  end.

(** [[f(x) for x in xs]] with a body that can raise. *)
Fixpoint comprehension {A B} (f : A → result B) (xs : list A) : result (list B) :=
  match xs with
  | [] => Ok []
  | x :: xs' => y ←! f x; ys ←! comprehension f xs'; Ok (y :: ys)
  end.

(** The two lines of [find_words] that rank and cut the words found.
    Iterating over the Python set [results] visits its elements in an
    order fixed by string hashing, which changes from one interpreter run
    to the next; [set_iter] is that order. *)
Definition limited_words (set_iter : gset string → list string)
    (results : gset string) : list string :=
  let sorted_words := sorted (set_iter results) in
  slice_to SOLVER_NUMWORDS_LIMIT sorted_words.

(** The first half of [find_words]: the two empty containers, the start
    nodes and the double loop over the cells. *)
Definition search (board : list (list ascii)) (trie : pyobj) : result dfs_state :=
  let st0 := {| visited := ∅; current_path := []; results := ∅; paths := ∅ |} in
  let board_letters : gset ascii := list_to_set (mjoin board) in
  items ←! py_items trie;
  let valid_starts :=
    PyDict (filter (fun kv => kv.1 ∈ board_letters) items) in
  for_each
    (fun row st =>
       first_row ←! py_index board 0;
       for_each
         (fun col st => dfs valid_starts row col board EmptyString (fresh st))
         (range (length first_row)) st)
    (range (length board)) st0.

(** [find_words]: the search, then the ranking, then the list of
    [{"word": word, "coordinates": paths[word]}] records. *)
Definition find_words (set_iter : gset string → list string)
    (board : list (list ascii)) (trie : pyobj)
  : result (list (string * list Position)) :=
  st ←! search board trie;
  let limited := limited_words set_iter (results st) in
  comprehension (fun word => p ←! paths_getitem (paths st) word; Ok (word, p)) limited.

(** A legitimate iteration order lists every element of the set once. *)
Definition set_iteration (set_iter : gset string → list string) : Prop :=
  ∀ X, set_iter X ≡ₚ elements X.

(** *** The depth-first discovery order

    The search of §4.3 of the specification, written over immutable
    snapshots: the list of every (word, path) the search comes across, in
    the order in which it does, repetitions of a word included. *)

Definition child (node : pyobj) (ch : ascii) : option pyobj :=
  match node with
  | PyTrue => None
  | PyDict items => dict_get ch items
  end.

Definition is_terminal (node : pyobj) : bool :=
  match node with
  | PyTrue => false
  | PyDict items => dict_mem dollar items
  end.

Definition discover_from
    (rec : Position → string → gset Position → list Position
           → list (string * list Position))
    (next : pyobj) (pos : Position) (letter : ascii)
    (word : string) (seen : gset Position) (path : list Position)
  : list (string * list Position) :=
  if negb (truthy next) then []
  else
    let seen := {[pos]} ∪ seen in
    let word := append_char word letter in
    let path := path ++ [pos] in
    (if is_terminal next && (3 <=? String.length word)%nat
     then [(word, path)] else [])
    ++ (q ← get_neighbors pos.1 pos.2 4 4;
        if decide (q ∈ seen) then [] else rec q word seen path).

Fixpoint discoveries (node : pyobj) (board : list (list ascii)) (pos : Position)
    (word : string) (seen : gset Position) (path : list Position) {struct node}
  : list (string * list Position) :=
  match board_at board pos.1 pos.2, node with
  | Ok letter, PyDict items =>
      dict_case letter []
        (fun next => discover_from (discoveries next board) next pos letter word seen path)
        items
  | _, _ => []
  end.

(** Every cell of the board as a starting point, row by row. *)
Definition all_discoveries (board : list (list ascii)) (trie : pyobj)
  : list (string * list Position) :=
  row ← range (length board);
  col ← range (length (default [] (board !! 0%nat)));
  discoveries trie board (row, col) EmptyString ∅ [].

(** The path of the earliest discovery of [w]. *)
Definition first_path (w : string) (found : list (string * list Position))
  : option (list Position) :=
  snd <$> head (filter (fun e => e.1 = w) found).

End Solver.

(** ** The relative pointer: [MouseClient] and [MouseSE]

    [solver.py] and [finetune.py] carry the same two classes; they differ in
    [FIXED_DELTA] and in how [goto] keeps its bookkeeping. *)

(** The D-Bus service: called for the [n]-th time with a packet, it either
    delivers it or raises. *)
Definition transport : Type := nat → list Z → option exn.

(** What the outside sees: every packet handed to [send_mouse], with whether
    it was delivered, and the lines printed by the exception handlers. *)
Record world : Type := {
  wire : list (list Z * bool);
  log : list exn
}.

Record MouseSE : Type := {
  current_x : Z;
  current_y : Z;
  current_button : Z
}.

(** [bytes(state)] *)
Definition bytes (state : list Z) : result (list Z) :=
  if forallb (fun b => (0 <=? b) && (b <? 256)) state then Ok state
  else Raise ValueError.

(** [iface.send_mouse(0, packet)] *)
Definition send_mouse (bus : transport) (packet : list Z) (w : world)
  : world * result unit :=
  match bus (length (wire w)) packet with
  | None => ({| wire := wire w ++ [(packet, true)]; log := log w |}, Ok ())
  | Some e => ({| wire := wire w ++ [(packet, false)]; log := log w |}, Raise e)
  end.

(** [MouseClient.send_current]: whatever is raised inside [try] is printed
    and dropped. *)
Definition send_current (bus : transport) (state : list Z) (w : world) : world :=
  match bytes state with
  | Ok packet =>
      match send_mouse bus packet w with
      | (w', Raise e) => {| wire := wire w'; log := log w' ++ [e] |}
      | (w', _) => w'
      end
  | Raise e => {| wire := wire w; log := log w ++ [e] |}
  | Diverge => w
  end.

(** [MouseSE._send] *)
Definition _send (bus : transport) (dx dy : Z) (s : MouseSE * world) : MouseSE * world :=
  let dx_byte := Z.land dx 255 in
  let dy_byte := Z.land dy 255 in
  let state := [current_button s.1; dx_byte; dy_byte; 0] in
  (s.1, send_current bus state s.2).

(** [int(math.copysign(a, b))] for a magnitude [a] and a non-zero integer
    [b]: the absolute value of [a] with the sign of [b].  The detour through
    [float] is exact for magnitudes below 2^53 and operands a double can
    hold; the coordinates of the device are far inside that range. *)
Definition int_copysign (a b : Z) : Z :=
  if b <? 0 then - Z.abs a else Z.abs a.

(** One axis of one tick:
<<
      step = 0
      if d != 0: step = int(math.copysign(min(abs(d), FIXED_DELTA), d))
>> *)
Definition axis_step (delta d : Z) : Z :=
  if d =? 0 then 0 else int_copysign (Z.min (Z.abs d) delta) d.

Definition set_position (x y : Z) (m : MouseSE) : MouseSE :=
  {| current_x := x; current_y := y; current_button := current_button m |}.

Definition set_button (b : Z) (m : MouseSE) : MouseSE :=
  {| current_x := current_x m; current_y := current_y m; current_button := b |}.

(** A tick moves every unfinished axis by at least one unit, so a loop that
    ends at all ends within [max |dx| |dy|] iterations; a loop that has not
    ended by then never does. *)
Definition goto_bound (dx dy : Z) : nat := Z.to_nat (Z.max (Z.abs dx) (Z.abs dy)).

(** [for _ in range(n): body] *)
Fixpoint repeat_n {S} (n : nat) (body : S → S) (s : S) : S :=
  match n with
  | O => s
  | S n' => repeat_n n' body (body s)
  end.

(** [recalibrate_top_left] *)
Definition recalibrate_top_left (bus : transport) (s : MouseSE * world) : MouseSE * world :=
  let s := repeat_n 20 (_send bus (-127) 0) s in
  let s := repeat_n 20 (_send bus 0 (-127)) s in
  (set_position 0 0 s.1, s.2).

(** [MouseSE()] *)
Definition MouseSE_init (bus : transport) (w : world) : MouseSE * world :=
  recalibrate_top_left bus ({| current_x := 0; current_y := 0; current_button := 0 |}, w).

(** The packet [_send] builds for a step. *)
Definition packet_of (button : Z) (step : Z * Z) : list Z :=
  [button; Z.land step.1 255; Z.land step.2 255; 0].

(** A train of steps that closes the gap [(dx, dy)] under the step size
    [delta]: while a gap is left there is a next step, on each axis it is no
    longer than [delta] and points where the gap on that axis points (so it is
    zero exactly on a finished axis), and the rest of the train closes what
    is left. *)
Inductive steps_toward (delta : Z) : Z → Z → list (Z * Z) → Prop :=
  | steps_done : steps_toward delta 0 0 []
  | steps_tick dx dy sx sy rest :
      dx ≠ 0 ∨ dy ≠ 0 →
      Z.abs sx ≤ delta → Z.abs sy ≤ delta →
      Z.sgn sx = Z.sgn dx → Z.sgn sy = Z.sgn dy →
      steps_toward delta (dx - sx) (dy - sy) rest →
      steps_toward delta dx dy ((sx, sy) :: rest).

(** The number of ticks an axis needs: [ceil(|d| / delta)]. *)
Definition ticks (delta d : Z) : Z := (Z.abs d + delta - 1) / delta.

Definition moves_x (steps : list (Z * Z)) : nat :=
  length (filter (fun s => s.1 ≠ 0) steps).

Definition moves_y (steps : list (Z * Z)) : nat :=
  length (filter (fun s => s.2 ≠ 0) steps).

Module SolverMouse.

(** The [while dx != 0 or dy != 0] loop of [solver.py]. *)
Fixpoint goto_loop (bus : transport) (delta : Z) (fuel : nat) (x y : Z) (dx dy : Z)
    (s : MouseSE * world) : result (MouseSE * world) :=
  if negb (dx =? 0) || negb (dy =? 0) then
    match fuel with
    | O => Diverge
    | S fuel' =>
        let step_x := axis_step delta dx in
        let step_y := axis_step delta dy in
        let s := _send bus step_x step_y s in
        let m := set_position (current_x s.1 + step_x) (current_y s.1 + step_y) s.1 in
        let dx := x - current_x m in
        let dy := y - current_y m in
        goto_loop bus delta fuel' x y dx dy (m, s.2)
    end
  else Ok s.

Definition goto_with (bus : transport) (delta : Z) (x y : Z) (s : MouseSE * world)
  : result (MouseSE * world) :=
  let dx := x - current_x s.1 in
  let dy := y - current_y s.1 in
  goto_loop bus delta (goto_bound dx dy) x y dx dy s.

Definition goto (bus : transport) : Z → Z → MouseSE * world → result (MouseSE * world) :=
  goto_with bus Solver.FIXED_DELTA.

(** *** Table-mode coordinate lookup *)

(** One element of the list in [mouse_positions.json]. *)
Record entry : Type := { cell : Z; x : Z; y : Z }.

(** [{pos["cell"]: (pos["x"], pos["y"]) for pos in data}] *)
Definition load_mouse_positions (data : list entry) : gmap Z (Z * Z) :=
  foldl (fun m pos => <[cell pos := (x pos, y pos)]> m) ∅ data.

Definition coord_to_index (coord : Position) : Z := coord.1 * 4 + coord.2.

Definition getitem (mouse_positions : gmap Z (Z * Z)) (idx : Z) : result (Z * Z) :=
  match mouse_positions !! idx with
  | Some p => Ok p
  | None => Raise KeyError
  end.

Definition convert_coord_to_mouse_pos (coord : Position)
    (mouse_positions : gmap Z (Z * Z)) : result (Z * Z) :=
  let idx := coord_to_index coord in
  getitem mouse_positions idx.

(** *** The gesture loop of [main] *)

(** The body of [for pos in coords[1:]]. *)
Definition drag (mouse_positions : gmap Z (Z * Z)) (bus : transport)
    (pos : Position) (s : MouseSE * world) : result (MouseSE * world) :=
  screen_pos ←! convert_coord_to_mouse_pos pos mouse_positions;
  goto bus screen_pos.1 screen_pos.2 s.

(** The body of [for i, word in enumerate(results)] up to the release. *)
Definition select_word (bus : transport) (mouse_positions : gmap Z (Z * Z))
    (coords : list Position) (s : MouseSE * world) : result (MouseSE * world) :=
  first ←! py_index coords 0;
  first_screen_pos ←! convert_coord_to_mouse_pos first mouse_positions;
  s ←! goto bus first_screen_pos.1 first_screen_pos.2 s;
  let s := (set_button 1 s.1, s.2) in
  let s := _send bus 0 0 s in
  s ←! for_each (drag mouse_positions bus) (tail coords) s;
  let s := (set_button 0 s.1, s.2) in
  let s := _send bus 0 0 s in
  Ok s.

(** [for i, word in enumerate(results)], [i] counted from [i0]. *)
Fixpoint select_all (bus : transport) (mouse_positions : gmap Z (Z * Z)) (i0 : Z)
    (results : list (string * list Position)) (s : MouseSE * world)
  : result (MouseSE * world) :=
  match results with
  | [] => Ok s
  | word :: rest =>
      s ←! select_word bus mouse_positions word.2 s;
      let s := if (i0 + 1) mod 3 =? 0 then recalibrate_top_left bus s else s in
      select_all bus mouse_positions (i0 + 1) rest s
  end.

(** The part of [main] that follows the solving of one board. *)
Definition play (bus : transport) (mouse_positions : gmap Z (Z * Z))
    (results : list (string * list Position)) (s : MouseSE * world)
  : result (MouseSE * world) :=
  origin ←! getitem mouse_positions 0;
  s ←! goto bus origin.1 origin.2 s;
  select_all bus mouse_positions 0 results s.

End SolverMouse.

Module Finetune.

Definition FIXED_DELTA : Z := 1.

(** The loop of [finetune.py]: the deltas are counted down and the
    position is written once, after the loop. *)
Fixpoint goto_loop (bus : transport) (delta : Z) (fuel : nat) (dx dy : Z)
    (s : MouseSE * world) : result (MouseSE * world) :=
  if negb (dx =? 0) || negb (dy =? 0) then
    match fuel with
    | O => Diverge
    | S fuel' =>
        let step_x := axis_step delta dx in
        let step_y := axis_step delta dy in
        let s := _send bus step_x step_y s in
        goto_loop bus delta fuel' (dx - step_x) (dy - step_y) s
    end
  else Ok s.

Definition goto_with (bus : transport) (delta : Z) (x y : Z) (s : MouseSE * world)
  : result (MouseSE * world) :=
  let dx := x - current_x s.1 in
  let dy := y - current_y s.1 in
  s ←! goto_loop bus delta (goto_bound dx dy) dx dy s;
  Ok (set_position x y s.1, s.2).

Definition goto (bus : transport) : Z → Z → MouseSE * world → result (MouseSE * world) :=
  goto_with bus FIXED_DELTA.

End Finetune.

(** ** mouse/word_hunt_solver.py: the absolute pointer *)

Module WordHunt.

Definition TOP_LEFT_X : Z := 7500.
Definition TOP_LEFT_Y : Z := 15750.
Definition BOTTOM_RIGHT_X : Z := 25000.
Definition BOTTOM_RIGHT_Y : Z := 24000.

(** [int(q)]: the fractional part is dropped. *)
Definition py_int (q : Q) : Z := Z.quot (Qnum q) (Zpos (Qden q)).

(** [get_grid_coordinates] over the four corner constants.  The quotients
    and products are Python floats in the source; they are exact rationals
    here, which is what the general statements are proved of. *)
Definition get_grid_coordinates_at (tlx tly brx bry : Z) : gmap Position (Z * Z) :=
  let step_x : Q := (inject_Z (brx - tlx) / 3)%Q in
  let step_y : Q := (inject_Z (bry - tly) / 3)%Q in
  foldl
    (fun coords row =>
       foldl
         (fun coords col =>
            let x := py_int (inject_Z tlx + inject_Z col * step_x)%Q in
            let y := py_int (inject_Z tly + inject_Z row * step_y)%Q in
            <[(row, col) := (x, y)]> coords)
         coords (Solver.range 4))
    ∅ (Solver.range 4).

(** The same function in binary64 arithmetic, as the interpreter runs it:
    [float(z)] for an integer below 2^63 in size, and [int(f)]. *)
Definition float_of_int (z : Z) : float :=
  if z <? 0 then PrimFloat.opp (PrimFloat.of_uint63 (Uint63.of_Z (- z)))
  else PrimFloat.of_uint63 (Uint63.of_Z z).

Definition int_of_float (f : float) : Z :=
  match Prim2SF f with
  | S754_finite s m e =>
      let mag := if 0 <=? e then Zpos m * 2 ^ e else Zpos m / 2 ^ (- e) in
      if s then - mag else mag
  | _ => 0
  end.

Definition get_grid_coordinates_float_at (tlx tly brx bry : Z) : gmap Position (Z * Z) :=
  let step_x := PrimFloat.div (float_of_int (brx - tlx)) (float_of_int 3) in
  let step_y := PrimFloat.div (float_of_int (bry - tly)) (float_of_int 3) in
  foldl
    (fun coords row =>
       foldl
         (fun coords col =>
            let x := int_of_float
                       (PrimFloat.add (float_of_int tlx)
                          (PrimFloat.mul (float_of_int col) step_x)) in
            let y := int_of_float
                       (PrimFloat.add (float_of_int tly)
                          (PrimFloat.mul (float_of_int row) step_y)) in
            <[(row, col) := (x, y)]> coords)
         coords (Solver.range 4))
    ∅ (Solver.range 4).

Definition get_grid_coordinates : gmap Position (Z * Z) :=
  get_grid_coordinates_at TOP_LEFT_X TOP_LEFT_Y BOTTOM_RIGHT_X BOTTOM_RIGHT_Y.

(** [AbsoluteMouse.send_cmd] *)
Definition send_cmd (bus : transport) (buttons x y wheel : Z) (w : world) : world :=
  let x := Z.max 0 (Z.min 32767 x) in
  let y := Z.max 0 (Z.min 32767 y) in
  let x_low := Z.land x 255 in
  let x_high := Z.land (Z.shiftr x 8) 255 in
  let y_low := Z.land y 255 in
  let y_high := Z.land (Z.shiftr y 8) 255 in
  let state := [buttons; x_low; x_high; y_low; y_high; wheel] in
  send_current bus state w.

(** The coordinate pair a 6-byte packet carries. *)
Definition packet_xy (packet : list Z) : option (Z * Z) :=
  match packet with
  | [_; x_low; x_high; y_low; y_high; _] =>
      Some (x_low + 256 * x_high, y_low + 256 * y_high)
  | _ => None
  end.

(** Rounding to the nearest integer, halves upwards. *)
Definition round_nearest (q : Q) : Z := Qfloor (q + (1 # 2))%Q.

End WordHunt.

(** ** Vocabulary of the statements *)

(** A pointer at the top-left corner, a service that delivers everything,
    and a world in which nothing has happened yet. *)
Definition origin (button : Z) : MouseSE :=
  {| current_x := 0; current_y := 0; current_button := button |}.

Definition quiet_bus : transport := fun _ _ => None.

Definition silent : world := {| wire := []; log := [] |}.

(** What one run of the loop achieves, stated once for both copies: the
    call returns, the tracked position is the target, the button is as it
    was, and the packets put on the wire (given that the button value fits a
    byte, which [bytes] insists on) are those of a train of steps closing the
    gap, one packet per tick. *)
Definition goto_post (delta : Z) (x y : Z) (s : MouseSE * world)
    (r : result (MouseSE * world)) : Prop :=
  ∃ m' w' steps,
    r = Ok (m', w') ∧
    current_x m' = x ∧ current_y m' = y ∧
    current_button m' = current_button s.1 ∧
    (0 ≤ current_button s.1 < 256 →
     (wire w').*1 = (wire s.2).*1 ++ (packet_of (current_button s.1) <$> steps)) ∧
    steps_toward delta (x - current_x s.1) (y - current_y s.1) steps ∧
    Z.of_nat (moves_x steps) = ticks delta (x - current_x s.1) ∧
    Z.of_nat (moves_y steps) = ticks delta (y - current_y s.1) ∧
    Z.of_nat (length steps)
    = Z.max (ticks delta (x - current_x s.1)) (ticks delta (y - current_y s.1)).

(** The outcome of a [goto] from the state [(m, w)] to [(x, y)] that the
    claims about the movement controller describe: the call returns with the
    tracked position on the target and the button untouched, and it has put on
    the wire one packet per step of a train that closes the gap. *)
Definition emits_train (delta : Z) (x y : Z) (m : MouseSE) (w : world)
    (r : result (MouseSE * world)) : Prop :=
  ∃ m' w' steps,
    r = Ok (m', w') ∧
    current_x m' = x ∧ current_y m' = y ∧
    current_button m' = current_button m ∧
    (wire w').*1 = (wire w).*1 ++ (packet_of (current_button m) <$> steps) ∧
    steps_toward delta (x - current_x m) (y - current_y m) steps ∧
    Z.of_nat (moves_x steps) = ticks delta (x - current_x m) ∧
    Z.of_nat (moves_y steps) = ticks delta (y - current_y m) ∧
    Z.of_nat (length steps)
    = Z.max (ticks delta (x - current_x m)) (ticks delta (y - current_y m)).


(** Two runs offer the same packets to the service. *)
Definition same_offers (w1 w2 : world) : Prop := (wire w1).*1 = (wire w2).*1.

(** Between [w] and [w'] every failed delivery left one line in the log
    and nothing else did. *)
Definition accounted (w w' : world) : Prop :=
  ∃ added errs,
    wire w' = wire w ++ added ∧ log w' = log w ++ errs
    ∧ length errs = length (filter (fun a => a.2 = false) added).

(** What a part of a gesture does under an arbitrary service, next to what
    it does under the service that never fails: both return, with the same
    pointer state and the same packets offered, and the failures are
    accounted for in the log. *)
Definition robust (bus : transport)
    (act : transport → MouseSE * world → result (MouseSE * world))
    (button' : Z) (m : MouseSE) (w wq : world) : Prop :=
  ∃ m' w' wq',
    act bus (m, w) = Ok (m', w') ∧ act quiet_bus (m, wq) = Ok (m', wq')
    ∧ same_offers w' wq' ∧ accounted w w' ∧ current_button m' = button'.

(** The cells of a path all have an entry in the calibration table. *)
Definition calibrated (table : gmap Z (Z * Z)) (coords : list Position) : Prop :=
  Forall (fun pos => is_Some (table !! SolverMouse.coord_to_index pos)) coords.

(** A calibration file listing the first [n] cells of the grid, ten units
    apart, and two services that fail on one kind of packet only. *)
Definition grid_entries (n : nat) : list SolverMouse.entry :=
  (fun i => {| SolverMouse.cell := i;
               SolverMouse.x := 10 * (i mod 4);
               SolverMouse.y := 10 * (i / 4) |}) <$> Solver.range n.

Definition release_fails : transport :=
  fun _ packet => if decide (packet = [0; 0; 0; 0]) then Some DBusException else None.

Definition press_fails : transport :=
  fun _ packet => if decide (packet = [1; 0; 0; 0]) then Some DBusException else None.

(** The word "ab" swiped from cell (0,0) to cell (0,1). *)
Definition one_swipe : list (string * list Position) :=
  [(String "a" (String "b" EmptyString), [(0, 0); (0, 1)])].

(** ** Vocabulary of the statements about the search *)

(** Two cells are neighbours in one of the eight directions. *)
Definition adjacent (a b : Position) : Prop :=
  a ≠ b ∧ Z.abs (a.1 - b.1) ≤ 1 ∧ Z.abs (a.2 - b.2) ≤ 1.

(** Each cell of the path is a neighbour of the one before it. *)
Definition chain (path : list Position) : Prop :=
  ∀ (i : nat) a b, path !! i = Some a → path !! S i = Some b → adjacent a b.

(** Reading the board along [path] gives the characters of [word]: the two
    have the same length, and every cell lies on the board and holds the
    character at its place. *)
Definition spells (board : list (list ascii)) (path : list Position) (word : string) : Prop :=
  Forall2 (fun (pos : Position) ch =>
             0 ≤ pos.1 ∧ 0 ≤ pos.2 ∧ Solver.board_at board pos.1 pos.2 = Ok ch)
          path (list_ascii_of_string word).

(** [path] is a simple path of neighbouring cells that spells [word]. *)
Definition simple_path_of (board : list (list ascii)) (word : string)
    (path : list Position) : Prop :=
  spells board path word ∧ NoDup path ∧ chain path.

(** What is recorded for one discovery: nothing when the word has a path. *)
Definition note (paths : gmap string (list Position)) (e : string * list Position)
  : gmap string (list Position) :=
  match paths !! e.1 with
  | Some _ => paths
  | None => <[e.1 := e.2]> paths
  end.

(** Between the states [st] and [st'] of a search the discoveries [found]
    were made, in this order: each was added to [results], and recorded in
    [paths] unless its word had a path already. *)
Definition tracks (found : list (string * list Position)) (st st' : Solver.dfs_state) : Prop :=
  Solver.paths st' = foldl note (Solver.paths st) found
  ∧ Solver.results st' = Solver.results st ∪ list_to_set found.*1.

(** A call that returns leaves [visited] and [current_path] as it found
    them and has made the discoveries [found]. *)
Definition restores (found : list (string * list Position)) (st st' : Solver.dfs_state) : Prop :=
  Solver.visited st' = Solver.visited st
  ∧ Solver.current_path st' = Solver.current_path st
  ∧ tracks found st st'.

(** A board of four rows of four characters, none of them the mark. *)
Definition board_4x4 (board : list (list ascii)) : Prop :=
  length board = 4%nat
  ∧ Forall (fun line => length line = 4%nat ∧ dollar ∉ line) board.

(** A 4x4 board and a word list for it. *)
Definition demo_board : list (list ascii) :=
  list_ascii_of_string <$> ["othe"%string; "rand"%string; "eeat"%string; "xyzq"%string].

Definition demo_lines : list string :=
  ["the"%string; "The "%string; "hen"%string; "a1b"%string; "to"%string;
   "then"%string; "eat"%string; "tea"%string].

Definition demo_trie : pyobj :=
  match BuildTrie.build_trie demo_lines with
  | Ok trie => trie
  | _ => PyDict []
  end.

(** What [find_words] returns for them; "eat" is met three times, first
    along (2,0), (1,1), (0,1). *)
Definition demo_words : list (string * list Position) :=
  [("then"%string, [(0, 1); (0, 2); (0, 3); (1, 2)]);
   ("eat"%string, [(2, 0); (1, 1); (0, 1)]);
   ("hen"%string, [(0, 2); (0, 3); (1, 2)]);
   ("the"%string, [(0, 1); (0, 2); (0, 3)])].

(** ** The rest of the programs

    The functions around the ones above: how [main] of [solver.py] and of
    [word_hunt_solver.py] read a board and play the words found, the
    calibration store of [finetune.py], and the client of
    [mouse_emulate.py]. *)

(** The state [find_words] starts from. *)
Definition empty_state : Solver.dfs_state :=
  {| Solver.visited := ∅; Solver.current_path := [];
     Solver.results := ∅; Solver.paths := ∅ |}.

(** [seq[a:b]] for [0 <= a <= b]. *)
Definition py_slice {A} (l : list A) (a b : nat) : list A := take (b - a) (drop a l).

(** The step a host reads from one byte of a relative packet (two's
    complement). *)
Definition signed_byte (b : Z) : Z := if b <? 128 then b else b - 256.

(** The relative displacement a host adds up from the packets it received. *)
Definition host_motion (received : list (list Z)) : Z * Z :=
  foldl (fun acc packet =>
           match packet with
           | [_; bx; by_; _] => (acc.1 + signed_byte bx, acc.2 + signed_byte by_)
           | _ => acc
           end) (0, 0) received.

Module SolverMain.

(** [[list(board_str[i*4:(i+1)*4]) for i in range(4)]] *)
Definition make_board (board_str : list ascii) : list (list ascii) :=
  (fun i : nat => py_slice board_str (i * 4) ((i + 1) * 4)) <$> seq 0 4.

(** The reading of a board in [main] of [solver.py]:
<<
      board_str = input(...).strip().lower()
      if len(board_str) != 16 or not board_str.isalpha(): continue
      board = [list(board_str[i*4:(i+1)*4]) for i in range(4)]
>>
    [None] is the [continue]. *)
Definition read_board (line : string) : option (list (list ascii)) :=
  let board_str := BuildTrie.lower (BuildTrie.rstrip (BuildTrie.lstrip line)) in
  if negb (String.length board_str =? 16)%nat || negb (BuildTrie.isalpha board_str)
  then None
  else Some (make_board (list_ascii_of_string board_str)).

(** One turn of the [while True] loop of [main]: read, solve, play.  An
    input that is turned down leaves everything as it is. *)
Definition turn (set_iter : gset string → list string) (bus : transport)
    (trie : pyobj) (mouse_positions : gmap Z (Z * Z)) (line : string)
    (s : MouseSE * world) : result (MouseSE * world) :=
  match read_board line with
  | None => Ok s
  | Some board =>
      results ←! Solver.find_words set_iter board trie;
      SolverMouse.play bus mouse_positions results s
  end.

End SolverMain.

Module WordHuntMain.

(** ['a' <= c <= 'z'] *)
Definition is_az (c : ascii) : bool := BuildTrie.between 97 122 c.

(** ["".join(c for c in raw_input.lower() if 'a' <= c <= 'z')] *)
Definition letters_of (raw_input : string) : list ascii :=
  filter (fun c => is_az c = true) (list_ascii_of_string (BuildTrie.lower raw_input)).

(** The reading of a board in [main] of [word_hunt_solver.py]; [None] is
    the error message and [continue]. *)
Definition read_board (raw_input : string) : option (list (list ascii)) :=
  let board_str := letters_of raw_input in
  if negb (length board_str =? 16)%nat then None
  else Some (SolverMain.make_board board_str).

(** [grid_coords[(r, c)]] *)
Definition getitem (grid_coords : gmap Position (Z * Z)) (cell : Position)
  : result (Z * Z) :=
  match grid_coords !! cell with
  | Some p => Ok p
  | None => Raise KeyError
  end.

(** The body of [for i, word_obj in enumerate(results)]: hover, press,
    drag through the rest, release. *)
Definition swipe (bus : transport) (grid_coords : gmap Position (Z * Z))
    (path : list Position) (w : world) : result world :=
  start ←! py_index path 0;
  s ←! getitem grid_coords start;
  let w := WordHunt.send_cmd bus 0 s.1 s.2 0 w in
  let w := WordHunt.send_cmd bus 1 s.1 s.2 0 w in
  w ←! for_each (fun cell w =>
                   t ←! getitem grid_coords cell;
                   Ok (WordHunt.send_cmd bus 1 t.1 t.2 0 w))
                (tail path) w;
  last_cell ←! py_index path (-1);
  e ←! getitem grid_coords last_cell;
  Ok (WordHunt.send_cmd bus 0 e.1 e.2 0 w).

(** One turn of the loop of [main]: read, solve, swipe every word. *)
Definition turn (set_iter : gset string → list string) (bus : transport)
    (trie : pyobj) (raw_input : string) (w : world) : result world :=
  match read_board raw_input with
  | None => Ok w
  | Some board =>
      results ←! Solver.find_words set_iter board trie;
      for_each (fun word_obj w => swipe bus WordHunt.get_grid_coordinates word_obj.2 w)
               results w
  end.

End WordHuntMain.

(** ** finetune.py: the calibration store *)

Module FinetuneStore.

(** [load_positions]: the dictionary of the list read from the file. *)
Definition load_positions (data : list SolverMouse.entry) : gmap Z (Z * Z) :=
  foldl (fun m pos => <[SolverMouse.cell pos := (SolverMouse.x pos, SolverMouse.y pos)]> m)
        ∅ data.

(** [sorted(positions.keys())] *)
Definition sorted_keys (positions : gmap Z (Z * Z)) : list Z :=
  merge_sort Z.le (map_to_list positions).*1.

(** [save_positions]: the list written to the file,
<<
      for cell in sorted(positions.keys()):
          x, y = positions[cell]
          data.append({"cell": cell, "x": x, "y": y})
>> *)
Definition save_positions (positions : gmap Z (Z * Z)) : result (list SolverMouse.entry) :=
  Solver.comprehension
    (fun cell =>
       p ←! SolverMouse.getitem positions cell;
       Ok {| SolverMouse.cell := cell; SolverMouse.x := p.1; SolverMouse.y := p.2 |})
    (sorted_keys positions).

End FinetuneStore.

(** ** mouse/mouse_emulate.py *)

Module MouseEmulate.

(** What [iface.send_mouse] does here: it delivers, raises an [OSError], or
    raises something else. *)
Inductive outcome : Type :=
  | Delivers
  | RaisesOSError
  | RaisesOther (e : exn).

(** [MouseClient.send_absolute]: no clamping; the packet is built inside
    [try], and only an [OSError] is caught and printed.  The result is the
    packet put on the wire, if any, and whether an error was printed. *)
Definition send_absolute (service : list Z → outcome) (buttons x y wheel : Z)
  : result (option (list Z) * bool) :=
  let x_low := Z.land x 255 in
  let x_high := Z.land (Z.shiftr x 8) 255 in
  let y_low := Z.land y 255 in
  let y_high := Z.land (Z.shiftr y 8) 255 in
  let state := [buttons; x_low; x_high; y_low; y_high; wheel] in
  packet ←! bytes state;
  match service packet with
  | Delivers => Ok (Some packet, false)
  | RaisesOSError => Ok (Some packet, true)
  | RaisesOther e => Raise e
  end.

End MouseEmulate.

(** ** Vocabulary of the further statements *)


(** The packet [send_cmd] builds for a button state and a position, wheel
    at rest. *)
Definition abs_packet (buttons : Z) (xy : Z * Z) : list Z :=
  let x := Z.max 0 (Z.min 32767 xy.1) in
  let y := Z.max 0 (Z.min 32767 xy.2) in
  [buttons; Z.land x 255; Z.land (Z.shiftr x 8) 255;
   Z.land y 255; Z.land (Z.shiftr y 8) 255; 0].

(** The calibration table has an entry for each of the sixteen cells. *)
Definition complete_table (table : gmap Z (Z * Z)) : Prop :=
  ∀ i, 0 ≤ i < 16 → is_Some (table !! i).

(** The screen position the table gives for a cell, the origin where it
    gives none. *)
Definition screen_pos (table : gmap Z (Z * Z)) (cell : Position) : Z * Z :=
  default (0, 0) (table !! SolverMouse.coord_to_index cell).

(** The entries of a list come by strictly ascending cell number. *)
Definition ascending_cells (data : list SolverMouse.entry) : Prop :=
  StronglySorted Z.lt (SolverMouse.cell <$> data).

(** One train of steps per target, each closing the gap from where the one
    before ended. *)
Fixpoint legs (delta : Z) (from : Z * Z) (targets : list (Z * Z))
    (trains : list (list (Z * Z))) : Prop :=
  match targets, trains with
  | [], [] => True
  | target :: targets, train :: trains =>
      steps_toward delta (target.1 - from.1) (target.2 - from.2) train
      ∧ legs delta target targets trains
  | _, _ => False
  end.

(** The screen position the grid gives for a cell, the origin where it
    gives none. *)
Definition grid_pos (grid_coords : gmap Position (Z * Z)) (cell : Position) : Z * Z :=
  default (0, 0) (grid_coords !! cell).


(** The entry written for a cell of a table. *)
Definition entry_of (positions : gmap Z (Z * Z)) (cell : Z) : SolverMouse.entry :=
  {| SolverMouse.cell := cell;
     SolverMouse.x := (default (0, 0) (positions !! cell)).1;
     SolverMouse.y := (default (0, 0) (positions !! cell)).2 |}.

(** * Properties *)

(** ** The movement controller *)

Section axis.

Variable delta : Z.
Hypothesis delta_pos : 0 < delta.

Lemma axis_step_zero : axis_step delta 0 = 0.
Proof. reflexivity. Qed.

Lemma axis_step_abs d : Z.abs (axis_step delta d) = Z.min (Z.abs d) delta.
Proof.
  unfold axis_step, int_copysign.
  destruct (Z.eqb_spec d 0) as [->|Hd]; [simpl; lia|].
  destruct (Z.ltb_spec d 0); lia.
Qed.

Lemma axis_step_sgn d : Z.sgn (axis_step delta d) = Z.sgn d.
Proof.
  unfold axis_step, int_copysign.
  destruct (Z.eqb_spec d 0) as [->|Hd]; [reflexivity|].
  destruct (Z.ltb_spec d 0); lia.
Qed.

Lemma axis_step_rest d :
  Z.abs (d - axis_step delta d) = Z.abs d - Z.min (Z.abs d) delta.
Proof.
  unfold axis_step, int_copysign.
  destruct (Z.eqb_spec d 0) as [->|Hd]; [simpl; lia|].
  destruct (Z.ltb_spec d 0); lia.
Qed.


Lemma ticks_zero : ticks delta 0 = 0.
Proof. unfold ticks. simpl. apply Z.div_small. lia. Qed.

Lemma ticks_nonneg d : 0 ≤ ticks delta d.
Proof. unfold ticks. apply Z.div_pos; lia. Qed.

Lemma ticks_step d : d ≠ 0 → ticks delta (d - axis_step delta d) = ticks delta d - 1.
Proof.
  intros Hd. unfold ticks. rewrite axis_step_rest.
  destruct (Z.le_gt_cases (Z.abs d) delta) as [Hle|Hgt].
  - rewrite Z.min_l by done.
    replace (Z.abs d - Z.abs d + delta - 1) with (delta - 1) by lia.
    rewrite Z.div_small by lia.
    replace (Z.abs d + delta - 1) with ((Z.abs d - 1) + 1 * delta) by lia.
    rewrite Z.div_add by lia. rewrite Z.div_small by lia. lia.
  - rewrite Z.min_r by lia.
    replace (Z.abs d - delta + delta - 1)
      with ((Z.abs d + delta - 1) + (-1) * delta) by lia.
    rewrite Z.div_add by lia. lia.
Qed.

Lemma ticks_pos d : d ≠ 0 → 0 < ticks delta d.
Proof.
  intros Hd. pose proof (ticks_step d Hd). pose proof (ticks_nonneg (d - axis_step delta d)). lia.
Qed.

End axis.

Lemma land_255_byte a : 0 ≤ Z.land a 255 < 256.
Proof.
  change 255 with (Z.ones 8). rewrite Z.land_ones by lia.
  apply Z.mod_pos_bound. lia.
Qed.

Lemma bytes_packet_of button step :
  0 ≤ button < 256 → bytes (packet_of button step) = Ok (packet_of button step).
Proof.
  intros Hb. unfold bytes, packet_of. cbn [forallb].
  pose proof (land_255_byte step.1). pose proof (land_255_byte step.2).
  repeat match goal with
         | |- context [(?a <=? ?b)] => destruct (Z.leb_spec a b); [|lia]
         | |- context [(?a <? ?b)] => destruct (Z.ltb_spec a b); [|lia]
         end.
  reflexivity.
Qed.

(** [send_current] hands a well-formed packet to the service exactly once,
    whatever the service does with it, and never raises. *)
Lemma send_current_wire bus state w :
  bytes state = Ok state →
  (wire (send_current bus state w)).*1 = (wire w).*1 ++ [state].
Proof.
  intros Hb. unfold send_current, send_mouse. rewrite Hb.
  destruct (bus _ _); cbn; by rewrite fmap_app.
Qed.

Lemma _send_wire bus sx sy m w :
  0 ≤ current_button m < 256 →
  (wire (_send bus sx sy (m, w)).2).*1
  = (wire w).*1 ++ [packet_of (current_button m) (sx, sy)].
Proof.
  intros Hb. unfold _send. cbn [fst snd].
  apply (send_current_wire bus (packet_of (current_button m) (sx, sy))).
  by apply bytes_packet_of.
Qed.

Lemma _send_mouse bus sx sy s : (_send bus sx sy s).1 = s.1.
Proof. reflexivity. Qed.

Lemma moves_x_cons s steps :
  moves_x (s :: steps) = ((if decide (s.1 = 0%Z) then 0 else 1) + moves_x steps)%nat.
Proof. unfold moves_x. rewrite filter_cons. repeat case_decide; simpl; lia || done. Qed.

Lemma moves_y_cons s steps :
  moves_y (s :: steps) = ((if decide (s.2 = 0%Z) then 0 else 1) + moves_y steps)%nat.
Proof. unfold moves_y. rewrite filter_cons. repeat case_decide; simpl; lia || done. Qed.

Section goto.

Variable bus : transport.
Variable delta : Z.
Hypothesis delta_pos : 0 < delta.

Lemma axis_step_rest_bound d (n : nat) :
  Z.abs d ≤ Z.of_nat (S n) → Z.abs (d - axis_step delta d) ≤ Z.of_nat n.
Proof using delta_pos. intros H. rewrite axis_step_rest by done. lia. Qed.

Lemma axis_step_nonzero d : d ≠ 0 → axis_step delta d ≠ 0.
Proof using delta_pos.
  intros Hd H0. pose proof (axis_step_abs delta delta_pos d) as H.
  rewrite H0 in H. lia.
Qed.

Lemma moves_x_tick dx sy steps :
  Z.of_nat (moves_x steps) = ticks delta (dx - axis_step delta dx) →
  Z.of_nat (moves_x ((axis_step delta dx, sy) :: steps)) = ticks delta dx.
Proof using delta_pos.
  intros H. rewrite moves_x_cons, Nat2Z.inj_add, H. cbn [fst].
  destruct (decide (dx = 0)) as [->|Hd].
  - rewrite axis_step_zero. rewrite decide_True by done. reflexivity.
  - rewrite ticks_step by done.
    rewrite decide_False by (by apply axis_step_nonzero). lia.
Qed.

Lemma moves_y_tick dy sx steps :
  Z.of_nat (moves_y steps) = ticks delta (dy - axis_step delta dy) →
  Z.of_nat (moves_y ((sx, axis_step delta dy) :: steps)) = ticks delta dy.
Proof using delta_pos.
  intros H. rewrite moves_y_cons, Nat2Z.inj_add, H. cbn [snd].
  destruct (decide (dy = 0)) as [->|Hd].
  - rewrite axis_step_zero. rewrite decide_True by done. reflexivity.
  - rewrite ticks_step by done.
    rewrite decide_False by (by apply axis_step_nonzero). lia.
Qed.

Lemma ticks_max_tick dx dy :
  dx ≠ 0 ∨ dy ≠ 0 →
  Z.succ (Z.max (ticks delta (dx - axis_step delta dx))
                (ticks delta (dy - axis_step delta dy)))
  = Z.max (ticks delta dx) (ticks delta dy).
Proof using delta_pos.
  intros Hne.
  pose proof (ticks_nonneg delta delta_pos dx).
  pose proof (ticks_nonneg delta delta_pos dy).
  destruct (decide (dx = 0)) as [->|Hd1]; destruct (decide (dy = 0)) as [->|Hd2].
  - by destruct Hne.
  - rewrite axis_step_zero, Z.sub_0_r, (ticks_step delta delta_pos dy) by done.
    pose proof (ticks_pos delta delta_pos dy Hd2).
    rewrite (ticks_zero delta delta_pos) in *. lia.
  - rewrite axis_step_zero, Z.sub_0_r, (ticks_step delta delta_pos dx) by done.
    pose proof (ticks_pos delta delta_pos dx Hd1).
    rewrite (ticks_zero delta delta_pos) in *. lia.
  - rewrite !ticks_step by done. lia.
Qed.

Lemma steps_toward_tick dx dy rest :
  dx ≠ 0 ∨ dy ≠ 0 →
  steps_toward delta (dx - axis_step delta dx) (dy - axis_step delta dy) rest →
  steps_toward delta dx dy ((axis_step delta dx, axis_step delta dy) :: rest).
Proof using delta_pos.
  intros Hne Hrest.
  constructor; auto using axis_step_sgn; rewrite axis_step_abs by done; lia.
Qed.

Lemma loop_guard dx dy :
  negb (dx =? 0) || negb (dy =? 0) = true ↔ dx ≠ 0 ∨ dy ≠ 0.
Proof.
  destruct (Z.eqb_spec dx 0), (Z.eqb_spec dy 0); simpl; split; intros; try done; auto.
  by destruct H.
Qed.

Lemma goto_post_done x y (s : MouseSE * world) :
  x - current_x s.1 = 0 → y - current_y s.1 = 0 → goto_post delta x y s (Ok s).
Proof using delta_pos.
  intros Hx Hy. destruct s as [m w]. exists m, w, []. cbn [fst snd] in *.
  rewrite Hx, Hy, (ticks_zero delta delta_pos), app_nil_r.
  repeat split; try done; try lia. constructor.
Qed.

Lemma solver_goto_loop_spec x y fuel : ∀ dx dy s,
  dx = x - current_x s.1 → dy = y - current_y s.1 →
  Z.abs dx ≤ Z.of_nat fuel → Z.abs dy ≤ Z.of_nat fuel →
  goto_post delta x y s (SolverMouse.goto_loop bus delta fuel x y dx dy s).
Proof using delta_pos.
  induction fuel as [|fuel IH]; intros dx dy [m w] Hdx Hdy Hfx Hfy;
    cbn [fst snd] in *.
  - assert (dx = 0) as -> by lia. assert (dy = 0) as -> by lia.
    by apply goto_post_done.
  - cbn [SolverMouse.goto_loop].
    destruct (negb (dx =? 0) || negb (dy =? 0)) eqn:Hgo.
    + apply loop_guard in Hgo.
      cbn zeta. rewrite !_send_mouse. cbn [fst snd current_x current_y set_position].
      apply axis_step_rest_bound in Hfx, Hfy.
      edestruct (IH (x - (current_x m + axis_step delta dx))
                    (y - (current_y m + axis_step delta dy))
                   (set_position (current_x m + axis_step delta dx)
                                 (current_y m + axis_step delta dy) m,
                    (_send bus (axis_step delta dx) (axis_step delta dy) (m, w)).2))
        as (m' & w' & steps & Hr & Hx & Hy & Hbt & Hw & Hst & Hmx & Hmy & Hlen);
        [done | done | | |].
      { cbn [fst current_x set_position]. by replace (x - (current_x m + axis_step delta dx))
           with (dx - axis_step delta dx) by lia. }
      { cbn [fst current_y set_position]. by replace (y - (current_y m + axis_step delta dy))
           with (dy - axis_step delta dy) by lia. }
      cbn [fst snd current_x current_y current_button set_position] in *.
      replace (x - (current_x m + axis_step delta dx))
        with (dx - axis_step delta dx) in * by lia.
      replace (y - (current_y m + axis_step delta dy))
        with (dy - axis_step delta dy) in * by lia.
      exists m', w', ((axis_step delta dx, axis_step delta dy) :: steps).
      cbn [fst snd]. rewrite <- Hdx, <- Hdy.
      split; [done|]. split; [done|]. split; [done|]. split; [done|].
      split; [|split; [|split; [|split]]].
      * intros Hb. rewrite Hw, _send_wire by done. by rewrite <- app_assoc.
      * by apply steps_toward_tick.
      * by apply moves_x_tick.
      * by apply moves_y_tick.
      * cbn [length]. rewrite Nat2Z.inj_succ, Hlen. by apply ticks_max_tick.
    + assert (¬ (dx ≠ 0 ∨ dy ≠ 0)) as Hz by (rewrite <- loop_guard, Hgo; done).
      apply goto_post_done; cbn [fst]; lia.
Qed.

Lemma solver_goto_with_spec x y s :
  goto_post delta x y s (SolverMouse.goto_with bus delta x y s).
Proof using delta_pos.
  unfold SolverMouse.goto_with. apply solver_goto_loop_spec; try done;
    unfold goto_bound; lia.
Qed.





End goto.

Lemma goto_post_emits delta x y m w r :
  0 ≤ current_button m < 256 → goto_post delta x y (m, w) r → emits_train delta x y m w r.
Proof.
  intros Hb (m' & w' & steps & Hr & Hx & Hy & Hbt & Hw & Hrest).
  exists m', w', steps. cbn [fst snd] in *. repeat split; try done; try apply Hrest.
  by apply Hw.
Qed.






(** ** The interpolation-mode coordinate mapper *)

(** The coordinate of one axis in closed form: the exact value is
    [(3 * tl + k * (br - tl)) / 3] and [int] drops its fractional part. *)
Lemma py_int_interpolate (tl br k : Z) :
  WordHunt.py_int (inject_Z tl + inject_Z k * (inject_Z (br - tl) / 3))%Q
  = (3 * tl + k * (br - tl)) ÷ 3.
Proof.
  unfold WordHunt.py_int. cbn. f_equal. lia.
Qed.

Lemma grid_lookup (tlx tly brx bry row col : Z) :
  0 ≤ row < 4 → 0 ≤ col < 4 →
  WordHunt.get_grid_coordinates_at tlx tly brx bry !! (row, col)
  = Some ((3 * tlx + col * (brx - tlx)) ÷ 3, (3 * tly + row * (bry - tly)) ÷ 3).
Proof.
  intros Hr Hc. rewrite <- !py_int_interpolate.
  unfold WordHunt.get_grid_coordinates_at.
  change (Solver.range 4) with [0; 1; 2; 3]. cbn [foldl].
  assert (row = 0 ∨ row = 1 ∨ row = 2 ∨ row = 3) as Hrow by lia.
  assert (col = 0 ∨ col = 1 ∨ col = 2 ∨ col = 3) as Hcol by lia.
  destruct Hrow as [->|[->|[->| ->]]]; destruct Hcol as [->|[->|[->| ->]]];
    repeat (rewrite lookup_insert_ne by (intros [=]));
    apply lookup_insert_eq.
Qed.

Lemma byte_split (v : Z) :
  0 ≤ v < 65536 → Z.land v 255 + 256 * Z.land (Z.shiftr v 8) 255 = v.
Proof.
  intros Hv. change 255 with (Z.ones 8). rewrite !Z.land_ones by lia.
  rewrite Z.shiftr_div_pow2 by lia. change (2 ^ 8) with 256.
  rewrite (Z.mod_small (v / 256)).
  - pose proof (Z.div_mod v 256). lia.
  - split; [apply Z.div_pos; lia | apply Z.div_lt_upper_bound; lia].
Qed.

Lemma send_cmd_wire bus buttons x y wheel w :
  0 ≤ buttons < 256 → 0 ≤ wheel < 256 →
  ∃ packet,
    (wire (WordHunt.send_cmd bus buttons x y wheel w)).*1 = (wire w).*1 ++ [packet]
    ∧ WordHunt.packet_xy packet
      = Some (Z.max 0 (Z.min 32767 x), Z.max 0 (Z.min 32767 y)).
Proof.
  intros Hb Hw. unfold WordHunt.send_cmd.
  set (cx := Z.max 0 (Z.min 32767 x)). set (cy := Z.max 0 (Z.min 32767 y)).
  eexists. split.
  - apply send_current_wire. unfold bytes. cbn [forallb].
    pose proof (land_255_byte cx). pose proof (land_255_byte (Z.shiftr cx 8)).
    pose proof (land_255_byte cy). pose proof (land_255_byte (Z.shiftr cy 8)).
    repeat match goal with
           | |- context [(?a <=? ?b)] => destruct (Z.leb_spec a b); [|lia]
           | |- context [(?a <? ?b)] => destruct (Z.ltb_spec a b); [|lia]
           end.
    reflexivity.
  - cbn [WordHunt.packet_xy]. rewrite !byte_split by (subst cx cy; lia). done.
Qed.

(** On the corners configured in the source and on those of the
    specification's example, binary64 arithmetic gives the coordinates the
    exact arithmetic gives. *)
Lemma grid_float_agrees :
  WordHunt.get_grid_coordinates_float_at
    WordHunt.TOP_LEFT_X WordHunt.TOP_LEFT_Y WordHunt.BOTTOM_RIGHT_X WordHunt.BOTTOM_RIGHT_Y
  = WordHunt.get_grid_coordinates
  ∧ WordHunt.get_grid_coordinates_float_at 0 0 30 30
    = WordHunt.get_grid_coordinates_at 0 0 30 30.
Proof. split; vm_compute; reflexivity. Qed.

(** C3, as the code has it.  For a 4x4 grid, cell (row, col) maps to
    x = top_left_x + col * step_x and y = top_left_y + row * step_y with
    steps (bottom_right - top_left) / 3, and [int] drops the fractional part
    of each (it does not round to nearest); [send_cmd] then clamps what it
    transmits to [0, 32767].  The corner cells map to the two calibration
    points.  With corners (0,0) and (30,30): cell (0,0) ↦ (0,0), cell (3,3)
    ↦ (30,30) and cell (1,2) ↦ (x, y) = (20, 10), in exact and in binary64
    arithmetic alike. *)
Theorem grid_coordinates_truncated (tlx tly brx bry row col : Z) :
  0 ≤ row < 4 → 0 ≤ col < 4 →
  ∃ x y,
    WordHunt.get_grid_coordinates_at tlx tly brx bry !! (row, col) = Some (x, y)
    ∧ x = WordHunt.py_int (inject_Z tlx + inject_Z col * (inject_Z (brx - tlx) / 3))%Q
    ∧ y = WordHunt.py_int (inject_Z tly + inject_Z row * (inject_Z (bry - tly) / 3))%Q
    ∧ x = (3 * tlx + col * (brx - tlx)) ÷ 3
    ∧ y = (3 * tly + row * (bry - tly)) ÷ 3
    ∧ (∀ bus buttons w, 0 ≤ buttons < 256 →
         ∃ packet,
           (wire (WordHunt.send_cmd bus buttons x y 0 w)).*1 = (wire w).*1 ++ [packet]
           ∧ WordHunt.packet_xy packet
             = Some (Z.max 0 (Z.min 32767 x), Z.max 0 (Z.min 32767 y))
           ∧ 0 ≤ Z.max 0 (Z.min 32767 x) ≤ 32767
           ∧ 0 ≤ Z.max 0 (Z.min 32767 y) ≤ 32767)
    ∧ WordHunt.get_grid_coordinates_at tlx tly brx bry !! (0, 0) = Some (tlx, tly)
    ∧ WordHunt.get_grid_coordinates_at tlx tly brx bry !! (3, 3) = Some (brx, bry)
    ∧ WordHunt.get_grid_coordinates_at 0 0 30 30 !! (0, 0) = Some (0, 0)
    ∧ WordHunt.get_grid_coordinates_at 0 0 30 30 !! (3, 3) = Some (30, 30)
    ∧ WordHunt.get_grid_coordinates_at 0 0 30 30 !! (1, 2) = Some (20, 10)
    ∧ WordHunt.get_grid_coordinates_float_at 0 0 30 30 !! (1, 2) = Some (20, 10).
Proof.
  intros Hr Hc. eexists _, _. split; [by apply grid_lookup|].
  rewrite !py_int_interpolate.
  split; [done|]. split; [done|]. split; [done|]. split; [done|].
  split; [|split; [|split; [|split; [|split; [|split]]]]].
  - intros bus buttons w Hb.
    destruct (send_cmd_wire bus buttons
                ((3 * tlx + col * (brx - tlx)) ÷ 3) ((3 * tly + row * (bry - tly)) ÷ 3)
                0 w) as (packet & Hw & Hxy); [done | lia |].
    exists packet. repeat split; try done; lia.
  - rewrite grid_lookup by lia. do 2 f_equal.
    + replace (3 * tlx + 0 * (brx - tlx)) with (tlx * 3) by lia. by apply Z.quot_mul.
    + replace (3 * tly + 0 * (bry - tly)) with (tly * 3) by lia. by apply Z.quot_mul.
  - rewrite grid_lookup by lia. do 2 f_equal.
    + replace (3 * tlx + 3 * (brx - tlx)) with (brx * 3) by lia. by apply Z.quot_mul.
    + replace (3 * tly + 3 * (bry - tly)) with (bry * 3) by lia. by apply Z.quot_mul.
  - by rewrite grid_lookup.
  - by rewrite grid_lookup.
  - by rewrite grid_lookup.
  - rewrite (proj2 grid_float_agrees). by rewrite grid_lookup.
Qed.

Lemma grid_coordinates_truncated_witness :
  0 ≤ 1 < 4 ∧ 0 ≤ 2 < 4
  ∧ ∃ x y, WordHunt.get_grid_coordinates_at 0 0 30 30 !! (1, 2) = Some (x, y)
           ∧ x = (3 * 0 + 2 * (30 - 0)) ÷ 3 ∧ y = (3 * 0 + 1 * (30 - 0)) ÷ 3.
Proof.
  split; [lia|]. split; [lia|].
  pose proof (grid_coordinates_truncated 0 0 30 30 1 2 ltac:(lia) ltac:(lia)) as H.
  destruct H as (x & y & Hl & _ & _ & Hx & Hy & _).
  exists x, y. split; [exact Hl|]. split; assumption.
Defined.

(** C3 as stated does not hold of the code: cell (1,2) of the (0,0)-(30,30)
    grid is sent to (20,10), not (10,20); and with the configured corners
    the x coordinate of column 2 is 19166, the integer part of 19166.67,
    where rounding to nearest would give 19167. *)
Lemma grid_coordinates_not_rounded :
  WordHunt.get_grid_coordinates_at 0 0 30 30 !! (1, 2) = Some (20, 10)
  ∧ WordHunt.get_grid_coordinates_at 0 0 30 30 !! (1, 2) ≠ Some (10, 20)
  ∧ WordHunt.get_grid_coordinates_float_at 0 0 30 30 !! (1, 2) = Some (20, 10)
  ∧ WordHunt.get_grid_coordinates !! (0, 2) = Some (19166, 15750)
  ∧ WordHunt.get_grid_coordinates_float_at
      WordHunt.TOP_LEFT_X WordHunt.TOP_LEFT_Y WordHunt.BOTTOM_RIGHT_X WordHunt.BOTTOM_RIGHT_Y
    !! (0, 2) = Some (19166, 15750)
  ∧ WordHunt.round_nearest
      (inject_Z WordHunt.TOP_LEFT_X
       + 2 * (inject_Z (WordHunt.BOTTOM_RIGHT_X - WordHunt.TOP_LEFT_X) / 3))%Q
    = 19167.
Proof.
  split; [by rewrite grid_lookup|]. split; [by rewrite grid_lookup|].
  split; [rewrite (proj2 grid_float_agrees); by rewrite grid_lookup|].
  assert (WordHunt.get_grid_coordinates !! (0, 2) = Some (19166, 15750)) as Hq.
  { unfold WordHunt.get_grid_coordinates. by rewrite grid_lookup. }
  split; [exact Hq|]. split; [|reflexivity].
  by rewrite (proj1 grid_float_agrees).
Qed.

(** ** Delivery failures during a gesture *)

Lemma bind_Ok {A B} (m : result A) (k : A → result B) (b : B) :
  (x ←! m; k x) = Ok b ↔ ∃ a, m = Ok a ∧ k a = Ok b.
Proof.
  destruct m; cbn; split; try done.
  - intros H. by exists a.
  - by intros (a' & [= ->] & H).
  - by intros (? & ? & ?).
  - by intros (? & ? & ?).
Qed.

Lemma accounted_refl w : accounted w w.
Proof. exists [], []. by rewrite !app_nil_r. Qed.

Lemma accounted_trans w1 w2 w3 : accounted w1 w2 → accounted w2 w3 → accounted w1 w3.
Proof.
  intros (a1 & e1 & Hw1 & Hl1 & Hn1) (a2 & e2 & Hw2 & Hl2 & Hn2).
  exists (a1 ++ a2), (e1 ++ e2). rewrite Hw2, Hw1, Hl2, Hl1, <- !app_assoc.
  split; [done|]. split; [done|].
  rewrite filter_app, !length_app. lia.
Qed.

Section delivery.

Variables bus1 bus2 : transport.

Lemma send_current_offers state w1 w2 :
  same_offers w1 w2 →
  same_offers (send_current bus1 state w1) (send_current bus2 state w2).
Proof.
  unfold same_offers, send_current, send_mouse. intros H.
  destruct (bytes state) as [packet| |]; cbn; try done.
  destruct (bus1 _ _), (bus2 _ _); cbn; rewrite !fmap_app, H; done.
Qed.

Lemma _send_offers sx sy m w1 w2 :
  same_offers w1 w2 →
  (_send bus1 sx sy (m, w1)).1 = (_send bus2 sx sy (m, w2)).1
  ∧ same_offers (_send bus1 sx sy (m, w1)).2 (_send bus2 sx sy (m, w2)).2.
Proof. intros H. split; [done|]. by apply send_current_offers. Qed.

Lemma goto_loop_offers delta x y fuel : ∀ dx dy m w1 w2,
  same_offers w1 w2 →
  match SolverMouse.goto_loop bus1 delta fuel x y dx dy (m, w1),
        SolverMouse.goto_loop bus2 delta fuel x y dx dy (m, w2) with
  | Ok (m1, w1'), Ok (m2, w2') => m1 = m2 ∧ same_offers w1' w2'
  | Diverge, Diverge => True
  | _, _ => False
  end.
Proof.
  induction fuel as [|fuel IH]; intros dx dy m w1 w2 H; cbn [SolverMouse.goto_loop].
  - by destruct (negb (dx =? 0) || negb (dy =? 0)).
  - destruct (negb (dx =? 0) || negb (dy =? 0)); [|done].
    cbn zeta. rewrite !_send_mouse. cbn [fst snd].
    apply IH. by apply send_current_offers.
Qed.

End delivery.

Lemma send_current_accounted bus state w :
  bytes state = Ok state → accounted w (send_current bus state w).
Proof.
  intros Hb. unfold send_current, send_mouse. rewrite Hb.
  destruct (bus _ _) as [e|]; cbn.
  - exists [(state, false)], [e]. done.
  - exists [(state, true)], []. by rewrite app_nil_r.
Qed.

Lemma _send_accounted bus sx sy m w :
  0 ≤ current_button m < 256 → accounted w (_send bus sx sy (m, w)).2.
Proof.
  intros Hb. unfold _send. cbn [fst snd].
  apply (send_current_accounted bus (packet_of (current_button m) (sx, sy))).
  by apply bytes_packet_of.
Qed.

Lemma goto_loop_accounted bus delta x y fuel : ∀ dx dy m w m' w',
  0 ≤ current_button m < 256 →
  SolverMouse.goto_loop bus delta fuel x y dx dy (m, w) = Ok (m', w') →
  accounted w w' ∧ current_button m' = current_button m.
Proof.
  induction fuel as [|fuel IH]; intros dx dy m w m' w' Hb; cbn [SolverMouse.goto_loop].
  - destruct (negb (dx =? 0) || negb (dy =? 0)); [done|].
    intros [= <- <-]. split; [apply accounted_refl | done].
  - destruct (negb (dx =? 0) || negb (dy =? 0)).
    + cbn zeta. rewrite !_send_mouse. cbn [fst snd]. intros Hr.
      apply IH in Hr as [Hacc Hbt]; [|done]. split; [|done].
      eapply accounted_trans; [|exact Hacc]. by apply _send_accounted.
    + intros [= <- <-]. split; [apply accounted_refl | done].
Qed.

Lemma goto_robust bus x y m w wq :
  0 ≤ current_button m < 256 → same_offers w wq →
  robust bus (fun b => SolverMouse.goto b x y) (current_button m) m w wq.
Proof.
  intros Hb Hs. unfold robust, SolverMouse.goto.
  destruct (solver_goto_with_spec bus Solver.FIXED_DELTA ltac:(done) x y (m, w))
    as (m' & w' & _ & Hr & _).
  destruct (solver_goto_with_spec quiet_bus Solver.FIXED_DELTA ltac:(done) x y (m, wq))
    as (mq & wq' & _ & Hq & _).
  pose proof (goto_loop_offers bus quiet_bus Solver.FIXED_DELTA x y
                (goto_bound (x - current_x m) (y - current_y m))
                (x - current_x m) (y - current_y m) m w wq Hs) as Hrel.
  unfold SolverMouse.goto_with in Hr, Hq. cbn [fst snd] in Hr, Hq.
  rewrite Hr, Hq in Hrel. destruct Hrel as [<- Hs'].
  pose proof Hr as Hr'. apply goto_loop_accounted in Hr' as [Hacc Hbt]; [|done].
  exists m', w', wq'. unfold SolverMouse.goto_with. cbn [fst snd].
  repeat split; try done.
Qed.

Lemma convert_present table pos :
  is_Some (table !! SolverMouse.coord_to_index pos) →
  ∃ p, SolverMouse.convert_coord_to_mouse_pos pos table = Ok p
       ∧ table !! SolverMouse.coord_to_index pos = Some p.
Proof.
  intros [p Hp]. exists p. unfold SolverMouse.convert_coord_to_mouse_pos, SolverMouse.getitem.
  by rewrite Hp.
Qed.

Lemma drags_robust bus table coords : ∀ m w wq,
  calibrated table coords →
  0 ≤ current_button m < 256 → same_offers w wq →
  robust bus (fun b => for_each (SolverMouse.drag table b) coords) (current_button m) m w wq.
Proof.
  induction coords as [|pos coords IH]; intros m w wq Hall Hb Hs.
  - exists m, w, wq. repeat split; try done. apply accounted_refl.
  - apply Forall_cons in Hall as [Hpos Hall].
    destruct (convert_present table pos Hpos) as (p & Hp & _).
    destruct (goto_robust bus p.1 p.2 m w wq Hb Hs) as (m1 & w1 & wq1 & Hr & Hq & Hs1 & Ha1 & Hb1).
    destruct (IH m1 w1 wq1 Hall ltac:(by rewrite Hb1) Hs1)
      as (m2 & w2 & wq2 & Hr2 & Hq2 & Hs2 & Ha2 & Hb2).
    exists m2, w2, wq2. cbn [for_each]. unfold SolverMouse.drag at 1 3. rewrite Hp. cbn [bind].
    rewrite Hr, Hq. cbn [bind]. rewrite Hr2, Hq2.
    repeat split; try done.
    + by eapply accounted_trans.
    + by rewrite Hb2, Hb1.
Qed.

Lemma send_current_cases bus state w :
  bytes state = Ok state →
  ∃ delivered,
    wire (send_current bus state w) = wire w ++ [(state, delivered)]
    ∧ if delivered : bool then log (send_current bus state w) = log w
      else ∃ e, log (send_current bus state w) = log w ++ [e].
Proof.
  intros Hb. unfold send_current, send_mouse. rewrite Hb.
  destruct (bus _ _) as [e|]; cbn.
  - exists false. split; [done|]. by exists e.
  - by exists true.
Qed.

Lemma _send_robust bus sx sy m w wq :
  0 ≤ current_button m < 256 → same_offers w wq →
  robust bus (fun b s => Ok (_send b sx sy s)) (current_button m) m w wq.
Proof.
  intros Hb Hs.
  exists m, (_send bus sx sy (m, w)).2, (_send quiet_bus sx sy (m, wq)).2.
  repeat split; try done.
  - by apply send_current_offers.
  - by apply _send_accounted.
Qed.

Lemma repeat_send_robust bus sx sy n : ∀ m w wq,
  0 ≤ current_button m < 256 → same_offers w wq →
  robust bus (fun b s => Ok (repeat_n n (_send b sx sy) s)) (current_button m) m w wq.
Proof.
  induction n as [|n IH]; intros m w wq Hb Hs.
  - exists m, w, wq. repeat split; try done. apply accounted_refl.
  - destruct (IH m (_send bus sx sy (m, w)).2 (_send quiet_bus sx sy (m, wq)).2 Hb)
      as (m' & w' & wq' & Hr & Hq & Hs' & Ha & Hb'); [by apply send_current_offers|].
    exists m', w', wq'. cbn [repeat_n]. repeat split; try done.
    eapply accounted_trans; [|exact Ha]. by apply _send_accounted.
Qed.

Lemma Ok_inj {A} (a b : A) : Ok a = Ok b → a = b.
Proof. by intros [= ->]. Qed.

Lemma recalibrate_robust bus m w wq :
  0 ≤ current_button m < 256 → same_offers w wq →
  robust bus (fun b s => Ok (recalibrate_top_left b s)) (current_button m) m w wq.
Proof.
  intros Hb Hs.
  destruct (repeat_send_robust bus (-127) 0 20 m w wq Hb Hs)
    as (m1 & w1 & wq1 & Hr1 & Hq1 & Hs1 & Ha1 & Hb1).
  apply Ok_inj in Hr1, Hq1.
  assert (0 ≤ current_button m1 < 256) as Hb1' by (by rewrite Hb1).
  destruct (repeat_send_robust bus 0 (-127) 20 m1 w1 wq1 Hb1' Hs1)
    as (m2 & w2 & wq2 & Hr2 & Hq2 & Hs2 & Ha2 & Hb2).
  apply Ok_inj in Hr2, Hq2.
  exists (set_position 0 0 m2), w2, wq2.
  unfold recalibrate_top_left.
  rewrite Hr1, Hq1, Hr2, Hq2.
  split; [reflexivity|]. split; [reflexivity|]. split; [exact Hs2|].
  split; [by eapply accounted_trans|].
  unfold set_position. cbn [current_button]. by rewrite Hb2, Hb1.
Qed.

Lemma accounted_button_send bus b m w :
  0 ≤ b < 256 → accounted w (_send bus 0 0 (set_button b m, w)).2.
Proof. intros Hb. by apply _send_accounted. Qed.

Lemma py_index_head {A} (a : A) (l : list A) : py_index (a :: l) 0 = Ok a.
Proof.
  unfold py_index. change (0 <? 0) with false. cbv zeta iota.
  destruct (Z.ltb_spec 0 (Z.of_nat (length (a :: l)))) as [_|H]; [done|].
  cbn [length] in H. lia.
Qed.

(** One word: hover, press, drag, release. *)
Lemma select_word_robust bus table coords m w wq :
  coords ≠ [] → calibrated table coords →
  0 ≤ current_button m < 256 → same_offers w wq →
  robust bus (fun b => SolverMouse.select_word b table coords) 0 m w wq
  ∧ ∃ m' w2 w' delivered,
      SolverMouse.select_word bus table coords (m, w) = Ok (m', w')
      ∧ wire w' = wire w2 ++ [([0; 0; 0; 0], delivered)]
      ∧ if delivered : bool then log w' = log w2 else ∃ e, log w' = log w2 ++ [e].
Proof.
  intros Hne Hcal Hb Hs.
  destruct coords as [|first rest]; [done|]. clear Hne.
  apply Forall_cons in Hcal as [Hfirst Hrest].
  destruct (convert_present table first Hfirst) as (p & Hp & _).
  destruct (goto_robust bus p.1 p.2 m w wq Hb Hs)
    as (m1 & w1 & wq1 & Hr1 & Hq1 & Hs1 & Ha1 & Hb1).
  pose proof (send_current_offers bus quiet_bus
                (packet_of 1 (0, 0)) w1 wq1 Hs1) as Hs2.
  pose proof (_send_accounted bus 0 0 (set_button 1 m1) w1 ltac:(cbn; lia)) as Ha2.
  destruct (drags_robust bus table rest (set_button 1 m1)
              (_send bus 0 0 (set_button 1 m1, w1)).2
              (_send quiet_bus 0 0 (set_button 1 m1, wq1)).2 Hrest ltac:(cbn; lia) Hs2)
    as (m3 & w3 & wq3 & Hr3 & Hq3 & Hs3 & Ha3 & Hb3).
  pose proof (send_current_offers bus quiet_bus
                (packet_of 0 (0, 0)) w3 wq3 Hs3) as Hs4.
  pose proof (_send_accounted bus 0 0 (set_button 0 m3) w3 ltac:(cbn; lia)) as Ha4.
  assert (SolverMouse.select_word bus table (first :: rest) (m, w)
          = Ok (_send bus 0 0 (set_button 0 m3, w3))) as Hrun.
  { unfold SolverMouse.select_word. rewrite py_index_head. cbn [bind tail].
    rewrite Hp. cbn [bind]. rewrite Hr1. cbn [bind fst snd].
    change (_send bus 0 0 (set_button 1 m1, w1))
      with (set_button 1 m1, (_send bus 0 0 (set_button 1 m1, w1)).2).
    rewrite Hr3. reflexivity. }
  assert (SolverMouse.select_word quiet_bus table (first :: rest) (m, wq)
          = Ok (_send quiet_bus 0 0 (set_button 0 m3, wq3))) as Hrunq.
  { unfold SolverMouse.select_word. rewrite py_index_head. cbn [bind tail].
    rewrite Hp. cbn [bind]. rewrite Hq1. cbn [bind fst snd].
    change (_send quiet_bus 0 0 (set_button 1 m1, wq1))
      with (set_button 1 m1, (_send quiet_bus 0 0 (set_button 1 m1, wq1)).2).
    rewrite Hq3. reflexivity. }
  split.
  - exists (set_button 0 m3), (_send bus 0 0 (set_button 0 m3, w3)).2,
      (_send quiet_bus 0 0 (set_button 0 m3, wq3)).2.
    split; [exact Hrun|]. split; [exact Hrunq|]. split; [exact Hs4|].
    split; [|reflexivity].
    eapply accounted_trans; [exact Ha1|].
    eapply accounted_trans; [exact Ha2|].
    eapply accounted_trans; [exact Ha3|exact Ha4].
  - destruct (send_current_cases bus (packet_of 0 (0, 0)) w3)
      as (delivered & Hw & Hl); [reflexivity|].
    exists (set_button 0 m3), w3, (_send bus 0 0 (set_button 0 m3, w3)).2, delivered.
    split; [exact Hrun|]. split; [exact Hw|exact Hl].
Qed.

Lemma select_all_robust bus table results : ∀ i0 m w wq,
  Forall (fun word : string * list Position => word.2 ≠ [] ∧ calibrated table word.2) results →
  current_button m = 0 → same_offers w wq →
  robust bus (fun b => SolverMouse.select_all b table i0 results) 0 m w wq.
Proof.
  induction results as [|word results IH]; intros i0 m w wq Hall Hb Hs.
  - exists m, w, wq. repeat split; try done. apply accounted_refl.
  - apply Forall_cons in Hall as [[Hne Hcal] Hall].
    destruct (select_word_robust bus table word.2 m w wq Hne Hcal ltac:(lia) Hs)
      as [(m1 & w1 & wq1 & Hr1 & Hq1 & Hs1 & Ha1 & Hb1) _].
    cbn [SolverMouse.select_all]. unfold robust. rewrite Hr1, Hq1. cbn [bind].
    destruct ((i0 + 1) mod 3 =? 0).
    + destruct (recalibrate_robust bus m1 w1 wq1 ltac:(lia) Hs1)
        as (m2 & w2 & wq2 & Hr2 & Hq2 & Hs2 & Ha2 & Hb2).
      apply Ok_inj in Hr2, Hq2. rewrite Hr2, Hq2.
      destruct (IH (i0 + 1) m2 w2 wq2 Hall ltac:(lia) Hs2)
        as (m3 & w3 & wq3 & Hr3 & Hq3 & Hs3 & Ha3 & Hb3).
      exists m3, w3, wq3. split; [exact Hr3|]. split; [exact Hq3|].
      split; [exact Hs3|]. split; [|exact Hb3].
      eapply accounted_trans; [exact Ha1|]. eapply accounted_trans; [exact Ha2|exact Ha3].
    + destruct (IH (i0 + 1) m1 w1 wq1 Hall Hb1 Hs1)
        as (m3 & w3 & wq3 & Hr3 & Hq3 & Hs3 & Ha3 & Hb3).
      exists m3, w3, wq3. split; [exact Hr3|]. split; [exact Hq3|].
      split; [exact Hs3|]. split; [|exact Hb3].
      eapply accounted_trans; [exact Ha1|exact Ha3].
Qed.

Lemma play_robust bus table results m w wq :
  is_Some (table !! 0) →
  Forall (fun word : string * list Position => word.2 ≠ [] ∧ calibrated table word.2) results →
  current_button m = 0 → same_offers w wq →
  robust bus (fun b => SolverMouse.play b table results) 0 m w wq.
Proof.
  intros [p Hp] Hall Hb Hs. unfold robust, SolverMouse.play, SolverMouse.getitem.
  rewrite Hp. cbn [bind].
  destruct (goto_robust bus p.1 p.2 m w wq ltac:(lia) Hs)
    as (m1 & w1 & wq1 & Hr1 & Hq1 & Hs1 & Ha1 & Hb1).
  rewrite Hr1, Hq1. cbn [bind].
  destruct (select_all_robust bus table results 0 m1 w1 wq1 Hall ltac:(lia) Hs1)
    as (m3 & w3 & wq3 & Hr3 & Hq3 & Hs3 & Ha3 & Hb3).
  exists m3, w3, wq3. split; [exact Hr3|]. split; [exact Hq3|].
  split; [exact Hs3|]. split; [|exact Hb3].
  eapply accounted_trans; [exact Ha1|exact Ha3].
Qed.

(** C6, as the code has it.  Whatever the service does, the gesture
    sequence for a list of words whose cells are all calibrated runs to its
    end: it returns, with the pointer state and the packets offered to the
    service exactly those of a run in which nothing fails, the button
    released, and one log line per failed delivery.  The release is the last
    packet of each word; when its delivery fails that, too, costs one log
    line and the call returns as usual. *)
Theorem delivery_failures_are_logged (bus : transport) (table : gmap Z (Z * Z))
    (results : list (string * list Position)) (m : MouseSE) (w : world) :
  is_Some (table !! 0) →
  Forall (fun word : string * list Position => word.2 ≠ [] ∧ calibrated table word.2) results →
  current_button m = 0 →
  (∃ m' w' wq,
     SolverMouse.play bus table results (m, w) = Ok (m', w')
     ∧ SolverMouse.play quiet_bus table results (m, w) = Ok (m', wq)
     ∧ same_offers w' wq ∧ accounted w w' ∧ current_button m' = 0)
  ∧ ∀ word m0 w0, word ∈ results → 0 ≤ current_button m0 < 256 →
      ∃ m' w2 w' delivered,
        SolverMouse.select_word bus table word.2 (m0, w0) = Ok (m', w')
        ∧ wire w' = wire w2 ++ [([0; 0; 0; 0], delivered)]
        ∧ if delivered : bool then log w' = log w2 else ∃ e, log w' = log w2 ++ [e].
Proof.
  intros H0 Hall Hb. split.
  - exact (play_robust bus table results m w w H0 Hall Hb eq_refl).
  - intros word m0 w0 Hin Hb0.
    rewrite Forall_forall in Hall. destruct (Hall word Hin) as [Hne Hcal].
    exact (proj2 (select_word_robust bus table word.2 m0 w0 w0 Hne Hcal Hb0 eq_refl)).
Qed.

(** C6 as stated does not hold of the code: when the delivery of the
    release packet fails, the gesture returns normally with one more log
    line, just as it does when the press fails; nothing is raised. *)
Lemma release_failure_not_escalated :
  SolverMouse.select_word release_fails (SolverMouse.load_mouse_positions (grid_entries 16))
    [(0, 0); (0, 1)] (origin 0, silent)
  = Ok ({| current_x := 10; current_y := 0; current_button := 0 |},
        {| wire := [([1; 0; 0; 0], true); ([1; 10; 0; 0], true); ([0; 0; 0; 0], false)];
           log := [DBusException] |})
  ∧ SolverMouse.select_word press_fails (SolverMouse.load_mouse_positions (grid_entries 16))
      [(0, 0); (0, 1)] (origin 0, silent)
    = Ok ({| current_x := 10; current_y := 0; current_button := 0 |},
          {| wire := [([1; 0; 0; 0], false); ([1; 10; 0; 0], true); ([0; 0; 0; 0], true)];
             log := [DBusException] |}).
Proof. split; vm_compute; reflexivity. Qed.

Lemma full_table_origin : is_Some (SolverMouse.load_mouse_positions (grid_entries 16) !! 0).
Proof. exists (0, 0). vm_compute. reflexivity. Defined.

Lemma one_swipe_calibrated (n : nat) :
  SolverMouse.load_mouse_positions (grid_entries n) !! 0 = Some (0, 0) →
  SolverMouse.load_mouse_positions (grid_entries n) !! 1 = Some (10, 0) →
  Forall (fun word : string * list Position =>
            word.2 ≠ [] ∧ calibrated (SolverMouse.load_mouse_positions (grid_entries n)) word.2)
         one_swipe.
Proof.
  intros H0 H1. constructor; [|constructor]. split; [discriminate|].
  constructor; [|constructor; [|constructor]]; cbn [snd].
  - exists (0, 0). exact H0.
  - exists (10, 0). exact H1.
Defined.

Lemma delivery_failures_are_logged_witness :
  is_Some (SolverMouse.load_mouse_positions (grid_entries 16) !! 0)
  ∧ current_button (origin 0) = 0
  ∧ ∃ m' w' wq,
      SolverMouse.play release_fails (SolverMouse.load_mouse_positions (grid_entries 16))
        one_swipe (origin 0, silent) = Ok (m', w')
      ∧ SolverMouse.play quiet_bus (SolverMouse.load_mouse_positions (grid_entries 16))
          one_swipe (origin 0, silent) = Ok (m', wq)
      ∧ same_offers w' wq ∧ accounted silent w' ∧ current_button m' = 0.
Proof.
  split; [exact full_table_origin|]. split; [reflexivity|].
  exact (proj1 (delivery_failures_are_logged release_fails
                  (SolverMouse.load_mouse_positions (grid_entries 16)) one_swipe
                  (origin 0) silent full_table_origin
                  (one_swipe_calibrated 16 ltac:(vm_compute; reflexivity)
                                           ltac:(vm_compute; reflexivity))
                  eq_refl)).
Defined.

(** ** The table-mode coordinate lookup *)





(** ** Dictionaries and the trie builder *)

Lemma dict_case_get {B} k (none : B) some items :
  dict_case k none some items
  = match dict_get k items with Some v => some v | None => none end.
Proof.
  induction items as [|[k' v] items IH]; cbn; [done|].
  destruct (decide (k' = k)); [done|]. exact IH.
Qed.

Lemma dict_get_cons k k' v items :
  dict_get k ((k', v) :: items) = if decide (k' = k) then Some v else dict_get k items.
Proof. reflexivity. Qed.

Lemma dict_mem_get k items : dict_mem k items = bool_decide (is_Some (dict_get k items)).
Proof.
  unfold dict_mem. rewrite dict_case_get. destruct (dict_get k items).
  - by rewrite bool_decide_eq_true_2.
  - rewrite bool_decide_eq_false_2; [done|]. by intros [? ?].
Qed.

Lemma dict_mem_true k items : dict_mem k items = true ↔ is_Some (dict_get k items).
Proof. rewrite dict_mem_get. apply bool_decide_eq_true. Qed.

Lemma dict_get_set_eq k v items : dict_get k (dict_set k v items) = Some v.
Proof.
  induction items as [|[k' v'] items IH]; cbn [dict_set].
  - by rewrite dict_get_cons, decide_True.
  - destruct (decide (k' = k)) as [->|Hne]; rewrite dict_get_cons.
    + by rewrite decide_True.
    + by rewrite decide_False.
Qed.

Lemma dict_get_set_ne k k' v items :
  k ≠ k' → dict_get k' (dict_set k v items) = dict_get k' items.
Proof.
  intros Hne. induction items as [|[k0 v0] items IH]; cbn [dict_set].
  - by rewrite dict_get_cons, decide_False.
  - destruct (decide (k0 = k)) as [->|Hne0]; rewrite !dict_get_cons.
    + by rewrite !decide_False.
    + destruct (decide (k0 = k')); [done|]. exact IH.
Qed.

Lemma dict_set_id k v items : dict_get k items = Some v → dict_set k v items = items.
Proof.
  induction items as [|[k' v'] items IH]; [done|].
  rewrite dict_get_cons. cbn [dict_set]. destruct (decide (k' = k)) as [->|Hne].
  - by intros [= ->].
  - intros H. by rewrite IH.
Qed.

Lemma dict_mem_set_ne k k' v items :
  k ≠ k' → dict_mem k' (dict_set k v items) = dict_mem k' items.
Proof. intros Hne. by rewrite !dict_mem_get, dict_get_set_ne. Qed.

Module BuildTrieFacts.
Import BuildTrie.

Lemma trie_wf_dict items : trie_wf (PyDict items) = forallb entry_wf items.
Proof. reflexivity. Qed.

Lemma wf_get k v items :
  trie_wf (PyDict items) = true → dict_get k items = Some v →
  if decide (k = dollar) then v = PyTrue else trie_wf v = true.
Proof.
  rewrite trie_wf_dict. induction items as [|[k' v'] items IH]; [done|].
  cbn [forallb]. intros [Hkv Hrest]%andb_prop. rewrite dict_get_cons.
  destruct (decide (k' = k)) as [->|Hne]; [|by apply IH].
  intros [= ->]. unfold entry_wf in Hkv. cbn [fst snd] in Hkv.
  destruct (decide (k = dollar)); [by destruct v|done].
Qed.

Lemma wf_set k v items :
  trie_wf (PyDict items) = true → entry_wf (k, v) = true →
  trie_wf (PyDict (dict_set k v items)) = true.
Proof.
  rewrite !trie_wf_dict. intros Hwf Hkv.
  induction items as [|[k' v'] items IH]; cbn.
  - by rewrite Hkv.
  - cbn [forallb] in Hwf. apply andb_prop in Hwf as [H1 H2].
    destruct (decide (k' = k)) as [->|Hne]; cbn [forallb].
    + by rewrite Hkv, H2.
    + by rewrite H1, IH.
Qed.

Lemma dollar_not_alpha : isalpha_char dollar = false.
Proof. reflexivity. Qed.

Lemma alpha_not_dollar c : isalpha_char c = true → c ≠ dollar.
Proof. intros H ->. by rewrite dollar_not_alpha in H. Qed.

Lemma walk_true word items : walk word PyTrue ≠ Some (PyDict items).
Proof. by destruct word. Qed.

Lemma terminal_path_nil items :
  terminal_path (PyDict items) EmptyString ↔ dict_mem dollar items = true.
Proof.
  unfold terminal_path. cbn. split.
  - by intros (items' & [= <-] & H).
  - intros H. by exists items.
Qed.

Lemma terminal_path_cons items c rest :
  terminal_path (PyDict items) (String c rest)
  ↔ ∃ sub, dict_get c items = Some sub ∧ terminal_path sub rest.
Proof.
  unfold terminal_path. cbn. destruct (dict_get c items) as [sub|]; split.
  - intros H. by exists sub.
  - by intros (sub' & [= <-] & H).
  - by intros (? & ? & ?).
  - by intros (? & ? & ?).
Qed.

Lemma terminal_path_true word : ¬ terminal_path PyTrue word.
Proof. intros (items & H & _). by apply walk_true in H. Qed.

Lemma terminal_path_empty_dict word : ¬ terminal_path (PyDict []) word.
Proof.
  destruct word.
  - rewrite terminal_path_nil. done.
  - rewrite terminal_path_cons. by intros (? & ? & ?).
Qed.

(** Inserting a word of letters into a well-formed trie succeeds, keeps the
    trie well formed and adds exactly that word to the marked paths. *)
Lemma insert_spec word : ∀ node,
  trie_wf node = true →
  forallb isalpha_char (list_ascii_of_string word) = true →
  ∃ node', insert word node = Ok node' ∧ trie_wf node' = true
           ∧ ∀ w, terminal_path node' w ↔ w = word ∨ terminal_path node w.
Proof.
  induction word as [|c rest IH]; intros [|items] Hwf Halpha; try done.
  - eexists. split; [reflexivity|]. split; [by apply wf_set|].
    intros [|c' r'].
    + rewrite !terminal_path_nil, dict_mem_true, dict_get_set_eq. naive_solver.
    + rewrite !terminal_path_cons. split.
      * intros (sub & Hget & Hsub). right. exists sub. split; [|done].
        destruct (decide (c' = dollar)) as [->|Hne].
        -- rewrite dict_get_set_eq in Hget. injection Hget as <-.
           by apply terminal_path_true in Hsub.
        -- by rewrite dict_get_set_ne in Hget.
      * intros [?|(sub & Hget & Hsub)]; [done|]. exists sub. split; [|done].
        destruct (decide (c' = dollar)) as [->|Hne].
        -- pose proof (wf_get _ _ _ Hwf Hget) as Hv. rewrite decide_True in Hv by done.
           subst sub. by apply terminal_path_true in Hsub.
        -- by rewrite dict_get_set_ne.
  - cbn [list_ascii_of_string forallb] in Halpha.
    apply andb_prop in Halpha as [Hc Hrest].
    apply alpha_not_dollar in Hc.
    cbn [insert].
    set (items1 := if dict_mem c items then items else dict_set c (PyDict []) items).
    assert (trie_wf (PyDict items1) = true) as Hwf1.
    { subst items1. destruct (dict_mem c items); [done|].
      apply wf_set; [done|]. unfold entry_wf. cbn [fst snd]. by rewrite decide_False. }
    assert (∃ sub, dict_get c items1 = Some sub
                   ∧ ∀ w, terminal_path sub w
                          ↔ ∃ sub0, dict_get c items = Some sub0 ∧ terminal_path sub0 w)
      as (sub & Hsub & Hsubpaths).
    { subst items1. destruct (dict_mem c items) eqn:Hmem.
      - apply dict_mem_true in Hmem as [sub Hsub]. exists sub. split; [done|].
        intros w. rewrite Hsub. naive_solver.
      - exists (PyDict []). split; [apply dict_get_set_eq|].
        intros w. split; [by intros ?%terminal_path_empty_dict|].
        intros (sub0 & Hget & _).
        assert (dict_mem c items = true) by (apply dict_mem_true; eauto). congruence. }
    assert (∀ c', c' ≠ c → dict_get c' items1 = dict_get c' items) as Hother.
    { intros c' Hne. subst items1. destruct (dict_mem c items); [done|].
      by rewrite dict_get_set_ne. }
    pose proof (wf_get _ _ _ Hwf1 Hsub) as Hsubwf. rewrite decide_False in Hsubwf by done.
    destruct (IH sub Hsubwf Hrest) as (sub' & Hins & Hwf' & Hpaths).
    unfold dict_getitem. rewrite Hsub. cbn [bind]. rewrite Hins. cbn [bind].
    eexists. split; [reflexivity|]. split.
    { apply wf_set; [done|]. unfold entry_wf. cbn [fst snd]. by rewrite decide_False. }
    intros [|c' r'].
    + rewrite !terminal_path_nil, dict_mem_set_ne by done.
      rewrite !dict_mem_get, Hother by done. naive_solver.
    + rewrite !terminal_path_cons. destruct (decide (c' = c)) as [->|Hne].
      * rewrite dict_get_set_eq. split.
        -- intros (? & [= <-] & [->|Hold]%Hpaths); [by left|].
           right. by apply Hsubpaths.
        -- intros [[= ->]|Hold]; (eexists; split; [done|]); apply Hpaths; [by left|].
           right. by apply Hsubpaths.
      * rewrite dict_get_set_ne, Hother by done. naive_solver.
Qed.

(** A word that is already marked is inserted without any change. *)
Lemma insert_again word : ∀ node,
  trie_wf node = true →
  forallb isalpha_char (list_ascii_of_string word) = true →
  terminal_path node word → insert word node = Ok node.
Proof.
  induction word as [|c rest IH]; intros [|items] Hwf Halpha Hterm;
    try (by apply terminal_path_true in Hterm).
  - apply terminal_path_nil, dict_mem_true in Hterm as [v Hv].
    pose proof (wf_get _ _ _ Hwf Hv) as Hv'. rewrite decide_True in Hv' by done. subst v.
    cbn. by rewrite dict_set_id.
  - cbn [list_ascii_of_string forallb] in Halpha.
    apply andb_prop in Halpha as [Hc Hrest]. apply alpha_not_dollar in Hc.
    apply terminal_path_cons in Hterm as (sub & Hsub & Hterm).
    pose proof (wf_get _ _ _ Hwf Hsub) as Hsubwf. rewrite decide_False in Hsubwf by done.
    cbn [insert].
    assert (dict_mem c items = true) as -> by (apply dict_mem_true; eauto).
    unfold dict_getitem. rewrite Hsub. cbn [bind].
    rewrite (IH sub Hsubwf Hrest Hterm). cbn [bind]. by rewrite dict_set_id.
Qed.

Lemma skipped_accepted word : skipped word = false ↔ accepted word.
Proof.
  unfold skipped, accepted, isalpha. destruct word as [|c rest].
  - cbn. naive_solver.
  - rewrite decide_False by done. rewrite orb_false_iff, negb_false_iff, Nat.ltb_ge.
    naive_solver.
Qed.

Lemma skipped_not_accepted word : skipped word = true ↔ ¬ accepted word.
Proof. rewrite <- skipped_accepted. by destruct (skipped word). Qed.

Lemma build_step_skip line trie : ¬ accepted (clean line) → build_step line trie = Ok trie.
Proof. intros H%skipped_not_accepted. unfold build_step. by rewrite H. Qed.

Lemma build_step_insert line trie :
  trie_wf trie = true → accepted (clean line) →
  ∃ trie', build_step line trie = Ok trie' ∧ trie_wf trie' = true
           ∧ ∀ w, terminal_path trie' w ↔ w = clean line ∨ terminal_path trie w.
Proof.
  intros Hwf Hacc. pose proof Hacc as (_ & Halpha & _).
  apply skipped_accepted in Hacc. unfold build_step. rewrite Hacc.
  by apply insert_spec.
Qed.

Lemma build_from lines : ∀ trie0,
  trie_wf trie0 = true →
  ∃ trie, for_each build_step lines trie0 = Ok trie ∧ trie_wf trie = true
          ∧ ∀ w, terminal_path trie w
                 ↔ terminal_path trie0 w ∨ (w ∈ clean <$> lines ∧ accepted w).
Proof.
  induction lines as [|line lines IH]; intros trie0 Hwf.
  - exists trie0. split; [done|]. split; [done|]. intros w. rewrite fmap_nil.
    split; [by left|]. intros [?|[?%elem_of_nil ?]]; done.
  - cbn [for_each]. destruct (decide (accepted (clean line))) as [Hacc|Hrej].
    + destruct (build_step_insert line trie0 Hwf Hacc) as (trie1 & -> & Hwf1 & Hp1).
      cbn [bind]. destruct (IH trie1 Hwf1) as (trie & Hr & Hwf2 & Hp).
      exists trie. split; [done|]. split; [done|].
      intros w. rewrite Hp, Hp1, fmap_cons, elem_of_cons. naive_solver.
    + rewrite build_step_skip by done. cbn [bind].
      destruct (IH trie0 Hwf) as (trie & Hr & Hwf2 & Hp).
      exists trie. split; [done|]. split; [done|].
      intros w. rewrite Hp, fmap_cons, elem_of_cons. naive_solver.
Qed.

Lemma for_each_app {A S} (body : A → S → result S) xs ys s :
  for_each body (xs ++ ys) s = (s' ←! for_each body xs s; for_each body ys s').
Proof.
  revert s. induction xs as [|x xs IH]; intros s; [done|].
  cbn [for_each app]. destruct (body x s); cbn [bind]; [apply IH|done..].
Qed.

End BuildTrieFacts.

(** C9.  Whatever the lines of the word list, [build_trie] returns a trie
    and raises nothing.  A candidate that is empty, has a non-alphabetic
    character or is shorter than 3 is skipped: the trie is left as it is.
    Any other candidate is inserted, which adds its marked path and changes
    no other.  Hence the marked paths of the result are exactly the accepted
    candidates, each of length 3 or more and alphabetic throughout; and a
    line whose candidate came before leaves the trie exactly as it was. *)
Theorem build_trie_marks_accepted_words (lines : list string) :
  ∃ trie,
    BuildTrie.build_trie lines = Ok trie
    ∧ BuildTrie.trie_wf trie = true
    ∧ (∀ w, BuildTrie.terminal_path trie w
            ↔ w ∈ BuildTrie.clean <$> lines ∧ BuildTrie.accepted w)
    ∧ (∀ w, BuildTrie.terminal_path trie w →
            (3 ≤ String.length w)%nat ∧ BuildTrie.isalpha w = true)
    ∧ (∀ line t, ¬ BuildTrie.accepted (BuildTrie.clean line) →
                 BuildTrie.build_step line t = Ok t)
    ∧ (∀ line t, BuildTrie.trie_wf t = true → BuildTrie.accepted (BuildTrie.clean line) →
         ∃ t', BuildTrie.build_step line t = Ok t' ∧ BuildTrie.trie_wf t' = true
               ∧ ∀ w, BuildTrie.terminal_path t' w
                      ↔ w = BuildTrie.clean line ∨ BuildTrie.terminal_path t w)
    ∧ (∀ line, BuildTrie.clean line ∈ BuildTrie.clean <$> lines →
               BuildTrie.build_trie (lines ++ [line]) = Ok trie).
Proof.
  destruct (BuildTrieFacts.build_from lines (PyDict []) eq_refl) as (trie & Hr & Hwf & Hp).
  assert (∀ w, BuildTrie.terminal_path trie w
               ↔ w ∈ BuildTrie.clean <$> lines ∧ BuildTrie.accepted w) as Hpaths.
  { intros w. rewrite Hp. split; [|by right].
    intros [H|H]; [|done]. by apply BuildTrieFacts.terminal_path_empty_dict in H. }
  exists trie. split; [exact Hr|]. split; [exact Hwf|]. split; [exact Hpaths|].
  split; [|split; [|split]].
  - intros w (_ & Hne & Halpha & Hlen)%Hpaths. split; [done|].
    unfold BuildTrie.isalpha. by destruct w.
  - intros line t. apply BuildTrieFacts.build_step_skip.
  - intros line t. apply BuildTrieFacts.build_step_insert.
  - intros line Hin. unfold BuildTrie.build_trie in *.
    rewrite BuildTrieFacts.for_each_app, Hr. cbn [bind for_each].
    destruct (decide (BuildTrie.accepted (BuildTrie.clean line))) as [Hacc|Hrej].
    + assert (BuildTrie.skipped (BuildTrie.clean line) = false) as Hs
        by (by apply BuildTrieFacts.skipped_accepted).
      unfold BuildTrie.build_step. rewrite Hs.
      rewrite BuildTrieFacts.insert_again; [done | done | apply Hacc |].
      by apply Hpaths.
    + by rewrite BuildTrieFacts.build_step_skip.
Qed.

Lemma build_trie_marks_accepted_words_witness :
  ∃ trie,
    BuildTrie.build_trie ["the "%string; "a1b"%string; "to"%string; "The"%string] = Ok trie
    ∧ BuildTrie.terminal_path trie "the"%string.
Proof.
  destruct (build_trie_marks_accepted_words
              ["the "%string; "a1b"%string; "to"%string; "The"%string])
    as (trie & Hr & _ & Hp & _).
  exists trie. split; [exact Hr|]. apply Hp. split.
  - vm_compute. apply list_elem_of_here.
  - repeat split; vm_compute; [discriminate | lia].
Defined.

(** ** The result selector *)

Module SelectorFacts.
Import Solver.

#[global] Instance key_le_total : Total key_le.
Proof.
  intros w1 w2. unfold key_le, tuple_le, sort_key. cbn [fst snd].
  destruct (Z.lt_trichotomy (- Z.of_nat (String.length w1)) (- Z.of_nat (String.length w2)))
    as [?|[?|?]]; [by left; left | | by right; left].
  destruct (total String.le w1 w2); [left | right]; right; split; done || lia.
Qed.

#[global] Instance key_le_trans : Transitive key_le.
Proof.
  intros w1 w2 w3. unfold key_le, tuple_le, sort_key. cbn [fst snd].
  intros [?|[? H12]] [?|[? H23]]; [left; lia..|].
  right. split; [lia|]. by etrans.
Qed.

#[global] Instance key_le_antisymm : AntiSymm (=) key_le.
Proof.
  intros w1 w2. unfold key_le, tuple_le, sort_key. cbn [fst snd].
  intros [?|[? H12]] [?|[? H21]]; try lia. by apply (anti_symm String.le).
Qed.

Lemma sorted_strongly l : StronglySorted key_le (sorted l).
Proof. apply StronglySorted_merge_sort; apply _. Qed.

Lemma sorted_perm l : sorted l ≡ₚ l.
Proof. apply merge_sort_Permutation. Qed.

(** The sorted list does not depend on the order in which the set is
    iterated. *)
Lemma sorted_iteration iter1 iter2 (X : gset string) :
  set_iteration iter1 → set_iteration iter2 →
  sorted (iter1 X) = sorted (iter2 X).
Proof.
  intros H1 H2. apply (StronglySorted_unique key_le); try apply sorted_strongly.
  by rewrite !sorted_perm, (H1 X), (H2 X).
Qed.

Lemma limited_words_nodup iter (X : gset string) :
  set_iteration iter → NoDup (limited_words iter X).
Proof.
  intros H. unfold limited_words, slice_to.
  eapply sublist_NoDup; [|apply sublist_take].
  rewrite sorted_perm, (H X). apply NoDup_elements.
Qed.

Lemma limited_words_elem iter (X : gset string) w :
  set_iteration iter → w ∈ limited_words iter X → w ∈ X.
Proof.
  intros H Hin. unfold limited_words, slice_to in Hin.
  eapply elem_of_sublist in Hin; [|apply sublist_take].
  rewrite sorted_perm, (H X) in Hin. by apply elem_of_elements in Hin.
Qed.

Lemma strongly_sorted_lookup {A} (R : relation A) l i j a b :
  StronglySorted R l → (i < j)%nat → l !! i = Some a → l !! j = Some b → R a b.
Proof.
  intros Hs. revert i j. induction Hs as [|x l Hs IH Hx]; intros i j Hij Ha Hb; [done|].
  destruct j as [|j]; [lia|]. destruct i as [|i]; cbn in *.
  - injection Ha as ->. rewrite Forall_forall in Hx. apply Hx.
    by eapply list_elem_of_lookup_2.
  - apply (IH i j); [lia | done..].
Qed.

End SelectorFacts.

(** ** The search *)

(** Induction on a trie, with the property at hand for every entry of a
    dictionary. *)
Lemma pyobj_nested_ind (P : pyobj → Prop) :
  P PyTrue →
  (∀ items, Forall (fun kv => P kv.2) items → P (PyDict items)) →
  ∀ o, P o.
Proof.
  intros HT HD. fix IH 1. intros [|items]; [exact HT|].
  apply HD. induction items as [|[k v] items IHitems]; constructor.
  - apply IH.
  - exact IHitems.
Qed.

Lemma dict_get_elem k v items : dict_get k items = Some v → (k, v) ∈ items.
Proof.
  induction items as [|[k' v'] items IH]; [done|]. rewrite dict_get_cons.
  destruct (decide (k' = k)) as [->|Hne].
  - intros [= ->]. apply list_elem_of_here.
  - intros H. apply list_elem_of_further. by apply IH.
Qed.

Module SolverFacts.
Import Solver.

Lemma dfs_unfold items row col board word st :
  dfs (PyDict items) row col board word st
  = (letter ←! board_at board row col;
     match dict_get letter items with
     | None => Ok st
     | Some next =>
         dfs_found (fun nrow ncol w st' => dfs next nrow ncol board w st')
                   next row col letter word st
     end).
Proof.
  cbn [dfs]. destruct (board_at board row col); cbn [bind]; [|done..].
  apply dict_case_get.
Qed.

Lemma discoveries_unfold items board pos word seen path :
  discoveries (PyDict items) board pos word seen path
  = match board_at board pos.1 pos.2 with
    | Ok letter =>
        match dict_get letter items with
        | None => []
        | Some next =>
            discover_from (discoveries next board) next pos letter word seen path
        end
    | _ => []
    end.
Proof.
  cbn [discoveries]. destruct (board_at board pos.1 pos.2); [|done..].
  apply dict_case_get.
Qed.

Lemma tracks_refl st : tracks [] st st.
Proof. split; [done|]. cbn. set_solver. Qed.

Lemma tracks_app f1 f2 st1 st2 st3 :
  tracks f1 st1 st2 → tracks f2 st2 st3 → tracks (f1 ++ f2) st1 st3.
Proof.
  intros [Hp1 Hr1] [Hp2 Hr2]. split.
  - by rewrite foldl_app, <- Hp1.
  - rewrite Hr2, Hr1, fmap_app, list_to_set_app_L. set_solver.
Qed.

Lemma restores_refl st : restores [] st st.
Proof. split; [done|]. split; [done|]. apply tracks_refl. Qed.

Lemma tracks_record w st : tracks [(w, current_path st)] st (record w st).
Proof. split; [done|]. cbn. set_solver. Qed.

Lemma leave_last pos P st :
  pos ∈ visited st → current_path st = P ++ [pos] →
  leave pos st
  = Ok {| visited := visited st ∖ {[pos]}; current_path := P;
          results := results st; paths := paths st |}.
Proof.
  intros Hin Hpath. unfold leave. rewrite decide_True by done.
  rewrite Hpath, removelast_last. by destruct P.
Qed.

Section frame.

Variable rec : Z → Z → string → dfs_state → result dfs_state.
Variable drec : Position → string → gset Position → list Position
                → list (string * list Position).
Hypothesis rec_spec : ∀ r c w s s',
  (r, c) ∉ visited s → rec r c w s = Ok s' →
  restores (drec (r, c) w (visited s) (current_path s)) s s'.

Lemma neighbours_loop word V P nbrs : ∀ s s',
  visited s = V → current_path s = P →
  for_each (fun '(nrow, ncol) st =>
              if decide ((nrow, ncol) ∈ visited st) then Ok st
              else rec nrow ncol word st) nbrs s = Ok s' →
  visited s' = V ∧ current_path s' = P
  ∧ tracks (q ← nbrs; if decide (q ∈ V) then [] else drec q word V P) s s'.
Proof using rec_spec.
  induction nbrs as [|[nrow ncol] nbrs IH]; intros s s' HV HP Hrun.
  - injection Hrun as <-. split; [done|]. split; [done|]. apply tracks_refl.
  - cbn [for_each] in Hrun. apply bind_Ok in Hrun as (s1 & Hbody & Hrest).
    rewrite bind_cons. cbv beta. rewrite HV in Hbody.
    destruct (decide ((nrow, ncol) ∈ V)) as [Hin|Hout].
    + rewrite (decide_True (P := (nrow, ncol) ∈ V)) by done.
      injection Hbody as <-. by apply IH.
    + rewrite (decide_False (P := (nrow, ncol) ∈ V)) by done.
      apply rec_spec in Hbody as (HV1 & HP1 & Ht1); [|by rewrite HV].
      rewrite HV, HP in Ht1.
      destruct (IH s1 s' ltac:(congruence) ltac:(congruence) Hrest)
        as (HV' & HP' & Ht').
      split; [done|]. split; [done|]. by eapply tracks_app.
Qed.

Lemma dfs_found_spec next row col letter word st st' :
  (row, col) ∉ visited st →
  dfs_found rec next row col letter word st = Ok st' →
  restores (discover_from drec next (row, col) letter word
              (visited st) (current_path st)) st st'.
Proof using rec_spec.
  intros Hfresh. unfold dfs_found, discover_from.
  destruct (truthy next); cbn [negb].
  2: { intros [= <-]. apply restores_refl. }
  destruct next as [|items]; [done|]. cbn [py_contains bind is_terminal fst snd].
  set (word' := append_char word letter).
  set (st1 := enter (row, col) st).
  set (terminal := dict_mem dollar items && (3 <=? String.length word')%nat).
  set (st2 := if terminal then record word' st1 else st1).
  intros (st3 & Hloop & Hleave)%bind_Ok.
  assert (visited st2 = {[(row, col)]} ∪ visited st
          ∧ current_path st2 = current_path st ++ [(row, col)]
          ∧ tracks (if terminal then [(word', current_path st ++ [(row, col)])] else [])
                   st st2) as (HV2 & HP2 & Ht2).
  { subst st2. destruct terminal.
    - split; [done|]. split; [done|]. apply (tracks_record word' st1).
    - split; [done|]. split; [done|]. apply (tracks_refl st). }
  apply (neighbours_loop word' _ _ _ _ _ HV2 HP2) in Hloop as (HV3 & HP3 & Ht3).
  rewrite (leave_last _ (current_path st)) in Hleave by (done || set_solver).
  injection Hleave as <-.
  split; [cbn [visited]; set_solver|]. split; [done|].
  destruct (tracks_app _ _ _ _ _ Ht2 Ht3) as [Hp Hr]. split; [exact Hp|exact Hr].
Qed.

End frame.

Lemma dfs_spec board : ∀ node row col word st st',
  (row, col) ∉ visited st →
  dfs node row col board word st = Ok st' →
  restores (discoveries node board (row, col) word (visited st) (current_path st)) st st'.
Proof.
  induction node as [|items IH] using pyobj_nested_ind; intros row col word st st' Hfresh.
  - cbn [dfs]. by destruct (board_at board row col).
  - rewrite dfs_unfold, discoveries_unfold. cbn [fst snd].
    destruct (board_at board row col) as [letter| |]; cbn [bind]; [|done..].
    destruct (dict_get letter items) as [next|] eqn:Hget.
    + apply dfs_found_spec; [|done].
      intros r c w s s'. rewrite Forall_forall in IH.
      apply (IH (letter, next)). by apply dict_get_elem.
    + intros [= <-]. apply restores_refl.
Qed.

(** *** Every discovery is a simple path spelling its word *)

Lemma get_neighbors_spec row col q :
  q ∈ get_neighbors row col 4 4 →
  adjacent (row, col) q ∧ 0 ≤ q.1 < 4 ∧ 0 ≤ q.2 < 4.
Proof.
  unfold get_neighbors. intros (dr & Hq & Hdr)%list_elem_of_bind.
  apply list_elem_of_bind in Hq as (dc & Hq & Hdc). cbv zeta in Hq.
  destruct (_ && _) eqn:Hguard in Hq; [|by apply elem_of_nil in Hq].
  apply list_elem_of_singleton in Hq as ->.
  apply andb_prop in Hguard as [[Hnz Hr]%andb_prop Hc].
  apply andb_prop in Hr as [Hr1 Hr2]. apply andb_prop in Hc as [Hc1 Hc2].
  apply Z.leb_le in Hr1, Hc1. apply Z.ltb_lt in Hr2, Hc2.
  assert (dr = -1 ∨ dr = 0 ∨ dr = 1) as Hdr' by set_solver.
  assert (dc = -1 ∨ dc = 0 ∨ dc = 1) as Hdc' by set_solver.
  assert (dr ≠ 0 ∨ dc ≠ 0) as Hmove.
  { apply orb_prop in Hnz as [H|H]; apply negb_true_iff, Z.eqb_neq in H; auto. }
  unfold adjacent. cbn [fst snd]. split; [|lia].
  split; [|lia]. intros [= H1 H2]. lia.
Qed.

Lemma list_ascii_append_char w c :
  list_ascii_of_string (append_char w c) = list_ascii_of_string w ++ [c].
Proof.
  unfold append_char. induction w as [|a w IH]; [done|].
  change (String.append (String a w) (String c EmptyString))
    with (String a (String.append w (String c EmptyString))).
  cbn [list_ascii_of_string]. by rewrite IH.
Qed.

Lemma spells_snoc board path word pos letter :
  spells board path word → 0 ≤ pos.1 → 0 ≤ pos.2 →
  board_at board pos.1 pos.2 = Ok letter →
  spells board (path ++ [pos]) (append_char word letter).
Proof.
  intros Hs H1 H2 Hb. unfold spells. rewrite list_ascii_append_char.
  apply Forall2_app; [exact Hs|]. by repeat constructor.
Qed.

Lemma chain_snoc path pos :
  chain path →
  match last path with Some q => adjacent q pos | None => True end →
  chain (path ++ [pos]).
Proof.
  intros Hc Hlast i a b Ha Hb.
  destruct (decide (S i < length path)%nat) as [Hlt|Hge].
  - rewrite lookup_app_l in Ha by lia. rewrite lookup_app_l in Hb by lia.
    by apply (Hc i).
  - assert (S i = length path) as Hi.
    { apply lookup_lt_Some in Hb. rewrite length_app in Hb. cbn in Hb. lia. }
    rewrite lookup_app_l in Ha by lia.
    rewrite lookup_app_r in Hb by lia.
    replace (S i - length path)%nat with 0%nat in Hb by lia. injection Hb as <-.
    rewrite last_lookup in Hlast. replace (pred (length path)) with i in Hlast by lia.
    by rewrite Ha in Hlast.
Qed.

Lemma discoveries_sound board : ∀ node pos word seen path e,
  spells board path word → NoDup path → (∀ q, q ∈ path → q ∈ seen) → chain path →
  match last path with Some q => adjacent q pos | None => True end →
  pos ∉ seen → 0 ≤ pos.1 → 0 ≤ pos.2 →
  e ∈ discoveries node board pos word seen path →
  simple_path_of board e.1 e.2.
Proof.
  induction node as [|items IH] using pyobj_nested_ind;
    intros pos word seen path e Hsp Hnd Hseen Hch Hlast Hfresh Hp1 Hp2.
  - cbn [discoveries]. destruct (board_at _ _ _); by intros ?%elem_of_nil.
  - rewrite discoveries_unfold.
    destruct (board_at board pos.1 pos.2) as [letter| |] eqn:Hboard;
      [|by intros ?%elem_of_nil..].
    destruct (dict_get letter items) as [next|] eqn:Hget; [|by intros ?%elem_of_nil].
    rewrite Forall_forall in IH.
    pose proof (IH (letter, next) (dict_get_elem _ _ _ Hget)) as IHnext. cbn [snd] in IHnext.
    unfold discover_from. destruct (truthy next); cbn [negb]; [|by intros ?%elem_of_nil].
    assert (simple_path_of board (append_char word letter) (path ++ [pos])) as Hgood.
    { split; [by apply spells_snoc|]. split; [|by apply chain_snoc].
      apply NoDup_app. split; [done|]. split; [|apply NoDup_singleton].
      intros q Hq ->%list_elem_of_singleton. by apply Hfresh, Hseen. }
    intros [Hhere|Hdeep]%elem_of_app.
    + destruct (_ && _) in Hhere; [|by apply elem_of_nil in Hhere].
      by apply list_elem_of_singleton in Hhere as ->.
    + apply list_elem_of_bind in Hdeep as (q & He & Hq).
      destruct (decide (q ∈ {[pos]} ∪ seen)) as [|Hq'] in He; [by apply elem_of_nil in He|].
      destruct Hgood as (Hsp' & Hnd' & Hch').
      destruct pos as [row col]. cbn [fst snd] in *.
      apply get_neighbors_spec in Hq as (Hadj & Hq1 & Hq2).
      apply (IHnext q (append_char word letter) ({[(row, col)]} ∪ seen) (path ++ [(row, col)]));
        try done; try lia.
      * intros q' [Hq0|Hq0%list_elem_of_singleton]%elem_of_app; set_solver.
      * by rewrite last_snoc.
Qed.

(** *** The record of paths is the first discovery of each word *)

Lemma first_path_nil w : first_path w [] = None.
Proof. reflexivity. Qed.

Lemma first_path_cons w e found :
  first_path w (e :: found) = if decide (e.1 = w) then Some e.2 else first_path w found.
Proof. unfold first_path. rewrite filter_cons. by destruct (decide (e.1 = w)). Qed.

Lemma first_path_elem w p found : first_path w found = Some p → (w, p) ∈ found.
Proof.
  induction found as [|[w' p'] found IH]; [done|]. rewrite first_path_cons. cbn [fst snd].
  destruct (decide (w' = w)) as [->|Hne].
  - intros [= ->]. apply list_elem_of_here.
  - intros H. apply list_elem_of_further. by apply IH.
Qed.

Lemma first_path_is_Some w found : w ∈ found.*1 → is_Some (first_path w found).
Proof.
  induction found as [|[w' p'] found IH]; [by intros ?%elem_of_nil|].
  rewrite first_path_cons, fmap_cons. cbn [fst snd].
  destruct (decide (w' = w)); [eauto|].
  intros [?|?]%elem_of_cons; [done|]. by apply IH.
Qed.

Lemma note_all_lookup found : ∀ (m : gmap string (list Position)) w,
  foldl note m found !! w
  = match m !! w with Some p => Some p | None => first_path w found end.
Proof.
  induction found as [|e found IH]; intros m w; cbn [foldl].
  - rewrite first_path_nil. by destruct (m !! w).
  - rewrite IH, first_path_cons. unfold note.
    destruct (decide (e.1 = w)) as [<-|Hne].
    + destruct (m !! e.1) as [p|] eqn:Hm; [by rewrite Hm|]. by rewrite lookup_insert_eq.
    + destruct (m !! e.1) as [p|] eqn:Hm; [done|]. by rewrite lookup_insert_ne.
Qed.

(** *** The double loop of [find_words] *)

Lemma for_each_tracks {A} (body : A → dfs_state → result dfs_state)
    (found_of : A → list (string * list Position)) xs :
  (∀ x s s', x ∈ xs → body x s = Ok s' → tracks (found_of x) s s') →
  ∀ s s', for_each body xs s = Ok s' → tracks (x ← xs; found_of x) s s'.
Proof.
  induction xs as [|x xs IH]; intros Hbody s s'.
  - intros [= <-]. apply tracks_refl.
  - cbn [for_each]. intros (s1 & H1 & H2)%bind_Ok. rewrite bind_cons.
    eapply tracks_app.
    + apply (Hbody x s s1); [apply list_elem_of_here | done].
    + apply IH; [|done]. intros x' s0 s0' Hin. apply Hbody. by apply list_elem_of_further.
Qed.

Lemma py_index_lookup {A} (l : list A) i a :
  0 ≤ i → py_index l i = Ok a → l !! Z.to_nat i = Some a.
Proof.
  intros Hi. unfold py_index.
  destruct (Z.ltb_spec i 0); [lia|]. cbv zeta.
  destruct (_ && _); [|done]. destruct (l !! Z.to_nat i); [|done]. by intros [= ->].
Qed.

Lemma board_at_elem board row col ch :
  0 ≤ row → 0 ≤ col → board_at board row col = Ok ch → ch ∈ mjoin board.
Proof.
  intros Hr Hc. unfold board_at. intros (line & Hline & Hch)%bind_Ok.
  apply py_index_lookup in Hline, Hch; [|done..].
  apply list_elem_of_join. exists line.
  split; by eapply list_elem_of_lookup_2.
Qed.

Lemma dict_get_filter (letters : gset ascii) k (items : list (ascii * pyobj)) :
  k ∈ letters →
  dict_get k (filter (fun kv => kv.1 ∈ letters) items) = dict_get k items.
Proof.
  intros Hk. induction items as [|[k' v'] items IH]; [done|].
  rewrite filter_cons. cbn [fst]. rewrite dict_get_cons.
  destruct (decide (k' ∈ letters)) as [Hk'|Hk'].
  - rewrite dict_get_cons. by destruct (decide (k' = k)).
  - rewrite decide_False; [done|]. by intros ->.
Qed.

(** Starting from the filtered root is starting from the root. *)
Lemma discoveries_valid_starts board items pos word seen path :
  0 ≤ pos.1 → 0 ≤ pos.2 →
  discoveries
    (PyDict (filter (fun kv => kv.1 ∈ (list_to_set (mjoin board) : gset ascii)) items))
    board pos word seen path
  = discoveries (PyDict items) board pos word seen path.
Proof.
  intros H1 H2. rewrite !discoveries_unfold.
  destruct (board_at board pos.1 pos.2) as [letter| |] eqn:Hb; [|done..].
  rewrite dict_get_filter; [done|].
  apply elem_of_list_to_set. by apply (board_at_elem board pos.1 pos.2).
Qed.

Lemma range_elem (n : nat) i : i ∈ range n → 0 ≤ i.
Proof. unfold range. intros (k & -> & _)%list_elem_of_fmap. lia. Qed.

Lemma search_tracks board trie st :
  search board trie = Ok st →
  paths st = foldl note ∅ (all_discoveries board trie)
  ∧ results st = list_to_set (all_discoveries board trie).*1.
Proof.
  unfold search. destruct trie as [|items]; [done|]. cbn [py_items bind].
  intros Hrun.
  apply (for_each_tracks _
           (fun row => col ← range (length (default [] (board !! 0%nat)));
                       discoveries (PyDict items) board (row, col) EmptyString ∅ []))
    in Hrun.
  - destruct Hrun as [Hp Hr]. cbn [paths results] in Hp, Hr.
    split; [exact Hp|]. rewrite Hr. set_solver.
  - intros row s s' Hrow (first_row & Hfirst & Hcols)%bind_Ok.
    apply py_index_lookup in Hfirst; [|done]. change (Z.to_nat 0) with 0%nat in Hfirst.
    rewrite Hfirst. cbn [default].
    revert Hcols. apply for_each_tracks.
    intros col s0 s0' Hcol Hdfs.
    apply dfs_spec in Hdfs as (_ & _ & Hp & Hr); [|set_solver].
    cbn [fresh visited current_path paths results] in Hp, Hr.
    apply range_elem in Hrow, Hcol.
    rewrite discoveries_valid_starts in Hp, Hr by done.
    split; [exact Hp|exact Hr].
Qed.

Lemma search_paths board trie st w :
  search board trie = Ok st →
  paths st !! w = first_path w (all_discoveries board trie).
Proof.
  intros (Hp & _)%search_tracks. by rewrite Hp, note_all_lookup, lookup_empty.
Qed.

Lemma all_discoveries_sound board trie e :
  e ∈ all_discoveries board trie → simple_path_of board e.1 e.2.
Proof.
  unfold all_discoveries. intros (row & He & Hrow)%list_elem_of_bind.
  apply list_elem_of_bind in He as (col & He & Hcol).
  apply range_elem in Hrow, Hcol.
  revert He. apply discoveries_sound; try done; try constructor.
  by intros q ?%elem_of_nil.
Qed.

(** *** The list returned *)

Lemma comprehension_paths (paths : gmap string (list Position)) words :
  (∀ w, w ∈ words → is_Some (paths !! w)) →
  ∃ out,
    comprehension (fun word => p ←! paths_getitem paths word; Ok (word, p)) words = Ok out
    ∧ out.*1 = words
    ∧ ∀ w p, (w, p) ∈ out → paths !! w = Some p.
Proof.
  induction words as [|w words IH]; intros Hall.
  - exists []. split; [done|]. split; [done|]. by intros w p ?%elem_of_nil.
  - destruct (Hall w) as [p Hp]; [apply list_elem_of_here|].
    destruct IH as (out & Hr & Hw & Hl).
    { intros w' Hin. apply Hall. by apply list_elem_of_further. }
    exists ((w, p) :: out). cbn [comprehension]. unfold paths_getitem at 1.
    rewrite Hp. cbn [bind]. rewrite Hr. cbn [bind].
    split; [done|]. split; [by rewrite fmap_cons, Hw|].
    intros w' p' [[= -> ->]|Hin]%elem_of_cons; [done|]. by apply Hl.
Qed.

(** Once the search has returned, so does [find_words]: every word it
    ranks has a recorded path, the path of its first discovery. *)
Lemma find_words_spec iter board trie st :
  set_iteration iter → search board trie = Ok st →
  ∃ out,
    find_words iter board trie = Ok out
    ∧ out.*1 = limited_words iter (results st)
    ∧ ∀ w p, (w, p) ∈ out → first_path w (all_discoveries board trie) = Some p.
Proof.
  intros Hiter Hsearch. unfold find_words. rewrite Hsearch. cbn [bind]. cbv zeta.
  destruct (comprehension_paths (paths st) (limited_words iter (results st)))
    as (out & Hr & Hw & Hl).
  { intros w Hin%SelectorFacts.limited_words_elem; [|done].
    rewrite (search_paths board trie) by done.
    apply first_path_is_Some.
    apply search_tracks in Hsearch as [_ Hres]. rewrite Hres in Hin.
    by apply elem_of_list_to_set in Hin. }
  exists out. split; [done|]. split; [done|].
  intros w p Hin. rewrite <- (search_paths board trie st) by done. by apply Hl.
Qed.

Lemma find_words_inv iter board trie out :
  set_iteration iter → find_words iter board trie = Ok out →
  ∃ st, search board trie = Ok st
        ∧ out.*1 = limited_words iter (results st)
        ∧ ∀ w p, (w, p) ∈ out → first_path w (all_discoveries board trie) = Some p.
Proof.
  intros Hiter Hrun. pose proof Hrun as Hrun'.
  unfold find_words in Hrun'. apply bind_Ok in Hrun' as (st & Hsearch & _).
  destruct (find_words_spec iter board trie st Hiter Hsearch) as (out' & Hr & Hw & Hl).
  rewrite Hrun in Hr. injection Hr as <-. by exists st.
Qed.

End SolverFacts.

(** ** The search returns *)

Module SearchReturns.
Import Solver.

Lemma py_index_in_range {A} (l : list A) i :
  0 ≤ i < Z.of_nat (length l) → ∃ a, py_index l i = Ok a ∧ a ∈ l.
Proof.
  intros Hi. unfold py_index. destruct (Z.ltb_spec i 0); [lia|]. cbv zeta.
  destruct (Z.leb_spec 0 i); [|lia].
  destruct (Z.ltb_spec i (Z.of_nat (length l))); [|lia]. cbn [andb].
  destruct (l !! Z.to_nat i) as [a|] eqn:Hl.
  - exists a. split; [done|]. by eapply list_elem_of_lookup_2.
  - apply lookup_ge_None in Hl. lia.
Qed.

Lemma board_at_4x4 board row col :
  board_4x4 board → 0 ≤ row < 4 → 0 ≤ col < 4 →
  ∃ letter, board_at board row col = Ok letter ∧ letter ≠ dollar.
Proof.
  intros [Hlen Hrows] Hr Hc. unfold board_at.
  destruct (py_index_in_range board row) as (line & -> & Hline); [lia|].
  rewrite Forall_forall in Hrows. destruct (Hrows line Hline) as [Hl Hd].
  destruct (py_index_in_range line col) as (letter & Hletter & Hin); [lia|].
  exists letter. cbn [bind]. split; [done|]. by intros ->.
Qed.

Section returns.

Variable board : list (list ascii).
Hypothesis board_ok : board_4x4 board.

Lemma neighbours_loop_returns (rec : Z → Z → string → dfs_state → result dfs_state) word :
  (∀ r c w s, 0 ≤ r < 4 → 0 ≤ c < 4 → (r, c) ∉ visited s →
     ∃ s', rec r c w s = Ok s' ∧ visited s' = visited s
           ∧ current_path s' = current_path s) →
  ∀ nbrs s, Forall (fun q : Position => 0 ≤ q.1 < 4 ∧ 0 ≤ q.2 < 4) nbrs →
    ∃ s', for_each (fun '(nrow, ncol) st =>
                      if decide ((nrow, ncol) ∈ visited st) then Ok st
                      else rec nrow ncol word st) nbrs s = Ok s'
          ∧ visited s' = visited s ∧ current_path s' = current_path s.
Proof.
  intros Hrec. induction nbrs as [|[nrow ncol] nbrs IH]; intros s Hall.
  - by exists s.
  - apply Forall_cons in Hall as [[Hr Hc] Hall]. cbn [fst snd] in Hr, Hc.
    cbn [for_each]. destruct (decide ((nrow, ncol) ∈ visited s)) as [Hin|Hout].
    + cbn [bind]. by apply IH.
    + destruct (Hrec nrow ncol word s Hr Hc Hout) as (s1 & -> & HV & HP).
      cbn [bind]. destruct (IH s1 Hall) as (s' & Hrun & HV' & HP').
      exists s'. split; [done|]. split; congruence.
Qed.

Lemma dfs_returns : ∀ node row col word st,
  BuildTrie.trie_wf node = true →
  0 ≤ row < 4 → 0 ≤ col < 4 → (row, col) ∉ visited st →
  ∃ st', dfs node row col board word st = Ok st'
         ∧ visited st' = visited st ∧ current_path st' = current_path st.
Proof using board_ok.
  induction node as [|items IH] using pyobj_nested_ind;
    intros row col word st Hwf Hr Hc Hfresh; [done|].
  rewrite SolverFacts.dfs_unfold.
  destruct (board_at_4x4 board row col board_ok Hr Hc) as (letter & -> & Hletter).
  cbn [bind]. destruct (dict_get letter items) as [next|] eqn:Hget; [|by exists st].
  pose proof (BuildTrieFacts.wf_get _ _ _ Hwf Hget) as Hnext.
  rewrite decide_False in Hnext by done.
  rewrite Forall_forall in IH.
  pose proof (IH (letter, next) (dict_get_elem _ _ _ Hget)) as IHnext. cbn [snd] in IHnext.
  unfold dfs_found. destruct (truthy next); cbn [negb]; [|by exists st].
  destruct next as [|items']; [done|]. cbn [py_contains bind].
  set (word' := append_char word letter).
  set (st2 := if dict_mem dollar items' && (3 <=? String.length word')%nat
              then record word' (enter (row, col) st) else enter (row, col) st).
  assert (visited st2 = {[(row, col)]} ∪ visited st
          ∧ current_path st2 = current_path st ++ [(row, col)]) as [HV2 HP2].
  { subst st2. by destruct (_ && _). }
  destruct (neighbours_loop_returns
              (fun nrow ncol w st' => dfs (PyDict items') nrow ncol board w st') word'
              (fun r c w s Hr' Hc' Hf => IHnext r c w s Hnext Hr' Hc' Hf)
              (get_neighbors row col 4 4) st2) as (st3 & -> & HV3 & HP3).
  { apply Forall_forall. intros q Hq. by apply SolverFacts.get_neighbors_spec in Hq as (_ & ? & ?). }
  cbn [bind].
  assert ((row, col) ∈ visited st3) as Hin3 by (rewrite HV3, HV2; set_solver).
  assert (current_path st3 = current_path st ++ [(row, col)]) as Hpath3
    by (by rewrite HP3, HP2).
  rewrite (SolverFacts.leave_last _ (current_path st) st3 Hin3 Hpath3).
  eexists. split; [reflexivity|]. cbn [visited current_path].
  split; [rewrite HV3, HV2; set_solver|done].
Qed.

End returns.

Lemma trie_wf_filter (letters : gset ascii) items :
  BuildTrie.trie_wf (PyDict items) = true →
  BuildTrie.trie_wf (PyDict (filter (fun kv => kv.1 ∈ letters) items)) = true.
Proof.
  rewrite !BuildTrieFacts.trie_wf_dict. induction items as [|kv items IH]; [done|].
  cbn [forallb]. intros [H1 H2]%andb_prop. rewrite filter_cons.
  destruct (decide (kv.1 ∈ letters)); [|by apply IH].
  cbn [forallb]. by rewrite H1, IH.
Qed.

Lemma for_each_returns {A S} (body : A → S → result S) xs :
  (∀ x s, x ∈ xs → ∃ s', body x s = Ok s') → ∀ s, ∃ s', for_each body xs s = Ok s'.
Proof.
  induction xs as [|x xs IH]; intros Hbody s; [by exists s|].
  cbn [for_each]. destruct (Hbody x s) as (s1 & ->); [apply list_elem_of_here|].
  cbn [bind]. apply IH. intros x' s0 Hin. apply Hbody. by apply list_elem_of_further.
Qed.

Lemma range_bounds (n : nat) i : i ∈ range n → 0 ≤ i < Z.of_nat n.
Proof.
  unfold range. intros (k & -> & Hk)%list_elem_of_fmap.
  apply elem_of_seq in Hk. lia.
Qed.

(** On a 4x4 board without the mark and with a trie of the shape
    [build_trie] makes, [find_words] returns a list: no index is out of
    range, no node is missing its dictionary, and every ranked word has a
    recorded path. *)
Lemma find_words_returns set_iter board trie :
  set_iteration set_iter → board_4x4 board → BuildTrie.trie_wf trie = true →
  ∃ out, find_words set_iter board trie = Ok out.
Proof.
  intros Hiter Hboard Hwf.
  assert (∃ st, search board trie = Ok st) as [st Hsearch].
  { unfold search. destruct trie as [|items]; [done|]. cbn [py_items bind].
    apply for_each_returns. intros row s Hrow%range_bounds.
    pose proof Hboard as Hb4. destruct Hboard as [Hlen Hrows].
    destruct board as [|first_row board']; [done|].
    rewrite py_index_head. cbn [bind].
    apply Forall_cons in Hrows as [[Hfirst _] Hrest].
    apply for_each_returns. intros col s0 Hcol%range_bounds.
    destruct (dfs_returns (first_row :: board') Hb4
                (PyDict (filter (fun kv => kv.1 ∈ (list_to_set (mjoin (first_row :: board'))
                                                    : gset ascii)) items))
                row col EmptyString (fresh s0)) as (s' & Hrun & _).
    - by apply trie_wf_filter.
    - lia.
    - lia.
    - set_solver.
    - by exists s'. }
  destruct (SolverFacts.find_words_spec set_iter board trie st Hiter Hsearch) as (out & Hr & _).
  by exists out.
Qed.

End SearchReturns.

(** ** The claims about the solver *)

Lemma elements_iteration : Solver.set_iteration elements.
Proof. intros X. reflexivity. Defined.

Lemma demo_run : Solver.find_words elements demo_board demo_trie = Ok demo_words.
Proof. vm_compute. reflexivity. Defined.

(** C1.  Every entry of the list [find_words] returns is a word with a
    path such that the board letters along the path, in order, are exactly
    the characters of the word (each cell lying on the board), no cell
    occurs twice in the path, and each cell of the path is one of the eight
    neighbours of the cell before it. *)
Theorem found_words_follow_simple_paths
    (set_iter : gset string → list string) (board : list (list ascii)) (trie : pyobj)
    (out : list (string * list Position)) :
  Solver.set_iteration set_iter →
  Solver.find_words set_iter board trie = Ok out →
  ∀ word path, (word, path) ∈ out →
    spells board path word ∧ NoDup path ∧ chain path.
Proof.
  intros Hiter Hrun word path Hin.
  destruct (SolverFacts.find_words_inv set_iter board trie out Hiter Hrun)
    as (st & _ & _ & Hfirst).
  apply Hfirst, SolverFacts.first_path_elem in Hin.
  exact (SolverFacts.all_discoveries_sound board trie (word, path) Hin).
Qed.

Lemma found_words_follow_simple_paths_witness :
  Solver.set_iteration elements
  ∧ Solver.find_words elements demo_board demo_trie = Ok demo_words
  ∧ ∀ word path, (word, path) ∈ demo_words →
      spells demo_board path word ∧ NoDup path ∧ chain path.
Proof.
  split; [exact elements_iteration|]. split; [exact demo_run|].
  exact (found_words_follow_simple_paths elements demo_board demo_trie demo_words
           elements_iteration demo_run).
Defined.

(** C4.  The selector lists every word of the set once, a longer word
    before a shorter one and words of the same length in ascending
    lexicographic order, and keeps the first 500 entries of that list; the
    words of the list [find_words] returns are the selector's output. *)
Theorem selector_ranks_and_limits (set_iter : gset string → list string)
    (found : gset string) :
  Solver.set_iteration set_iter →
  let ranked := Solver.sorted (set_iter found) in
  let limited := Solver.limited_words set_iter found in
  ranked ≡ₚ elements found
  ∧ limited = take 500 ranked
  ∧ (length limited ≤ 500)%nat
  ∧ (∀ (i j : nat) a b, (i < j)%nat → ranked !! i = Some a → ranked !! j = Some b →
       (String.length b < String.length a)%nat
       ∨ (String.length a = String.length b ∧ String.le a b ∧ a ≠ b))
  ∧ (∀ (i j : nat) a b, (i < j)%nat → limited !! i = Some a → limited !! j = Some b →
       (String.length b < String.length a)%nat
       ∨ (String.length a = String.length b ∧ String.le a b ∧ a ≠ b))
  ∧ (∀ board trie out, Solver.find_words set_iter board trie = Ok out →
       ∃ st, Solver.search board trie = Ok st
             ∧ out.*1 = Solver.limited_words set_iter (Solver.results st)).
Proof.
  intros Hiter ranked limited.
  assert (ranked ≡ₚ elements found) as Hperm.
  { subst ranked. by rewrite SelectorFacts.sorted_perm, (Hiter found). }
  assert (∀ (i j : nat) a b, (i < j)%nat → ranked !! i = Some a → ranked !! j = Some b →
            (String.length b < String.length a)%nat
            ∨ (String.length a = String.length b ∧ String.le a b ∧ a ≠ b)) as Horder.
  { intros i j a b Hij Ha Hb.
    pose proof (SelectorFacts.strongly_sorted_lookup Solver.key_le ranked i j a b
                  (SelectorFacts.sorted_strongly _) Hij Ha Hb) as Hle.
    assert (a ≠ b) as Hne.
    { intros ->. assert (NoDup ranked) as Hnd by (rewrite Hperm; apply NoDup_elements).
      pose proof (NoDup_lookup _ _ _ _ Hnd Ha Hb). lia. }
    unfold Solver.key_le, Solver.tuple_le, Solver.sort_key in Hle. cbn [fst snd] in Hle.
    destruct Hle as [Hlt|[Heq Hle]]; [left; lia|]. right. split; [lia|]. done. }
  split; [exact Hperm|]. split; [reflexivity|].
  split.
  { subst limited. unfold Solver.limited_words, Solver.slice_to, Solver.SOLVER_NUMWORDS_LIMIT.
    rewrite length_take. lia. }
  split; [exact Horder|]. split.
  - intros i j a b Hij Ha Hb. subst limited.
    unfold Solver.limited_words, Solver.slice_to in Ha, Hb. fold ranked in Ha, Hb.
    apply lookup_take_Some in Ha as [Ha _]. apply lookup_take_Some in Hb as [Hb _].
    by apply (Horder i j).
  - intros board trie out Hrun.
    destruct (SolverFacts.find_words_inv set_iter board trie out Hiter Hrun)
      as (st & Hs & Hw & _).
    by exists st.
Qed.

Lemma selector_ranks_and_limits_witness :
  Solver.set_iteration elements
  ∧ Solver.limited_words elements
      (list_to_set ["hen"%string; "the"%string; "then"%string; "eat"%string])
    = take 500 (Solver.sorted (elements
        (list_to_set ["hen"%string; "the"%string; "then"%string; "eat"%string]
           : gset string))).
Proof.
  split; [exact elements_iteration|].
  exact (proj1 (proj2 (selector_ranks_and_limits elements
                         (list_to_set ["hen"%string; "the"%string; "then"%string; "eat"%string])
                         elements_iteration))).
Defined.

(** C5.  The list returned has one entry per word text, and the path of an
    entry is the path of the earliest discovery of its word in the
    depth-first order of the search.  A word that has a path keeps it:
    neither recording the word again nor any later call of [dfs] changes
    it. *)
Theorem first_discovered_path_is_kept
    (set_iter : gset string → list string) (board : list (list ascii)) (trie : pyobj)
    (out : list (string * list Position)) :
  Solver.set_iteration set_iter →
  Solver.find_words set_iter board trie = Ok out →
  NoDup out.*1
  ∧ (∀ word path, (word, path) ∈ out →
       Solver.first_path word (Solver.all_discoveries board trie) = Some path)
  ∧ (∀ st word path again,
       Solver.paths st !! word = Some path →
       Solver.paths (Solver.record again st) !! word = Some path)
  ∧ (∀ node row col current_word st st' word path,
       (row, col) ∉ Solver.visited st →
       Solver.dfs node row col board current_word st = Ok st' →
       Solver.paths st !! word = Some path →
       Solver.paths st' !! word = Some path).
Proof.
  intros Hiter Hrun.
  destruct (SolverFacts.find_words_inv set_iter board trie out Hiter Hrun)
    as (st & _ & Hwords & Hfirst).
  split; [|split; [|split]].
  - rewrite Hwords. by apply SelectorFacts.limited_words_nodup.
  - exact Hfirst.
  - intros st0 word path again Hhas. cbn [Solver.record Solver.paths].
    destruct (Solver.paths st0 !! again) eqn:Hagain; [done|].
    rewrite lookup_insert_ne; [done|]. intros ->. congruence.
  - intros node row col current_word st0 st' word path Hfresh Hdfs Hhas.
    apply SolverFacts.dfs_spec in Hdfs as (_ & _ & Hp & _); [|done].
    by rewrite Hp, SolverFacts.note_all_lookup, Hhas.
Qed.

Lemma first_discovered_path_is_kept_witness :
  Solver.set_iteration elements
  ∧ Solver.find_words elements demo_board demo_trie = Ok demo_words
  ∧ NoDup demo_words.*1
  ∧ ∀ word path, (word, path) ∈ demo_words →
      Solver.first_path word (Solver.all_discoveries demo_board demo_trie) = Some path.
Proof.
  split; [exact elements_iteration|]. split; [exact demo_run|].
  pose proof (first_discovered_path_is_kept elements demo_board demo_trie demo_words
                elements_iteration demo_run) as H.
  split; [exact (proj1 H) | exact (proj1 (proj2 H))].
Defined.

(** C10.  The list [find_words] returns, paths included, does not depend
    on the order in which the set of words is iterated: two invocations on
    the same board and trie return the same list, whatever order each of the
    two runs iterates its set in. *)
Theorem find_words_is_deterministic
    (iter1 iter2 : gset string → list string) (board : list (list ascii)) (trie : pyobj) :
  Solver.set_iteration iter1 → Solver.set_iteration iter2 →
  Solver.find_words iter1 board trie = Solver.find_words iter2 board trie.
Proof.
  intros H1 H2. unfold Solver.find_words.
  destruct (Solver.search board trie) as [st| |]; cbn [bind]; [|done..].
  unfold Solver.limited_words.
  by rewrite (SelectorFacts.sorted_iteration iter1 iter2 (Solver.results st) H1 H2).
Qed.

Lemma reverse_iteration : Solver.set_iteration (fun X => reverse (elements X)).
Proof. intros X. apply reverse_Permutation. Defined.

Lemma find_words_is_deterministic_witness :
  Solver.set_iteration elements
  ∧ Solver.set_iteration (fun X => reverse (elements X))
  ∧ Solver.find_words elements demo_board demo_trie
    = Solver.find_words (fun X => reverse (elements X)) demo_board demo_trie.
Proof.
  split; [exact elements_iteration|]. split; [exact reverse_iteration|].
  exact (find_words_is_deterministic elements (fun X => reverse (elements X))
           demo_board demo_trie elements_iteration reverse_iteration).
Defined.

(** * Further properties *)

(** ** The neighbourhood of a cell *)

Lemma get_neighbors_iff (row col num_rows num_cols : Z) (q : Position) :
  q ∈ Solver.get_neighbors row col num_rows num_cols
  ↔ adjacent (row, col) q ∧ 0 ≤ q.1 < num_rows ∧ 0 ≤ q.2 < num_cols.
Proof.
  unfold Solver.get_neighbors, adjacent. cbn [fst snd]. split.
  - intros (dr & Hq & Hdr)%list_elem_of_bind.
    apply list_elem_of_bind in Hq as (dc & Hq & Hdc). cbv zeta in Hq.
    destruct (_ && _) eqn:Hguard in Hq; [|by apply elem_of_nil in Hq].
    apply list_elem_of_singleton in Hq as ->.
    apply andb_prop in Hguard as [[Hnz Hr]%andb_prop Hc].
    apply andb_prop in Hr as [Hr1 Hr2]. apply andb_prop in Hc as [Hc1 Hc2].
    apply Z.leb_le in Hr1, Hc1. apply Z.ltb_lt in Hr2, Hc2.
    assert (dr = -1 ∨ dr = 0 ∨ dr = 1) as Hdr' by set_solver.
    assert (dc = -1 ∨ dc = 0 ∨ dc = 1) as Hdc' by set_solver.
    assert (dr ≠ 0 ∨ dc ≠ 0) as Hmove.
    { apply orb_prop in Hnz as [H|H]; apply negb_true_iff, Z.eqb_neq in H; auto. }
    cbn [fst snd]. split; [|lia]. split; [|lia]. intros [= H1 H2]. lia.
  - destruct q as [r c]. cbn [fst snd]. intros ((Hne & Hr & Hc) & Hrow & Hcol).
    apply list_elem_of_bind. exists (r - row). split.
    2: { assert (r - row = -1 ∨ r - row = 0 ∨ r - row = 1) as [->|[->| ->]] by lia; set_solver. }
    apply list_elem_of_bind. exists (c - col). split.
    2: { assert (c - col = -1 ∨ c - col = 0 ∨ c - col = 1) as [->|[->| ->]] by lia; set_solver. }
    cbv zeta. replace (row + (r - row)) with r by lia. replace (col + (c - col)) with c by lia.
    assert (negb (r - row =? 0) || negb (c - col =? 0) = true) as ->.
    { destruct (Z.eqb_spec (r - row) 0), (Z.eqb_spec (c - col) 0); try done.
      exfalso. apply Hne. f_equal; lia. }
    destruct (Z.leb_spec 0 r); [|lia]. destruct (Z.ltb_spec r num_rows); [|lia].
    destruct (Z.leb_spec 0 c); [|lia]. destruct (Z.ltb_spec c num_cols); [|lia].
    apply list_elem_of_here.
Qed.

(** X2.  Being a neighbour is mutual between cells of the grid. *)
Theorem get_neighbors_mutual (p q : Position) (num_rows num_cols : Z) :
  0 ≤ p.1 < num_rows → 0 ≤ p.2 < num_cols →
  q ∈ Solver.get_neighbors p.1 p.2 num_rows num_cols →
  p ∈ Solver.get_neighbors q.1 q.2 num_rows num_cols.
Proof.
  intros Hp1 Hp2. rewrite !get_neighbors_iff. destruct p as [pr pc], q as [qr qc].
  unfold adjacent. cbn [fst snd] in *. intros ((Hne & H1 & H2) & Hq1 & Hq2).
  split; [|done]. split; [congruence|]. lia.
Qed.

Lemma get_neighbors_mutual_witness :
  0 ≤ (1, 2).1 < 4 ∧ 0 ≤ (1, 2).2 < 4
  ∧ ((0, 3) : Position) ∈ Solver.get_neighbors 1 2 4 4
  ∧ ((1, 2) : Position) ∈ Solver.get_neighbors 0 3 4 4.
Proof.
  assert (0 ≤ ((1, 2) : Position).1 < 4) as H1 by (cbn; lia).
  assert (0 ≤ ((1, 2) : Position).2 < 4) as H2 by (cbn; lia).
  assert (((0, 3) : Position) ∈ Solver.get_neighbors 1 2 4 4) as H3
    by (vm_compute; set_solver).
  split; [exact H1|]. split; [exact H2|]. split; [exact H3|].
  exact (get_neighbors_mutual (1, 2) (0, 3) 4 4 H1 H2 H3).
Defined.

Lemma get_neighbors_once (row col num_rows num_cols : Z) :
  NoDup (Solver.get_neighbors row col num_rows num_cols).
Proof.
  unfold Solver.get_neighbors.
  assert (NoDup [-1; 0; 1]) as Hoffsets.
  { repeat (apply NoDup_cons; split; [set_solver|]). apply NoDup_nil_2. }
  apply NoDup_bind; [| |exact Hoffsets].
  - intros dr1 dr2 q _ _ (dc1 & Hq1 & _)%list_elem_of_bind (dc2 & Hq2 & _)%list_elem_of_bind.
    cbv zeta in Hq1, Hq2.
    destruct (_ && _) in Hq1; [|by apply elem_of_nil in Hq1].
    destruct (_ && _) in Hq2; [|by apply elem_of_nil in Hq2].
    apply list_elem_of_singleton in Hq1, Hq2. subst q. injection Hq2 as H1 H2. lia.
  - intros dr _. apply NoDup_bind; [| |exact Hoffsets].
    + intros dc1 dc2 q _ _ Hq1 Hq2. cbv zeta in Hq1, Hq2.
      destruct (_ && _) in Hq1; [|by apply elem_of_nil in Hq1].
      destruct (_ && _) in Hq2; [|by apply elem_of_nil in Hq2].
      apply list_elem_of_singleton in Hq1, Hq2. subst q. injection Hq2 as H2. lia.
    + intros dc _. cbv zeta. destruct (_ && _); [apply NoDup_singleton | apply NoDup_nil_2].
Qed.

(** X1.  [get_neighbors] lists exactly the cells of the grid that differ from
    the cell by at most one row and one column, the cell itself left out, and
    it lists each of them once. *)
Theorem get_neighbors_exactly (row col num_rows num_cols : Z) :
  (∀ q : Position,
     q ∈ Solver.get_neighbors row col num_rows num_cols
     ↔ adjacent (row, col) q ∧ 0 ≤ q.1 < num_rows ∧ 0 ≤ q.2 < num_cols)
  ∧ NoDup (Solver.get_neighbors row col num_rows num_cols).
Proof.
  split; [intros q; apply get_neighbors_iff | apply get_neighbors_once].
Qed.

(** ** What the search finds *)

Module FoundFacts.
Import Solver BuildTrie.

Lemma append_cons a w s : String.append (String a w) s = String a (String.append w s).
Proof. reflexivity. Qed.

Lemma append_char_app w c s :
  String.append (append_char w c) s = String.append w (String c s).
Proof.
  unfold append_char. induction w as [|a w IH]; [done|].
  by rewrite !append_cons, IH.
Qed.

Lemma is_terminal_path next :
  is_terminal next = true ↔ terminal_path next EmptyString.
Proof.
  destruct next as [|items]; cbn [is_terminal].
  - split; [done|]. by intros ?%BuildTrieFacts.terminal_path_true.
  - by rewrite BuildTrieFacts.terminal_path_nil.
Qed.

(** Every discovery below [node] extends the word so far by a marked path
    of [node], and is three characters long at least. *)
Lemma discoveries_in_trie board : ∀ node pos word seen path e,
  e ∈ discoveries node board pos word seen path →
  ∃ suffix, e.1 = String.append word suffix ∧ terminal_path node suffix
            ∧ (3 ≤ String.length e.1)%nat.
Proof.
  induction node as [|items IH] using pyobj_nested_ind; intros pos word seen path e.
  - cbn [discoveries]. destruct (board_at _ _ _); by intros ?%elem_of_nil.
  - rewrite SolverFacts.discoveries_unfold.
    destruct (board_at board pos.1 pos.2) as [letter| |]; [|by intros ?%elem_of_nil..].
    destruct (dict_get letter items) as [next|] eqn:Hget; [|by intros ?%elem_of_nil].
    rewrite Forall_forall in IH.
    pose proof (IH (letter, next) (dict_get_elem _ _ _ Hget)) as IHnext. cbn [snd] in IHnext.
    unfold discover_from. destruct (truthy next); cbn [negb]; [|by intros ?%elem_of_nil].
    intros [Hhere|Hdeep]%elem_of_app.
    + destruct (is_terminal next && _) eqn:Hterm in Hhere; [|by apply elem_of_nil in Hhere].
      apply list_elem_of_singleton in Hhere as ->. cbn [fst].
      apply andb_prop in Hterm as [Hterm Hlen]. apply Nat.leb_le in Hlen.
      exists (String letter EmptyString). split; [done|]. split; [|done].
      apply BuildTrieFacts.terminal_path_cons. exists next. split; [done|].
      by apply is_terminal_path.
    + apply list_elem_of_bind in Hdeep as (q & He & _).
      destruct (decide _) in He; [by apply elem_of_nil in He|].
      apply IHnext in He as (suffix & Heq & Hterm & Hlen).
      exists (String letter suffix). split; [by rewrite Heq, append_char_app|].
      split; [|done]. apply BuildTrieFacts.terminal_path_cons. by exists next.
Qed.

Lemma all_discoveries_in_trie board trie e :
  e ∈ all_discoveries board trie →
  terminal_path trie e.1 ∧ (3 ≤ String.length e.1)%nat.
Proof.
  unfold all_discoveries. intros (row & He & _)%list_elem_of_bind.
  apply list_elem_of_bind in He as (col & He & _).
  apply discoveries_in_trie in He as (suffix & Heq & Hterm & Hlen).
  cbn in Heq. by rewrite Heq in *.
Qed.

Lemma terminal_truthy node suffix : terminal_path node suffix → truthy node = true.
Proof.
  destruct node as [|[|kv items]]; [done| |done].
  by intros ?%BuildTrieFacts.terminal_path_empty_dict.
Qed.

Lemma chain_cons p q cells :
  chain (p :: q :: cells) → adjacent p q ∧ chain (q :: cells).
Proof.
  intros Hc. split.
  - by apply (Hc 0%nat).
  - intros i a b Ha Hb. by apply (Hc (S i)).
Qed.

(** The search misses nothing: from [pos], with [word] read so far, every
    simple path of neighbouring cells of the 4x4 grid that avoids the cells
    seen and spells a marked path of [node] is among the discoveries. *)
Lemma discoveries_complete board : ∀ cells node pos word seen path suffix,
  spells board (pos :: cells) suffix →
  NoDup (pos :: cells) → chain (pos :: cells) →
  (∀ q, q ∈ pos :: cells → q ∉ seen) →
  Forall (fun q : Position => 0 ≤ q.1 < 4 ∧ 0 ≤ q.2 < 4) cells →
  terminal_path node suffix →
  (3 ≤ String.length (String.append word suffix))%nat →
  (String.append word suffix, path ++ pos :: cells)
  ∈ discoveries node board pos word seen path.
Proof.
  induction cells as [|q cells IH];
    intros node pos word seen path suffix Hsp Hnd Hch Hseen Hgrid Hterm Hlen.
  - unfold spells in Hsp. destruct suffix as [|c suffix]; [inversion Hsp|].
    cbn [list_ascii_of_string] in Hsp. apply Forall2_cons in Hsp as [(_ & _ & Hboard) Hrest].
    apply Forall2_nil_inv_l in Hrest. destruct suffix; [|done]. clear Hrest.
    destruct node as [|items]; [by apply BuildTrieFacts.terminal_path_true in Hterm|].
    apply BuildTrieFacts.terminal_path_cons in Hterm as (next & Hget & Hnext).
    rewrite SolverFacts.discoveries_unfold, Hboard, Hget. unfold discover_from.
    rewrite (terminal_truthy next EmptyString Hnext). cbn [negb].
    apply elem_of_app. left.
    apply is_terminal_path in Hnext. rewrite Hnext. cbn [andb].
    fold (append_char word c) in Hlen. apply Nat.leb_le in Hlen. rewrite Hlen.
    apply list_elem_of_here.
  - unfold spells in Hsp. destruct suffix as [|c suffix]; [inversion Hsp|].
    cbn [list_ascii_of_string] in Hsp. apply Forall2_cons in Hsp as [(_ & _ & Hboard) Hrest].
    destruct node as [|items]; [by apply BuildTrieFacts.terminal_path_true in Hterm|].
    apply BuildTrieFacts.terminal_path_cons in Hterm as (next & Hget & Hnext).
    rewrite SolverFacts.discoveries_unfold, Hboard, Hget. unfold discover_from.
    rewrite (terminal_truthy next suffix Hnext). cbn [negb].
    apply elem_of_app. right.
    apply chain_cons in Hch as [Hadj Hch].
    apply NoDup_cons in Hnd as [Hpos Hnd].
    apply Forall_cons in Hgrid as [Hq Hgrid].
    apply list_elem_of_bind. exists q. split.
    2: { destruct pos as [row col]. cbn [fst snd]. by apply get_neighbors_iff. }
    rewrite decide_False.
    2: { intros [->%elem_of_singleton|Hin]%elem_of_union.
         - apply Hpos. apply list_elem_of_here.
         - apply (Hseen q); [|done]. apply list_elem_of_further, list_elem_of_here. }
    rewrite <- append_char_app. rewrite (cons_middle pos), app_assoc.
    apply IH; try done.
    + intros q' Hq' [->%elem_of_singleton|Hin]%elem_of_union.
      * by apply Hpos.
      * apply (Hseen q'); [|done]. by apply list_elem_of_further.
    + by rewrite append_char_app.
Qed.

End FoundFacts.

Lemma board_at_in_grid board row col ch :
  board_4x4 board → 0 ≤ row → 0 ≤ col → Solver.board_at board row col = Ok ch →
  row < 4 ∧ col < 4 ∧ ch ≠ dollar.
Proof.
  intros [Hlen Hrows] Hr Hc. unfold Solver.board_at.
  intros (line & Hline & Hch)%bind_Ok.
  apply SolverFacts.py_index_lookup in Hline, Hch; [|done..].
  rewrite Forall_forall in Hrows.
  destruct (Hrows line) as [Hl Hd]; [by eapply list_elem_of_lookup_2|].
  apply lookup_lt_Some in Hline as Hlt1. apply lookup_lt_Some in Hch as Hlt2.
  split; [lia|]. split; [lia|]. intros ->. apply Hd. by eapply list_elem_of_lookup_2.
Qed.

Lemma spells_in_grid board path word :
  board_4x4 board → spells board path word →
  Forall (fun q : Position => 0 ≤ q.1 < 4 ∧ 0 ≤ q.2 < 4) path.
Proof.
  intros Hboard Hsp. unfold spells in Hsp.
  induction Hsp as [|pos ch path chars (H1 & H2 & Hb) _ IH]; constructor; [|done].
  destruct (board_at_in_grid board pos.1 pos.2 ch Hboard H1 H2 Hb) as (? & ? & _). lia.
Qed.

Lemma spells_length board path word :
  spells board path word → length path = String.length word.
Proof.
  intros Hsp. apply Forall2_length in Hsp. rewrite Hsp. clear Hsp.
  induction word as [|c word IH]; [done|]. cbn. by rewrite IH.
Qed.

Lemma range_4_elem i : 0 ≤ i < 4 → i ∈ Solver.range 4.
Proof.
  intros Hi. unfold Solver.range. apply list_elem_of_fmap. exists (Z.to_nat i).
  split; [lia|]. apply elem_of_seq. lia.
Qed.

(** X3.  Soundness against the dictionary: every word [find_words] returns
    is marked in the trie and has three characters at least. *)
Theorem found_words_are_marked
    (set_iter : gset string → list string) (board : list (list ascii)) (trie : pyobj)
    (out : list (string * list Position)) :
  Solver.set_iteration set_iter →
  Solver.find_words set_iter board trie = Ok out →
  ∀ word path, (word, path) ∈ out →
    BuildTrie.terminal_path trie word ∧ (3 ≤ String.length word)%nat.
Proof.
  intros Hiter Hrun word path Hin.
  destruct (SolverFacts.find_words_inv set_iter board trie out Hiter Hrun)
    as (st & _ & _ & Hfirst).
  apply Hfirst, SolverFacts.first_path_elem in Hin.
  exact (FoundFacts.all_discoveries_in_trie board trie (word, path) Hin).
Qed.

Lemma found_words_are_marked_witness :
  Solver.set_iteration elements
  ∧ Solver.find_words elements demo_board demo_trie = Ok demo_words
  ∧ ∀ word path, (word, path) ∈ demo_words →
      BuildTrie.terminal_path demo_trie word ∧ (3 ≤ String.length word)%nat.
Proof.
  split; [exact elements_iteration|]. split; [exact demo_run|].
  exact (found_words_are_marked elements demo_board demo_trie demo_words
           elements_iteration demo_run).
Defined.

Lemma spelled_word_is_collected (board : list (list ascii)) (trie : pyobj)
    (st : Solver.dfs_state) (word : string) (path : list Position) :
  board_4x4 board → Solver.search board trie = Ok st →
  BuildTrie.terminal_path trie word → (3 ≤ String.length word)%nat →
  spells board path word → NoDup path → chain path →
  word ∈ Solver.results st.
Proof.
  intros Hboard Hsearch Hterm Hlen Hsp Hnd Hch.
  apply SolverFacts.search_tracks in Hsearch as [_ ->].
  apply elem_of_list_to_set, list_elem_of_fmap. exists (word, path). split; [done|].
  pose proof (spells_in_grid board path word Hboard Hsp) as Hgrid.
  pose proof (spells_length board path word Hsp) as Hpl.
  destruct path as [|pos cells]; [cbn in Hpl; lia|].
  apply Forall_cons in Hgrid as [Hpos Hgrid].
  unfold Solver.all_discoveries. destruct Hboard as [Hb1 Hb2].
  destruct board as [|first_row board']; [done|].
  apply Forall_cons in Hb2 as Hb2'. destruct Hb2' as [[Hfirst _] _].
  change (default [] ((first_row :: board') !! 0%nat)) with first_row.
  rewrite Hb1, Hfirst.
  apply list_elem_of_bind. exists pos.1. split; [|apply range_4_elem, Hpos].
  apply list_elem_of_bind. exists pos.2. split; [|apply range_4_elem, Hpos].
  destruct pos as [row col]. cbn [fst snd].
  apply (FoundFacts.discoveries_complete (first_row :: board') cells trie (row, col)
           EmptyString ∅ [] word); try done.
Qed.

(** X4.  Completeness on a 4x4 board: a word that is marked in the trie,
    has three characters at least and is spelled by some simple path of
    neighbouring cells is among the words the search collects; it is in the
    list returned whenever no more than 500 words were collected. *)
Theorem every_spelled_word_is_found
    (set_iter : gset string → list string) (board : list (list ascii)) (trie : pyobj)
    (out : list (string * list Position)) (word : string) (path : list Position) :
  Solver.set_iteration set_iter → board_4x4 board →
  Solver.find_words set_iter board trie = Ok out →
  BuildTrie.terminal_path trie word → (3 ≤ String.length word)%nat →
  spells board path word → NoDup path → chain path →
  ∃ st, Solver.search board trie = Ok st
        ∧ word ∈ Solver.results st
        ∧ ((size (Solver.results st) ≤ 500)%nat → word ∈ out.*1).
Proof.
  intros Hiter Hboard Hrun Hterm Hlen Hsp Hnd Hch.
  destruct (SolverFacts.find_words_inv set_iter board trie out Hiter Hrun)
    as (st & Hsearch & Hwords & _).
  exists st. split; [exact Hsearch|].
  assert (word ∈ Solver.results st) as Hfound
    by (by eapply spelled_word_is_collected).
  split; [exact Hfound|]. intros Hsize. rewrite Hwords.
  unfold Solver.limited_words, Solver.slice_to, Solver.SOLVER_NUMWORDS_LIMIT.
  rewrite take_ge.
  - rewrite SelectorFacts.sorted_perm, (Hiter (Solver.results st)).
    by apply elem_of_elements.
  - rewrite SelectorFacts.sorted_perm, (Hiter (Solver.results st)). exact Hsize.
Qed.

Ltac by_decide :=
  match goal with |- ?P => apply (bool_decide_eq_true_1 P); vm_compute; reflexivity end.

Lemma demo_board_4x4 : board_4x4 demo_board.
Proof. unfold board_4x4. by_decide. Defined.

Lemma demo_trie_wf : BuildTrie.trie_wf demo_trie = true.
Proof. vm_compute. reflexivity. Defined.

Lemma demo_trie_built : BuildTrie.build_trie demo_lines = Ok demo_trie.
Proof. vm_compute. reflexivity. Defined.

Lemma eat_marked : BuildTrie.terminal_path demo_trie "eat"%string.
Proof. eexists. split; vm_compute; reflexivity. Defined.

(** "eat" along the bottom of the third row, which is not the path the
    search meets first. *)
Lemma eat_spelled : spells demo_board [(2, 1); (2, 2); (2, 3)] "eat"%string.
Proof.
  unfold spells.
  repeat (constructor; [split; [cbn; lia|split; [cbn; lia|vm_compute; reflexivity]]|]).
  constructor.
Defined.

Lemma eat_path_chain : chain [(2, 1); (2, 2); (2, 3)].
Proof.
  intros i a b Ha Hb. destruct i as [|[|i]]; cbn in Ha, Hb.
  - injection Ha as <-. injection Hb as <-. unfold adjacent. cbn. split; [discriminate|lia].
  - injection Ha as <-. injection Hb as <-. unfold adjacent. cbn. split; [discriminate|lia].
  - destruct i; discriminate.
Defined.

Lemma eat_path_nodup : NoDup ([(2, 1); (2, 2); (2, 3)] : list Position).
Proof. by_decide. Defined.

Lemma every_spelled_word_is_found_witness :
  spells demo_board [(2, 1); (2, 2); (2, 3)] "eat"%string
  ∧ BuildTrie.terminal_path demo_trie "eat"%string
  ∧ ∃ st, Solver.search demo_board demo_trie = Ok st
          ∧ "eat"%string ∈ Solver.results st
          ∧ ((size (Solver.results st) ≤ 500)%nat → "eat"%string ∈ demo_words.*1).
Proof.
  split; [exact eat_spelled|]. split; [exact eat_marked|].
  exact (every_spelled_word_is_found elements demo_board demo_trie demo_words
           "eat"%string [(2, 1); (2, 2); (2, 3)]
           elements_iteration demo_board_4x4 demo_run eat_marked
           ltac:(cbn; lia) eat_spelled eat_path_nodup eat_path_chain).
Defined.

Lemma build_trie_paths lines trie :
  BuildTrie.build_trie lines = Ok trie →
  BuildTrie.trie_wf trie = true
  ∧ ∀ w, BuildTrie.terminal_path trie w
         ↔ w ∈ BuildTrie.clean <$> lines ∧ BuildTrie.accepted w.
Proof.
  intros Hbuild.
  destruct (BuildTrieFacts.build_from lines (PyDict []) eq_refl) as (trie' & Hr & Hwf & Hp).
  unfold BuildTrie.build_trie in Hbuild. rewrite Hbuild in Hr. injection Hr as <-.
  split; [exact Hwf|]. intros w. rewrite Hp. split; [|by right].
  intros [H|H]; [|done]. by apply BuildTrieFacts.terminal_path_empty_dict in H.
Qed.

(** X5.  From word list to result: every word [find_words] returns with a
    trie built by [build_trie] is the cleaned form of a line of the word
    list, alphabetic throughout and three characters long at least. *)
Theorem found_words_come_from_word_list
    (set_iter : gset string → list string) (lines : list string)
    (board : list (list ascii)) (trie : pyobj) (out : list (string * list Position)) :
  Solver.set_iteration set_iter →
  BuildTrie.build_trie lines = Ok trie →
  Solver.find_words set_iter board trie = Ok out →
  ∀ word path, (word, path) ∈ out →
    word ∈ BuildTrie.clean <$> lines ∧ BuildTrie.accepted word.
Proof.
  intros Hiter Hbuild Hrun word path Hin.
  destruct (SolverFacts.find_words_inv set_iter board trie out Hiter Hrun)
    as (st & _ & _ & Hfirst).
  apply Hfirst, SolverFacts.first_path_elem in Hin.
  apply (FoundFacts.all_discoveries_in_trie board trie (word, path)) in Hin as [Hterm _].
  by apply (build_trie_paths lines trie Hbuild).
Qed.

Lemma found_words_come_from_word_list_witness :
  BuildTrie.build_trie demo_lines = Ok demo_trie
  ∧ Solver.find_words elements demo_board demo_trie = Ok demo_words
  ∧ ∀ word path, (word, path) ∈ demo_words →
      word ∈ BuildTrie.clean <$> demo_lines ∧ BuildTrie.accepted word.
Proof.
  split; [exact demo_trie_built|]. split; [exact demo_run|].
  exact (found_words_come_from_word_list elements demo_lines demo_board demo_trie demo_words
           elements_iteration demo_trie_built demo_run).
Defined.

(** X6.  Backtracking: a call of [dfs] that returns leaves the set of
    visited cells and the current path exactly as it found them, and every
    word it has added to [results] has a path in [paths]. *)
Theorem dfs_backtracks (board : list (list ascii)) (node : pyobj) (row col : Z)
    (current_word : string) (st st' : Solver.dfs_state) :
  (row, col) ∉ Solver.visited st →
  Solver.dfs node row col board current_word st = Ok st' →
  Solver.visited st' = Solver.visited st
  ∧ Solver.current_path st' = Solver.current_path st
  ∧ Solver.results st ⊆ Solver.results st'
  ∧ (Solver.results st ⊆ dom (Solver.paths st) →
     Solver.results st' ⊆ dom (Solver.paths st')).
Proof.
  intros Hfresh Hrun.
  apply SolverFacts.dfs_spec in Hrun as (HV & HP & Hpaths & Hresults); [|done].
  split; [exact HV|]. split; [exact HP|]. split; [rewrite Hresults; set_solver|].
  intros Hsub w. rewrite Hresults, elem_of_union, elem_of_dom, Hpaths.
  rewrite SolverFacts.note_all_lookup.
  intros [Hw|Hw].
  - apply Hsub, elem_of_dom in Hw as [p ->]. eauto.
  - destruct (Solver.paths st !! w); [eauto|].
    apply SolverFacts.first_path_is_Some. by apply elem_of_list_to_set in Hw.
Qed.

Lemma start_cell_fresh : ((0, 1) : Position) ∉ Solver.visited empty_state.
Proof. unfold empty_state. cbn [Solver.visited]. apply not_elem_of_empty. Defined.

Lemma dfs_backtracks_witness :
  (((0, 1) : Position) ∉ Solver.visited empty_state)
  ∧ ∃ st', Solver.dfs demo_trie 0 1 demo_board EmptyString empty_state = Ok st'
           ∧ Solver.visited st' = Solver.visited empty_state
           ∧ Solver.current_path st' = Solver.current_path empty_state.
Proof.
  split; [exact start_cell_fresh|].
  destruct (SearchReturns.dfs_returns demo_board demo_board_4x4 demo_trie 0 1 EmptyString
              empty_state demo_trie_wf ltac:(lia) ltac:(lia) start_cell_fresh)
    as (st' & Hrun & _).
  exists st'. split; [exact Hrun|].
  destruct (dfs_backtracks demo_board demo_trie 0 1 EmptyString empty_state st'
              start_cell_fresh Hrun) as (HV & HP & _).
  split; [exact HV|exact HP].
Defined.

(** X7.  No exception on a well-formed round: on a board of four rows of
    four characters other than the mark, with a trie of the shape
    [build_trie] makes, [find_words] returns a list. *)
Theorem find_words_never_raises
    (set_iter : gset string → list string) (board : list (list ascii)) (trie : pyobj) :
  Solver.set_iteration set_iter → board_4x4 board → BuildTrie.trie_wf trie = true →
  ∃ out, Solver.find_words set_iter board trie = Ok out.
Proof. apply SearchReturns.find_words_returns. Qed.

Lemma find_words_never_raises_witness :
  board_4x4 demo_board ∧ BuildTrie.trie_wf demo_trie = true
  ∧ ∃ out, Solver.find_words elements demo_board demo_trie = Ok out.
Proof.
  split; [exact demo_board_4x4|]. split; [exact demo_trie_wf|].
  exact (find_words_never_raises elements demo_board demo_trie
           elements_iteration demo_board_4x4 demo_trie_wf).
Defined.
(** ** The relative pointer, further *)

Lemma repeat_send_wire bus sx sy n : ∀ m w,
  0 ≤ current_button m < 256 →
  (repeat_n n (_send bus sx sy) (m, w)).1 = m
  ∧ (wire (repeat_n n (_send bus sx sy) (m, w)).2).*1
    = (wire w).*1 ++ replicate n (packet_of (current_button m) (sx, sy)).
Proof.
  induction n as [|n IH]; intros m w Hb.
  - cbn. by rewrite app_nil_r.
  - cbn [repeat_n replicate].
    change (_send bus sx sy (m, w)) with (m, (_send bus sx sy (m, w)).2).
    destruct (IH m (_send bus sx sy (m, w)).2 Hb) as [-> ->].
    split; [done|]. rewrite _send_wire by done. by rewrite <- app_assoc.
Qed.








(** X8.  Recalibration: whatever the position was and whatever the service does,
    the tracked position is (0,0) afterwards and the button is as before;
    forty packets were offered, twenty steps of -127 on x and then twenty
    steps of -127 on y, which a host that receives them all reads as 2540
    units to the left and 2540 units up. *)
Theorem recalibrate_resets_position (bus : transport) (m : MouseSE) (w : world) :
  0 ≤ current_button m < 256 →
  let s' := recalibrate_top_left bus (m, w) in
  (current_x s'.1, current_y s'.1) = (0, 0)
  ∧ current_button s'.1 = current_button m
  ∧ (wire s'.2).*1
    = (wire w).*1 ++ replicate 20 [current_button m; 129; 0; 0]
                  ++ replicate 20 [current_button m; 0; 129; 0]
  ∧ host_motion (replicate 20 [current_button m; 129; 0; 0]
                 ++ replicate 20 [current_button m; 0; 129; 0]) = (-2540, -2540)
  ∧ accounted w s'.2.
Proof.
  intros Hb s'. subst s'. unfold recalibrate_top_left.
  destruct (repeat_send_wire bus (-127) 0 20 m w Hb) as [Hm1 Hw1].
  destruct (repeat_n 20 (_send bus (-127) 0) (m, w)) as [m1 w1] eqn:H1.
  cbn [fst snd] in Hm1, Hw1. subst m1.
  destruct (repeat_send_wire bus 0 (-127) 20 m w1 Hb) as [Hm2 Hw2].
  destruct (repeat_send_robust bus (-127) 0 20 m w w Hb eq_refl)
    as (ma & wa & wqa & Hra & _ & _ & Ha1 & _).
  apply Ok_inj in Hra. rewrite H1 in Hra. injection Hra as <- <-.
  destruct (repeat_send_robust bus 0 (-127) 20 m w1 w1 Hb eq_refl)
    as (mb & wb & wqb & Hrb & _ & _ & Ha2 & _).
  apply Ok_inj in Hrb.
  destruct (repeat_n 20 (_send bus 0 (-127)) (m, w1)) as [m2 w2] eqn:H2.
  cbn [fst snd] in *. injection Hrb as <- <-. subst m2.
  split; [done|]. split; [done|]. split; [|split].
  - rewrite Hw2, Hw1, <- app_assoc. reflexivity.
  - reflexivity.
  - by eapply accounted_trans.
Qed.

Lemma recalibrate_resets_position_witness :
  0 ≤ current_button {| current_x := 321; current_y := -7; current_button := 1 |} < 256
  ∧ (current_x (recalibrate_top_left release_fails
                  ({| current_x := 321; current_y := -7; current_button := 1 |}, silent)).1,
     current_y (recalibrate_top_left release_fails
                  ({| current_x := 321; current_y := -7; current_button := 1 |}, silent)).1)
    = (0, 0).
Proof.
  assert (0 ≤ current_button {| current_x := 321; current_y := -7; current_button := 1 |} < 256)
    as Hb by (cbn [current_button]; lia).
  split; [exact Hb|].
  exact (proj1 (recalibrate_resets_position release_fails
                  {| current_x := 321; current_y := -7; current_button := 1 |} silent Hb)).
Defined.



(** X10.  A step size of zero: from anywhere but the target the loop never
    ends, however many iterations it is given; at the target it returns at
    once and sends nothing. *)
Theorem goto_zero_step_never_returns (bus : transport) (x y : Z) (fuel : nat)
    (m : MouseSE) (w : world) :
  (x ≠ current_x m ∨ y ≠ current_y m →
   SolverMouse.goto_loop bus 0 fuel x y (x - current_x m) (y - current_y m) (m, w) = Diverge
   ∧ Finetune.goto_loop bus 0 fuel (x - current_x m) (y - current_y m) (m, w) = Diverge)
  ∧ SolverMouse.goto_with bus 0 (current_x m) (current_y m) (m, w) = Ok (m, w).
Proof.
  split.
  - intros Hne.
    assert (x - current_x m ≠ 0 ∨ y - current_y m ≠ 0) as Hgap by lia.
    assert (∀ d, axis_step 0 d = 0) as Hstep.
    { intros d. unfold axis_step, int_copysign.
      destruct (Z.eqb_spec d 0); [done|]. destruct (Z.ltb_spec d 0); lia. }
    split.
    + revert w. induction fuel as [|fuel IH]; intros w; cbn [SolverMouse.goto_loop];
        rewrite (proj2 (loop_guard _ _) Hgap); [done|].
      cbn zeta. rewrite !Hstep, !_send_mouse. cbn [fst snd set_position current_x current_y].
      rewrite !Z.add_0_r.
      replace (set_position (current_x m) (current_y m) m) with m by (by destruct m).
      apply IH.
    + revert w. induction fuel as [|fuel IH]; intros w; cbn [Finetune.goto_loop];
        rewrite (proj2 (loop_guard _ _) Hgap); [done|].
      cbn zeta. rewrite !Hstep, !Z.sub_0_r.
      change (_send bus 0 0 (m, w)) with (m, (_send bus 0 0 (m, w)).2). apply IH.
  - unfold SolverMouse.goto_with. cbn [fst snd]. rewrite !Z.sub_diag. reflexivity.
Qed.

Lemma goto_zero_step_never_returns_witness :
  (250 ≠ current_x (origin 0) ∨ -40 ≠ current_y (origin 0))
  ∧ SolverMouse.goto_loop quiet_bus 0 1000 250 (-40)
      (250 - current_x (origin 0)) (-40 - current_y (origin 0)) (origin 0, silent)
    = Diverge.
Proof.
  assert (250 ≠ current_x (origin 0) ∨ -40 ≠ current_y (origin 0)) as Hne
    by (left; discriminate).
  split; [exact Hne|].
  exact (proj1 (proj1 (goto_zero_step_never_returns quiet_bus 250 (-40) 1000
                         (origin 0) silent) Hne)).
Defined.

(** ** The gesture for one word *)

Lemma screen_pos_convert table pos :
  is_Some (table !! SolverMouse.coord_to_index pos) →
  SolverMouse.convert_coord_to_mouse_pos pos table = Ok (screen_pos table pos).
Proof.
  intros [p Hp]. unfold SolverMouse.convert_coord_to_mouse_pos, SolverMouse.getitem, screen_pos.
  by rewrite Hp.
Qed.

Lemma solver_goto_emits bus x y m w :
  0 ≤ current_button m < 256 →
  emits_train 10 x y m w (SolverMouse.goto bus x y (m, w)).
Proof.
  intros Hb. apply goto_post_emits; [done|].
  apply (solver_goto_with_spec bus Solver.FIXED_DELTA ltac:(done) x y (m, w)).
Qed.

Lemma last_cons_default {A} (l : list A) : ∀ a d, List.last (a :: l) d = List.last l a.
Proof.
  induction l as [|b l IH]; intros a d; [done|].
  change (List.last (a :: b :: l) d) with (List.last (b :: l) d).
  by rewrite (IH b d), (IH b a).
Qed.

Lemma last_fmap {A B} (f : A → B) (l : list A) (d : A) :
  List.last (f <$> l) (f d) = f (List.last l d).
Proof.
  induction l as [|a l IH]; [done|].
  rewrite fmap_cons. destruct l as [|b l]; [done|].
  change (List.last (a :: b :: l) d) with (List.last (b :: l) d). rewrite <- IH.
  reflexivity.
Qed.

(** The drags of a word: one train per remaining cell. *)
Lemma drags_legs bus table rest : ∀ m w,
  calibrated table rest → 0 ≤ current_button m < 256 →
  ∃ m' w' trains,
    for_each (SolverMouse.drag table bus) rest (m, w) = Ok (m', w')
    ∧ legs 10 (current_x m, current_y m) (screen_pos table <$> rest) trains
    ∧ (wire w').*1 = (wire w).*1 ++ (packet_of (current_button m) <$> mjoin trains)
    ∧ (current_x m', current_y m')
      = List.last (screen_pos table <$> rest) (current_x m, current_y m)
    ∧ current_button m' = current_button m.
Proof.
  induction rest as [|pos rest IH]; intros m w Hcal Hb.
  - exists m, w, []. cbn. rewrite app_nil_r. done.
  - apply Forall_cons in Hcal as [Hpos Hcal].
    destruct (solver_goto_emits bus (screen_pos table pos).1 (screen_pos table pos).2 m w Hb)
      as (m1 & w1 & train & Hr1 & Hx1 & Hy1 & Hb1 & Hw1 & Hst1 & _).
    destruct (IH m1 w1 Hcal ltac:(by rewrite Hb1))
      as (m2 & w2 & trains & Hr2 & Hl2 & Hw2 & Hp2 & Hb2).
    exists m2, w2, (train :: trains).
    split.
    { cbn [for_each]. unfold SolverMouse.drag at 1.
      rewrite (screen_pos_convert table pos Hpos). cbn [bind].
      rewrite Hr1. cbn [bind]. exact Hr2. }
    rewrite Hx1, Hy1, Hb1 in *.
    assert (((screen_pos table pos).1, (screen_pos table pos).2) = screen_pos table pos) as Hpair
      by (by destruct (screen_pos table pos)).
    rewrite Hpair in *.
    split; [cbn [legs fmap list_fmap fst snd]; split; [exact Hst1|exact Hl2]|].
    split.
    { rewrite Hw2, Hw1. cbn [mjoin list_join]. rewrite fmap_app, <- app_assoc. done. }
    split; [|by rewrite Hb2].
    rewrite Hp2, fmap_cons. symmetry. apply last_cons_default.
Qed.

Lemma select_word_shape (bus : transport) (table : gmap Z (Z * Z))
    (first : Position) (rest : list Position) (m : MouseSE) (w : world) :
  calibrated table (first :: rest) → current_button m = 0 →
  ∃ m' w' hover trains,
    SolverMouse.select_word bus table (first :: rest) (m, w) = Ok (m', w')
    ∧ steps_toward 10 ((screen_pos table first).1 - current_x m)
        ((screen_pos table first).2 - current_y m) hover
    ∧ legs 10 (screen_pos table first) (screen_pos table <$> rest) trains
    ∧ (wire w').*1
      = (wire w).*1 ++ (packet_of 0 <$> hover) ++ [[1; 0; 0; 0]]
          ++ (packet_of 1 <$> mjoin trains) ++ [[0; 0; 0; 0]]
    ∧ (current_x m', current_y m') = screen_pos table (List.last rest first)
    ∧ current_button m' = 0.
Proof.
  intros Hcal Hb.
  apply Forall_cons in Hcal as [Hfirst Hrest].
  destruct (solver_goto_emits bus (screen_pos table first).1 (screen_pos table first).2 m w
              ltac:(lia))
    as (m1 & w1 & hover & Hr1 & Hx1 & Hy1 & Hb1 & Hw1 & Hst1 & _).
  pose proof (_send_wire bus 0 0 (set_button 1 m1) w1 ltac:(cbn; lia)) as Hpress.
  destruct (drags_legs bus table rest (set_button 1 m1)
              (_send bus 0 0 (set_button 1 m1, w1)).2 Hrest ltac:(cbn; lia))
    as (m3 & w3 & trains & Hr3 & Hl3 & Hw3 & Hp3 & Hb3).
  pose proof (_send_wire bus 0 0 (set_button 0 m3) w3 ltac:(cbn; lia)) as Hrelease.
  exists (set_button 0 m3), (_send bus 0 0 (set_button 0 m3, w3)).2, hover, trains.
  cbn [set_button current_x current_y current_button] in Hl3, Hw3, Hp3, Hpress, Hrelease.
  rewrite Hx1, Hy1 in Hl3, Hp3.
  assert (((screen_pos table first).1, (screen_pos table first).2) = screen_pos table first)
    as Hpair by (by destruct (screen_pos table first)).
  rewrite Hpair in Hl3, Hp3.
  split.
  { unfold SolverMouse.select_word. rewrite py_index_head. cbn [bind tail].
    rewrite (screen_pos_convert table first Hfirst). cbn [bind]. rewrite Hr1. cbn [bind fst snd].
    change (_send bus 0 0 (set_button 1 m1, w1))
      with (set_button 1 m1, (_send bus 0 0 (set_button 1 m1, w1)).2).
    rewrite Hr3. reflexivity. }
  split; [exact Hst1|]. split; [exact Hl3|].
  split.
  { rewrite Hrelease, Hw3, Hpress, Hw1, Hb. unfold packet_of at 2 4. cbn [fst snd Z.land].
    by rewrite <- !app_assoc. }
  split; [|reflexivity].
  cbn [set_button current_x current_y]. rewrite Hp3. apply last_fmap.
Qed.

(** X11.  The gesture for one word of the table mode, byte for byte.  With every
    cell of the path calibrated and the button released at the start, the
    call returns, and the packets it offers the service are, in this order:
    a train of steps with no button that takes the pointer to the first cell,
    the press [1 0 0 0], one train of steps per further cell with the button
    held, each from the cell before to the next, and the release [0 0 0 0].
    Afterwards the pointer is tracked at the last cell with the button
    released. *)
Theorem select_word_gesture (bus : transport) (table : gmap Z (Z * Z))
    (first : Position) (rest : list Position) (m : MouseSE) (w : world) :
  calibrated table (first :: rest) → current_button m = 0 →
  ∃ m' w' hover trains,
    SolverMouse.select_word bus table (first :: rest) (m, w) = Ok (m', w')
    ∧ steps_toward 10 ((screen_pos table first).1 - current_x m)
        ((screen_pos table first).2 - current_y m) hover
    ∧ legs 10 (screen_pos table first) (screen_pos table <$> rest) trains
    ∧ (wire w').*1
      = (wire w).*1 ++ (packet_of 0 <$> hover) ++ [[1; 0; 0; 0]]
          ++ (packet_of 1 <$> mjoin trains) ++ [[0; 0; 0; 0]]
    ∧ (current_x m', current_y m') = screen_pos table (List.last rest first)
    ∧ current_button m' = 0.
Proof. apply select_word_shape. Qed.

Lemma full_table_complete : complete_table (SolverMouse.load_mouse_positions (grid_entries 16)).
Proof.
  intros i Hi.
  assert (i ∈ seqZ 0 16) as Hin by (apply elem_of_seqZ; lia).
  revert Hin. generalize i.
  apply (proj1 (Forall_forall _ _)).
  repeat constructor; eexists; vm_compute; reflexivity.
Defined.

Lemma complete_calibrated table coords :
  complete_table table →
  Forall (fun pos : Position => 0 ≤ pos.1 < 4 ∧ 0 ≤ pos.2 < 4) coords →
  calibrated table coords.
Proof.
  intros Hfull Hin. eapply Forall_impl; [exact Hin|].
  intros [r c] [Hr Hc]. cbn [fst snd] in *. apply Hfull. unfold SolverMouse.coord_to_index.
  cbn [fst snd]. lia.
Defined.

Lemma swipe_in_grid :
  Forall (fun pos : Position => 0 ≤ pos.1 < 4 ∧ 0 ≤ pos.2 < 4) [(0, 0); (0, 1)].
Proof. repeat constructor; cbn; lia. Defined.

Lemma select_word_gesture_witness :
  calibrated (SolverMouse.load_mouse_positions (grid_entries 16)) [(0, 0); (0, 1)]
  ∧ current_button (origin 0) = 0
  ∧ ∃ m' w' hover trains,
      SolverMouse.select_word release_fails
        (SolverMouse.load_mouse_positions (grid_entries 16)) [(0, 0); (0, 1)]
        (origin 0, silent) = Ok (m', w')
      ∧ steps_toward 10
          ((screen_pos (SolverMouse.load_mouse_positions (grid_entries 16)) (0, 0)).1
           - current_x (origin 0))
          ((screen_pos (SolverMouse.load_mouse_positions (grid_entries 16)) (0, 0)).2
           - current_y (origin 0)) hover
      ∧ legs 10 (screen_pos (SolverMouse.load_mouse_positions (grid_entries 16)) (0, 0))
          (screen_pos (SolverMouse.load_mouse_positions (grid_entries 16)) <$> [(0, 1)]) trains
      ∧ (wire w').*1
        = (wire silent).*1 ++ (packet_of 0 <$> hover) ++ [[1; 0; 0; 0]]
            ++ (packet_of 1 <$> mjoin trains) ++ [[0; 0; 0; 0]]
      ∧ (current_x m', current_y m')
        = screen_pos (SolverMouse.load_mouse_positions (grid_entries 16))
            (List.last [(0, 1)] (0, 0))
      ∧ current_button m' = 0.
Proof.
  pose proof (complete_calibrated _ _ full_table_complete swipe_in_grid) as Hcal.
  split; [exact Hcal|]. split; [reflexivity|].
  exact (select_word_gesture release_fails
           (SolverMouse.load_mouse_positions (grid_entries 16)) (0, 0) [(0, 1)]
           (origin 0) silent Hcal eq_refl).
Defined.

(** ** Reading a board *)

Lemma sixteen {A} (l : list A) :
  length l = 16%nat →
  ∃ a0 a1 a2 a3 a4 a5 a6 a7 a8 a9 a10 a11 a12 a13 a14 a15,
    l = [a0; a1; a2; a3; a4; a5; a6; a7; a8; a9; a10; a11; a12; a13; a14; a15].
Proof.
  intros Hl.
  do 16 (destruct l as [|? l]; [discriminate Hl|]).
  destruct l; [|discriminate Hl]. by repeat eexists.
Qed.

(** Sixteen characters are laid out row by row. *)
Lemma make_board_rows (chars : list ascii) :
  length chars = 16%nat →
  length (SolverMain.make_board chars) = 4%nat
  ∧ Forall (fun line => length line = 4%nat) (SolverMain.make_board chars)
  ∧ mjoin (SolverMain.make_board chars) = chars
  ∧ ∀ row col, 0 ≤ row < 4 → 0 ≤ col < 4 →
      Solver.board_at (SolverMain.make_board chars) row col = py_index chars (row * 4 + col).
Proof.
  intros Hl. apply sixteen in Hl
    as (a0 & a1 & a2 & a3 & a4 & a5 & a6 & a7 & a8 & a9 & a10 & a11 & a12 & a13 & a14 & a15 & ->).
  split; [done|]. split; [by repeat constructor|]. split; [done|].
  intros row col Hr Hc.
  assert (row = 0 ∨ row = 1 ∨ row = 2 ∨ row = 3) as Hrow by lia.
  assert (col = 0 ∨ col = 1 ∨ col = 2 ∨ col = 3) as Hcol by lia.
  destruct Hrow as [->|[->|[->| ->]]]; destruct Hcol as [->|[->|[->| ->]]]; reflexivity.
Qed.

Lemma make_board_4x4 (chars : list ascii) :
  length chars = 16%nat → dollar ∉ chars → board_4x4 (SolverMain.make_board chars).
Proof.
  intros Hl Hd. destruct (make_board_rows chars Hl) as (H4 & Hrows & Hjoin & _).
  split; [done|]. rewrite Forall_forall in Hrows. apply Forall_forall. intros line Hin.
  split; [by apply Hrows|]. intros Hdl. apply Hd. rewrite <- Hjoin.
  apply list_elem_of_join. by exists line.
Qed.

Lemma length_list_ascii s : length (list_ascii_of_string s) = String.length s.
Proof. induction s as [|c s IH]; [done|]. cbn. by rewrite IH. Qed.

Lemma isalpha_no_dollar s : BuildTrie.isalpha s = true → dollar ∉ list_ascii_of_string s.
Proof.
  unfold BuildTrie.isalpha. destruct s as [|c s]; [done|].
  intros Hall Hin. rewrite forallb_forall in Hall.
  apply list_elem_of_In, Hall in Hin. vm_compute in Hin. discriminate.
Qed.

Lemma is_az_no_dollar chars : Forall (fun c => WordHuntMain.is_az c = true) chars → dollar ∉ chars.
Proof.
  intros Hall Hin. rewrite Forall_forall in Hall. apply Hall in Hin.
  vm_compute in Hin. discriminate.
Qed.

Lemma letters_of_az raw : Forall (fun c => WordHuntMain.is_az c = true) (WordHuntMain.letters_of raw).
Proof.
  unfold WordHuntMain.letters_of. apply Forall_forall. intros c Hin.
  by apply list_elem_of_filter in Hin as [? _].
Qed.

Lemma solver_board_read (line : string) (board : list (list ascii)) :
  SolverMain.read_board line = Some board →
  board_4x4 board
  ∧ mjoin board = list_ascii_of_string (BuildTrie.clean line)
  ∧ ∀ row col, 0 ≤ row < 4 → 0 ≤ col < 4 →
      Solver.board_at board row col
      = py_index (list_ascii_of_string (BuildTrie.clean line)) (row * 4 + col).
Proof.
  unfold SolverMain.read_board. cbv zeta. fold (BuildTrie.clean line).
  destruct (Nat.eqb_spec (String.length (BuildTrie.clean line)) 16) as [Hl|]; [|done].
  destruct (BuildTrie.isalpha (BuildTrie.clean line)) eqn:Halpha; [|done].
  cbn [negb orb]. intros [= <-].
  rewrite <- length_list_ascii in Hl.
  destruct (make_board_rows _ Hl) as (_ & _ & Hjoin & Hat).
  split; [|done]. apply make_board_4x4; [done|]. by apply isalpha_no_dollar.
Qed.

Lemma word_hunt_board_read (line : string) (board : list (list ascii)) :
  WordHuntMain.read_board line = Some board →
  board_4x4 board
  ∧ mjoin board = WordHuntMain.letters_of line
  ∧ Forall (fun c => WordHuntMain.is_az c = true) (mjoin board)
  ∧ ∀ row col, 0 ≤ row < 4 → 0 ≤ col < 4 →
      Solver.board_at board row col
      = py_index (WordHuntMain.letters_of line) (row * 4 + col).
Proof.
  unfold WordHuntMain.read_board. cbv zeta.
  destruct (Nat.eqb_spec (length (WordHuntMain.letters_of line)) 16) as [Hl|]; [|done].
  cbn [negb]. intros [= <-].
  destruct (make_board_rows _ Hl) as (_ & _ & Hjoin & Hat).
  split; [apply make_board_4x4; [done|]; apply is_az_no_dollar, letters_of_az|].
  split; [done|]. split; [|done]. rewrite Hjoin. apply letters_of_az.
Qed.

(** X12.  Both programs read a board the same way once the line is cleaned: a
    line that is accepted gives sixteen characters laid out row by row in four
    rows of four, cell (row, col) holding character row * 4 + col, and none of
    them is the end-of-word key of the trie.  [solver.py] takes the stripped,
    lower-cased line as it is; [word_hunt_solver.py] first drops everything
    but the letters a to z, so that separators do not count. *)
Theorem boards_are_read_row_by_row (line : string) (board : list (list ascii)) :
  (SolverMain.read_board line = Some board →
   board_4x4 board
   ∧ mjoin board = list_ascii_of_string (BuildTrie.clean line)
   ∧ ∀ row col, 0 ≤ row < 4 → 0 ≤ col < 4 →
       Solver.board_at board row col
       = py_index (list_ascii_of_string (BuildTrie.clean line)) (row * 4 + col))
  ∧ (WordHuntMain.read_board line = Some board →
     board_4x4 board
     ∧ mjoin board = WordHuntMain.letters_of line
     ∧ Forall (fun c => WordHuntMain.is_az c = true) (mjoin board)
     ∧ ∀ row col, 0 ≤ row < 4 → 0 ≤ col < 4 →
         Solver.board_at board row col
         = py_index (WordHuntMain.letters_of line) (row * 4 + col)).
Proof.
  split; [apply solver_board_read | apply word_hunt_board_read].
Qed.

Lemma boards_are_read_row_by_row_witness :
  SolverMain.read_board "  OtheRandEeatXyzq "%string = Some demo_board
  ∧ board_4x4 demo_board
  ∧ mjoin demo_board = list_ascii_of_string (BuildTrie.clean "  OtheRandEeatXyzq "%string).
Proof.
  assert (SolverMain.read_board "  OtheRandEeatXyzq "%string = Some demo_board) as Hread
    by (vm_compute; reflexivity).
  split; [exact Hread|].
  destruct (proj1 (boards_are_read_row_by_row "  OtheRandEeatXyzq "%string demo_board) Hread)
    as (H4 & Hjoin & _).
  split; [exact H4|exact Hjoin].
Defined.

(** ** One turn of the table mode *)




(** ** The absolute pointer: one swipe *)

Lemma bytes_abs_packet buttons xy :
  0 ≤ buttons < 256 → bytes (abs_packet buttons xy) = Ok (abs_packet buttons xy).
Proof.
  intros Hb. unfold bytes, abs_packet. cbv zeta. cbn [forallb].
  set (cx := Z.max 0 (Z.min 32767 xy.1)). set (cy := Z.max 0 (Z.min 32767 xy.2)).
  pose proof (land_255_byte cx). pose proof (land_255_byte (Z.shiftr cx 8)).
  pose proof (land_255_byte cy). pose proof (land_255_byte (Z.shiftr cy 8)).
  repeat match goal with
         | |- context [(?a <=? ?b)] => destruct (Z.leb_spec a b); [|lia]
         | |- context [(?a <? ?b)] => destruct (Z.ltb_spec a b); [|lia]
         end.
  reflexivity.
Qed.

Lemma send_cmd_abs (bus : transport) buttons xy w :
  0 ≤ buttons < 256 →
  (wire (WordHunt.send_cmd bus buttons xy.1 xy.2 0 w)).*1
  = (wire w).*1 ++ [abs_packet buttons xy]
  ∧ accounted w (WordHunt.send_cmd bus buttons xy.1 xy.2 0 w).
Proof.
  intros Hb. change (WordHunt.send_cmd bus buttons xy.1 xy.2 0 w)
    with (send_current bus (abs_packet buttons xy) w).
  split.
  - apply send_current_wire. by apply bytes_abs_packet.
  - apply send_current_accounted. by apply bytes_abs_packet.
Qed.

Lemma getitem_present (grid_coords : gmap Position (Z * Z)) cell :
  is_Some (grid_coords !! cell) →
  WordHuntMain.getitem grid_coords cell = Ok (grid_pos grid_coords cell).
Proof. intros [p Hp]. unfold WordHuntMain.getitem, grid_pos. by rewrite Hp. Qed.

Lemma py_index_last {A} (a : A) (l : list A) : py_index (a :: l) (-1) = Ok (List.last l a).
Proof.
  unfold py_index. change (-1 <? 0) with true. cbv zeta iota. cbn [length].
  destruct (Z.leb_spec 0 (-1 + Z.of_nat (S (length l)))); [|lia].
  destruct (Z.ltb_spec (-1 + Z.of_nat (S (length l))) (Z.of_nat (S (length l)))); [|lia].
  cbn [andb]. replace (Z.to_nat (-1 + Z.of_nat (S (length l)))) with (length l) by lia.
  assert ((a :: l) !! length l = Some (List.last l a)) as ->; [|done].
  clear. revert a. induction l as [|b l IH]; intros a; [done|].
  cbn [length]. change ((a :: b :: l) !! S (length l)) with ((b :: l) !! length l).
  rewrite IH. by rewrite last_cons_default.
Qed.

Lemma drags_abs (bus : transport) (grid_coords : gmap Position (Z * Z)) rest : ∀ w,
  Forall (fun cell => is_Some (grid_coords !! cell)) rest →
  ∃ w',
    for_each (fun cell w =>
                t ←! WordHuntMain.getitem grid_coords cell;
                Ok (WordHunt.send_cmd bus 1 t.1 t.2 0 w)) rest w = Ok w'
    ∧ (wire w').*1 = (wire w).*1 ++ (abs_packet 1 <$> (grid_pos grid_coords <$> rest))
    ∧ accounted w w'.
Proof.
  induction rest as [|cell rest IH]; intros w Hall.
  - exists w. cbn. rewrite app_nil_r. split; [done|]. split; [done|apply accounted_refl].
  - apply Forall_cons in Hall as [Hcell Hall].
    destruct (send_cmd_abs bus 1 (grid_pos grid_coords cell) w ltac:(lia)) as [Hw1 Ha1].
    destruct (IH (WordHunt.send_cmd bus 1 (grid_pos grid_coords cell).1
                    (grid_pos grid_coords cell).2 0 w) Hall) as (w' & Hr & Hw & Ha).
    exists w'. cbn [for_each]. rewrite (getitem_present _ _ Hcell). cbn [bind].
    split; [exact Hr|]. split.
    + rewrite Hw, Hw1, !fmap_cons, <- app_assoc. done.
    + by eapply accounted_trans.
Qed.

Lemma last_elem {A} (l : list A) : ∀ a, List.last l a ∈ a :: l.
Proof.
  induction l as [|b l IH]; intros a; [apply list_elem_of_here|].
  rewrite (last_cons_default l b a). apply list_elem_of_further, IH.
Qed.

Lemma swipe_shape (bus : transport) (grid_coords : gmap Position (Z * Z))
    (first : Position) (rest : list Position) (w : world) :
  Forall (fun cell => is_Some (grid_coords !! cell)) (first :: rest) →
  ∃ w',
    WordHuntMain.swipe bus grid_coords (first :: rest) w = Ok w'
    ∧ (wire w').*1
      = (wire w).*1 ++ [abs_packet 0 (grid_pos grid_coords first)]
          ++ (abs_packet 1 <$> (grid_pos grid_coords <$> first :: rest))
          ++ [abs_packet 0 (grid_pos grid_coords (List.last rest first))]
    ∧ length (wire w') = (length (wire w) + length (first :: rest) + 2)%nat
    ∧ accounted w w'.
Proof.
  intros Hall. pose proof Hall as Hall'. apply Forall_cons in Hall' as [Hfirst Hrest].
  assert (is_Some (grid_coords !! List.last rest first)) as Hlast.
  { rewrite Forall_forall in Hall. apply Hall, last_elem. }
  destruct (send_cmd_abs bus 0 (grid_pos grid_coords first) w ltac:(lia)) as [Hw1 Ha1].
  set (w1 := WordHunt.send_cmd bus 0 (grid_pos grid_coords first).1
               (grid_pos grid_coords first).2 0 w) in *.
  destruct (send_cmd_abs bus 1 (grid_pos grid_coords first) w1 ltac:(lia)) as [Hw2 Ha2].
  set (w2 := WordHunt.send_cmd bus 1 (grid_pos grid_coords first).1
               (grid_pos grid_coords first).2 0 w1) in *.
  destruct (drags_abs bus grid_coords rest w2 Hrest) as (w3 & Hr3 & Hw3 & Ha3).
  destruct (send_cmd_abs bus 0 (grid_pos grid_coords (List.last rest first)) w3 ltac:(lia))
    as [Hw4 Ha4].
  set (w4 := WordHunt.send_cmd bus 0 (grid_pos grid_coords (List.last rest first)).1
               (grid_pos grid_coords (List.last rest first)).2 0 w3) in *.
  assert ((wire w4).*1
          = (wire w).*1 ++ [abs_packet 0 (grid_pos grid_coords first)]
              ++ (abs_packet 1 <$> (grid_pos grid_coords <$> first :: rest))
              ++ [abs_packet 0 (grid_pos grid_coords (List.last rest first))]) as Hwire.
  { rewrite Hw4, Hw3, Hw2, Hw1, !fmap_cons, <- !app_assoc. done. }
  exists w4. split.
  { unfold WordHuntMain.swipe. rewrite py_index_head. cbn [bind].
    rewrite (getitem_present _ _ Hfirst). cbn [bind tail]. fold w1. fold w2.
    rewrite Hr3. cbn [bind]. rewrite py_index_last. cbn [bind].
    rewrite (getitem_present _ _ Hlast). reflexivity. }
  split; [exact Hwire|]. split.
  { apply (f_equal length) in Hwire. rewrite !length_fmap in Hwire. rewrite Hwire.
    rewrite !length_app, !length_fmap. cbn [length]. lia. }
  eapply accounted_trans; [exact Ha1|].
  eapply accounted_trans; [exact Ha2|].
  eapply accounted_trans; [exact Ha3|exact Ha4].
Qed.

(** X14.  One swipe of the absolute mode, byte for byte.  For a path whose
    cells all have a screen position, the call returns, and the packets it
    offers the service are, in this order: the first cell with no button, the
    first cell with the button down, every further cell with the button down,
    and the last cell with no button; two packets more than the path has
    cells.  Each failed delivery leaves one line in the log. *)
Theorem swipe_packets (bus : transport) (grid_coords : gmap Position (Z * Z))
    (first : Position) (rest : list Position) (w : world) :
  Forall (fun cell => is_Some (grid_coords !! cell)) (first :: rest) →
  ∃ w',
    WordHuntMain.swipe bus grid_coords (first :: rest) w = Ok w'
    ∧ (wire w').*1
      = (wire w).*1 ++ [abs_packet 0 (grid_pos grid_coords first)]
          ++ (abs_packet 1 <$> (grid_pos grid_coords <$> first :: rest))
          ++ [abs_packet 0 (grid_pos grid_coords (List.last rest first))]
    ∧ length (wire w') = (length (wire w) + length (first :: rest) + 2)%nat
    ∧ accounted w w'.
Proof. apply swipe_shape. Qed.

Lemma grid_complete (cells : list Position) :
  Forall (fun q : Position => 0 ≤ q.1 < 4 ∧ 0 ≤ q.2 < 4) cells →
  Forall (fun cell => is_Some (WordHunt.get_grid_coordinates !! cell)) cells.
Proof.
  intros Hin. eapply Forall_impl; [exact Hin|]. intros [row col] [Hr Hc].
  cbn [fst snd] in *. unfold WordHunt.get_grid_coordinates.
  rewrite grid_lookup by done. eauto.
Defined.

Lemma swipe_packets_witness :
  Forall (fun cell => is_Some (WordHunt.get_grid_coordinates !! cell)) [(0, 0); (0, 1)]
  ∧ ∃ w',
      WordHuntMain.swipe release_fails WordHunt.get_grid_coordinates [(0, 0); (0, 1)] silent
      = Ok w'
      ∧ (wire w').*1
        = (wire silent).*1 ++ [abs_packet 0 (grid_pos WordHunt.get_grid_coordinates (0, 0))]
            ++ (abs_packet 1 <$> (grid_pos WordHunt.get_grid_coordinates <$> [(0, 0); (0, 1)]))
            ++ [abs_packet 0 (grid_pos WordHunt.get_grid_coordinates
                                (List.last [(0, 1)] (0, 0)))]
      ∧ length (wire w') = (length (wire silent) + length [(0, 0); (0, 1)] + 2)%nat
      ∧ accounted silent w'.
Proof.
  pose proof (grid_complete _ swipe_in_grid) as Hgrid.
  split; [exact Hgrid|].
  exact (swipe_packets release_fails WordHunt.get_grid_coordinates (0, 0) [(0, 1)] silent
           Hgrid).
Defined.

(** ** One turn of the absolute mode *)




(** ** The calibration store *)

Module StoreFacts.

Import FinetuneStore.

Lemma load_positions_snoc data pos :
  load_positions (data ++ [pos])
  = <[SolverMouse.cell pos := (SolverMouse.x pos, SolverMouse.y pos)]> (load_positions data).
Proof. unfold load_positions. by rewrite foldl_app. Qed.

Lemma load_positions_dom data i :
  is_Some (load_positions data !! i) ↔ i ∈ SolverMouse.cell <$> data.
Proof.
  induction data as [|pos data IH] using rev_ind.
  - split; [by intros [? ?]|by intros ?%elem_of_nil].
  - rewrite load_positions_snoc, fmap_app, elem_of_app, <- IH. cbn [fmap list_fmap].
    rewrite list_elem_of_singleton.
    destruct (decide (SolverMouse.cell pos = i)) as [->|Hne].
    + rewrite lookup_insert_eq. split; eauto.
    + rewrite lookup_insert_ne by done. split; [auto|]. by intros [?|?].
Qed.

Lemma sorted_keys_elem positions i : i ∈ sorted_keys positions ↔ is_Some (positions !! i).
Proof.
  unfold sorted_keys. rewrite merge_sort_Permutation, list_elem_of_fmap. split.
  - intros ([k v] & -> & Hin). apply elem_of_map_to_list in Hin. eauto.
  - intros [v Hv]. exists (i, v). split; [done|]. by apply elem_of_map_to_list.
Qed.

Lemma sorted_keys_ascending positions : StronglySorted Z.lt (sorted_keys positions).
Proof.
  unfold sorted_keys.
  assert (NoDup (merge_sort Z.le (map_to_list positions).*1)) as Hnd.
  { rewrite merge_sort_Permutation. apply NoDup_fst_map_to_list. }
  assert (StronglySorted Z.le (merge_sort Z.le (map_to_list positions).*1)) as Hs.
  { apply StronglySorted_merge_sort; [apply _|]. intros a b. lia. }
  revert Hnd Hs. generalize (merge_sort Z.le (map_to_list positions).*1).
  induction l as [|a l IH]; intros Hnd Hs; [constructor|].
  apply NoDup_cons in Hnd as [Ha Hnd]. apply StronglySorted_inv in Hs as [Hs Hall].
  constructor; [by apply IH|].
  rewrite Forall_forall in Hall. apply Forall_forall. intros b Hb.
  specialize (Hall b Hb). assert (a ≠ b) by (by intros ->). lia.
Qed.

Lemma save_entries positions keys :
  (∀ k, k ∈ keys → is_Some (positions !! k)) →
  Solver.comprehension
    (fun cell =>
       p ←! SolverMouse.getitem positions cell;
       Ok {| SolverMouse.cell := cell; SolverMouse.x := p.1; SolverMouse.y := p.2 |}) keys
  = Ok (entry_of positions <$> keys).
Proof.
  induction keys as [|k keys IH]; intros Hall; [done|].
  cbn [Solver.comprehension]. destruct (Hall k) as [p Hp]; [apply list_elem_of_here|].
  unfold SolverMouse.getitem at 1. rewrite Hp. cbn [bind].
  rewrite IH by (intros k' ?; by apply Hall, list_elem_of_further). cbn [bind].
  rewrite fmap_cons. unfold entry_of at 2. by rewrite Hp.
Qed.

Lemma load_entries positions keys i :
  load_positions (entry_of positions <$> keys) !! i
  = if decide (i ∈ keys) then Some (default (0, 0) (positions !! i)) else None.
Proof.
  induction keys as [|k keys IH] using rev_ind.
  - rewrite decide_False by (by intros ?%elem_of_nil). done.
  - rewrite fmap_app. cbn [fmap list_fmap]. rewrite load_positions_snoc.
    cbn [entry_of SolverMouse.cell SolverMouse.x SolverMouse.y].
    destruct (decide (k = i)) as [->|Hne].
    + rewrite lookup_insert_eq, decide_True by set_solver.
      by destruct (default (0, 0) (positions !! i)).
    + rewrite lookup_insert_ne, IH by done.
      destruct (decide (i ∈ keys)) as [Hin|Hout].
      * rewrite decide_True by set_solver. done.
      * rewrite decide_False; [done|]. intros [?|?%list_elem_of_singleton]%elem_of_app; done.
Qed.

Lemma ascending_nodup (l : list Z) : StronglySorted Z.lt l → NoDup l.
Proof.
  induction 1 as [|a l _ IH Hall]; [apply NoDup_nil_2|].
  apply NoDup_cons. split; [|done]. intros Hin.
  rewrite Forall_forall in Hall. specialize (Hall a Hin). lia.
Qed.

Lemma load_positions_entry data : ∀ e,
  NoDup (SolverMouse.cell <$> data) → e ∈ data →
  load_positions data !! SolverMouse.cell e = Some (SolverMouse.x e, SolverMouse.y e).
Proof.
  induction data as [|pos data IH] using rev_ind; intros e Hnd Hin;
    [by apply elem_of_nil in Hin|].
  rewrite load_positions_snoc. rewrite fmap_app in Hnd.
  apply NoDup_app in Hnd as (Hnd & Hfresh & _).
  apply elem_of_app in Hin as [Hin|Hin%list_elem_of_singleton].
  - rewrite lookup_insert_ne; [by apply IH|].
    intros Heq. apply (Hfresh (SolverMouse.cell e)).
    + apply list_elem_of_fmap. by exists e.
    + rewrite <- Heq. apply list_elem_of_here.
  - subst e. apply lookup_insert_eq.
Qed.

End StoreFacts.

(** X16.  The calibration store of [finetune.py] loses nothing: whatever the
    table, [save_positions] raises nothing, the list it writes has one entry
    per cell with the cells strictly ascending, and [load_positions], like
    [load_mouse_positions] of [solver.py], turns that list back into the very
    same table. *)
Theorem saved_positions_load_back (positions : gmap Z (Z * Z)) :
  ∃ data,
    FinetuneStore.save_positions positions = Ok data
    ∧ ascending_cells data
    ∧ FinetuneStore.load_positions data = positions
    ∧ SolverMouse.load_mouse_positions data = positions.
Proof.
  exists (entry_of positions <$> FinetuneStore.sorted_keys positions).
  split.
  { apply StoreFacts.save_entries. intros k. apply StoreFacts.sorted_keys_elem. }
  split.
  { unfold ascending_cells. rewrite <- list_fmap_compose.
    rewrite (list_fmap_ext _ id (FinetuneStore.sorted_keys positions)) by done.
    rewrite list_fmap_id. apply StoreFacts.sorted_keys_ascending. }
  assert (FinetuneStore.load_positions
            (entry_of positions <$> FinetuneStore.sorted_keys positions)
          = positions) as Hback; [|by split].
  apply map_eq. intros i. rewrite StoreFacts.load_entries.
  destruct (decide (i ∈ FinetuneStore.sorted_keys positions)) as [Hin|Hout].
  - apply StoreFacts.sorted_keys_elem in Hin as [p Hp]. by rewrite Hp.
  - rewrite StoreFacts.sorted_keys_elem in Hout.
    symmetry. by apply eq_None_not_Some.
Qed.

(** X17.  The other way round: a calibration file whose entries come by
    strictly ascending cell is written back unchanged by a load followed by a
    save.  A file with a cell repeated is not: loading keeps only the last
    entry of that cell. *)
Theorem ascending_file_is_kept (data : list SolverMouse.entry) :
  ascending_cells data →
  FinetuneStore.save_positions (FinetuneStore.load_positions data) = Ok data
  ∧ ∀ pos, FinetuneStore.load_positions (data ++ [pos]) !! SolverMouse.cell pos
           = Some (SolverMouse.x pos, SolverMouse.y pos).
Proof.
  intros Hasc. split.
  - unfold FinetuneStore.save_positions.
    assert (FinetuneStore.sorted_keys (FinetuneStore.load_positions data)
            = SolverMouse.cell <$> data) as Hkeys.
    { apply (StronglySorted_unique_strong Z.lt).
      - intros; lia.
      - apply StoreFacts.sorted_keys_ascending.
      - exact Hasc.
      - apply NoDup_Permutation.
        + apply StoreFacts.ascending_nodup, StoreFacts.sorted_keys_ascending.
        + apply StoreFacts.ascending_nodup, Hasc.
        + intros i. by rewrite StoreFacts.sorted_keys_elem, StoreFacts.load_positions_dom. }
    rewrite Hkeys.
    rewrite StoreFacts.save_entries
      by (intros k Hk; by apply StoreFacts.load_positions_dom).
    f_equal. rewrite <- list_fmap_compose.
    transitivity (id <$> data); [|apply list_fmap_id].
    apply Forall_fmap_ext_1, Forall_forall.
    intros e He. unfold compose, entry_of.
    rewrite (StoreFacts.load_positions_entry data e);
      [by destruct e|apply StoreFacts.ascending_nodup, Hasc|done].
  - intros pos. rewrite StoreFacts.load_positions_snoc. apply lookup_insert_eq.
Qed.

Lemma grid_entries_ascending : ascending_cells (grid_entries 16).
Proof. unfold ascending_cells. by_decide. Defined.

Lemma ascending_file_is_kept_witness :
  ascending_cells (grid_entries 16)
  ∧ FinetuneStore.save_positions (FinetuneStore.load_positions (grid_entries 16))
    = Ok (grid_entries 16).
Proof.
  split; [exact grid_entries_ascending|].
  exact (proj1 (ascending_file_is_kept (grid_entries 16) grid_entries_ascending)).
Defined.

(** ** The one-shot client of mouse_emulate.py *)



Lemma bytes_bad_ends buttons wheel middle :
  ¬ 0 ≤ buttons < 256 ∨ ¬ 0 ≤ wheel < 256 →
  bytes (buttons :: middle ++ [wheel]) = Raise ValueError.
Proof.
  intros Hbad. unfold bytes.
  assert (forallb (fun b => (0 <=? b) && (b <? 256)) (buttons :: middle ++ [wheel]) = false)
    as ->; [|done].
  apply not_true_is_false. intros Hall. rewrite forallb_forall in Hall.
  destruct Hbad as [Hbad|Hbad]; apply Hbad.
  - specialize (Hall buttons (or_introl eq_refl)).
    apply andb_prop in Hall as [?%Z.leb_le ?%Z.ltb_lt]. lia.
  - assert (In wheel (buttons :: middle ++ [wheel])) as Hin
      by (right; apply in_or_app; right; by left).
    apply Hall, andb_prop in Hin as [?%Z.leb_le ?%Z.ltb_lt]. lia.
Qed.



(** X19.  A button or wheel value that does not fit a byte.  Both clients
    build the packet inside [try], so [bytes] raises [ValueError] before
    anything is sent: [send_cmd] catches it, prints one line and returns;
    [send_absolute] catches [OSError] only, and the [ValueError] leaves the
    call. *)
Theorem bad_byte_sends_nothing (service : list Z → MouseEmulate.outcome)
    (bus : transport) (buttons x y wheel : Z) (w : world) :
  ¬ 0 ≤ buttons < 256 ∨ ¬ 0 ≤ wheel < 256 →
  MouseEmulate.send_absolute service buttons x y wheel = Raise ValueError
  ∧ WordHunt.send_cmd bus buttons x y wheel w
    = {| wire := wire w; log := log w ++ [ValueError] |}.
Proof.
  intros Hbad. split.
  - pose proof (bytes_bad_ends buttons wheel
                  [Z.land x 255; Z.land (Z.shiftr x 8) 255;
                   Z.land y 255; Z.land (Z.shiftr y 8) 255] Hbad) as Hbytes.
    cbn [app] in Hbytes. unfold MouseEmulate.send_absolute. cbv zeta. by rewrite Hbytes.
  - unfold WordHunt.send_cmd. cbv zeta.
    set (cx := Z.max 0 (Z.min 32767 x)). set (cy := Z.max 0 (Z.min 32767 y)).
    pose proof (bytes_bad_ends buttons wheel
                  [Z.land cx 255; Z.land (Z.shiftr cx 8) 255;
                   Z.land cy 255; Z.land (Z.shiftr cy 8) 255] Hbad) as Hbytes.
    cbn [app] in Hbytes. unfold send_current. by rewrite Hbytes.
Qed.

Lemma bad_byte_sends_nothing_witness :
  (¬ 0 ≤ 256 < 256 ∨ ¬ 0 ≤ 0 < 256)
  ∧ MouseEmulate.send_absolute (fun _ => MouseEmulate.Delivers) 256 100 100 0
    = Raise ValueError
  ∧ WordHunt.send_cmd quiet_bus 256 100 100 0 silent
    = {| wire := wire silent; log := log silent ++ [ValueError] |}.
Proof.
  assert (¬ 0 ≤ 256 < 256 ∨ ¬ 0 ≤ 0 < 256) as Hbad by (left; lia).
  split; [exact Hbad|].
  exact (bad_byte_sends_nothing (fun _ => MouseEmulate.Delivers) quiet_bus 256 100 100 0
           silent Hbad).
Defined.

(** ** The recalibration cadence *)

Lemma select_all_app bus table xs : ∀ i0 ys s,
  SolverMouse.select_all bus table i0 (xs ++ ys) s
  = (s' ←! SolverMouse.select_all bus table i0 xs s;
     SolverMouse.select_all bus table (i0 + Z.of_nat (length xs)) ys s').
Proof.
  induction xs as [|x xs IH]; intros i0 ys s.
  - cbn [app SolverMouse.select_all bind length]. by rewrite Z.add_0_r.
  - cbn [app SolverMouse.select_all length].
    destruct (SolverMouse.select_word bus table x.2 s) as [s1| |]; cbn [bind]; [|done..].
    rewrite IH. replace (i0 + 1 + Z.of_nat (length xs)) with (i0 + Z.of_nat (S (length xs)))
      by lia. done.
Qed.

Lemma recalibrate_tracks bus m w :
  0 ≤ current_button m < 256 →
  (recalibrate_top_left bus (m, w)).1 = set_position 0 0 m.
Proof.
  intros Hb. unfold recalibrate_top_left.
  destruct (repeat_send_wire bus (-127) 0 20 m w Hb) as [Hm1 _].
  destruct (repeat_n 20 (_send bus (-127) 0) (m, w)) as [m1 w1].
  cbn [fst] in Hm1. subst m1.
  destruct (repeat_send_wire bus 0 (-127) 20 m w1 Hb) as [Hm2 _].
  cbv zeta. cbn [fst]. by rewrite Hm2.
Qed.

(** X20.  The cadence of recalibration in [main] of [solver.py].  After the
    gestures for a list of words, all calibrated, the button is released and
    the pointer is tracked where the last word left it: at the screen position
    of the last cell of the last word, unless the number of words played is a
    multiple of three, in which case the pointer has just been driven to the
    corner and is tracked at (0,0). *)
Theorem recalibration_every_third_word (bus : transport) (table : gmap Z (Z * Z))
    (results : list (string * list Position)) (word : string)
    (first : Position) (rest : list Position) (m : MouseSE) (w : world) :
  is_Some (table !! 0) →
  Forall (fun word : string * list Position => word.2 ≠ [] ∧ calibrated table word.2) results →
  calibrated table (first :: rest) → current_button m = 0 →
  ∃ m' w',
    SolverMouse.play bus table (results ++ [(word, first :: rest)]) (m, w) = Ok (m', w')
    ∧ current_button m' = 0
    ∧ (current_x m', current_y m')
      = if (Z.of_nat (length results) + 1) mod 3 =? 0 then (0, 0)
        else screen_pos table (List.last rest first).
Proof.
  intros [p Hp] Hall Hcal Hb.
  unfold SolverMouse.play, SolverMouse.getitem. rewrite Hp. cbn [bind].
  destruct (goto_robust bus p.1 p.2 m w w ltac:(lia) eq_refl)
    as (m1 & w1 & _ & Hr1 & _ & _ & _ & Hb1).
  rewrite Hr1. cbn [bind]. rewrite select_all_app.
  destruct (select_all_robust bus table results 0 m1 w1 w1 Hall ltac:(lia) eq_refl)
    as (m2 & w2 & _ & Hr2 & _ & _ & _ & Hb2).
  rewrite Hr2. cbn [bind SolverMouse.select_all snd].
  destruct (select_word_shape bus table first rest m2 w2 Hcal Hb2)
    as (m3 & w3 & _ & _ & Hr3 & _ & _ & _ & Hpos & Hb3).
  rewrite Hr3. cbn [bind]. rewrite Z.add_0_l.
  destruct ((Z.of_nat (length results) + 1) mod 3 =? 0).
  - exists (recalibrate_top_left bus (m3, w3)).1, (recalibrate_top_left bus (m3, w3)).2.
    split; [by destruct (recalibrate_top_left bus (m3, w3))|].
    rewrite recalibrate_tracks by lia. cbn [set_position current_x current_y current_button].
    done.
  - by exists m3, w3.
Qed.

Lemma three_swipes_calibrated :
  Forall (fun word : string * list Position =>
            word.2 ≠ [] ∧ calibrated (SolverMouse.load_mouse_positions (grid_entries 16)) word.2)
         (one_swipe ++ one_swipe).
Proof.
  apply Forall_forall. intros word Hin. split.
  - apply elem_of_app in Hin as [Hin|Hin]; apply list_elem_of_singleton in Hin; by subst word.
  - apply (complete_calibrated _ _ full_table_complete).
    apply elem_of_app in Hin as [Hin|Hin]; apply list_elem_of_singleton in Hin; subst word;
      exact swipe_in_grid.
Defined.

Lemma recalibration_every_third_word_witness :
  is_Some (SolverMouse.load_mouse_positions (grid_entries 16) !! 0)
  ∧ current_button (origin 0) = 0
  ∧ ∃ m' w',
      SolverMouse.play release_fails (SolverMouse.load_mouse_positions (grid_entries 16))
        ((one_swipe ++ one_swipe) ++ [("ab"%string, [(0, 0); (0, 1)])]) (origin 0, silent)
      = Ok (m', w')
      ∧ current_button m' = 0
      ∧ (current_x m', current_y m')
        = if (Z.of_nat (length (one_swipe ++ one_swipe)) + 1) mod 3 =? 0 then (0, 0)
          else screen_pos (SolverMouse.load_mouse_positions (grid_entries 16))
                 (List.last [(0, 1)] (0, 0)).
Proof.
  split; [exact full_table_origin|]. split; [reflexivity|].
  exact (recalibration_every_third_word release_fails
           (SolverMouse.load_mouse_positions (grid_entries 16))
           (one_swipe ++ one_swipe) "ab"%string (0, 0) [(0, 1)] (origin 0) silent
           full_table_origin three_swipes_calibrated
           (complete_calibrated _ _ full_table_complete swipe_in_grid) eq_refl).
Defined.

(** ** The grid between its corners *)

Lemma interpolate_between (tl br k : Z) :
  0 ≤ tl ≤ br → 0 ≤ k < 4 →
  tl ≤ (3 * tl + k * (br - tl)) ÷ 3 ≤ br
  ∧ ∀ k', k ≤ k' < 4 →
      (3 * tl + k * (br - tl)) ÷ 3 ≤ (3 * tl + k' * (br - tl)) ÷ 3.
Proof.
  intros Hc Hk.
  assert (∀ j, 0 ≤ j < 4 → (3 * tl + j * (br - tl)) ÷ 3 = (3 * tl + j * (br - tl)) / 3)
    as Hquot by (intros j Hj; apply Z.quot_div_nonneg; nia).
  split.
  - rewrite Hquot by done. split.
    + apply Z.div_le_lower_bound; nia.
    + apply Z.div_le_upper_bound; nia.
  - intros k' Hk'. rewrite !Hquot by lia. apply Z.div_le_mono; nia.
Qed.

Lemma abs_packet_exact buttons (xy : Z * Z) :
  0 ≤ xy.1 ≤ 32767 → 0 ≤ xy.2 ≤ 32767 →
  WordHunt.packet_xy (abs_packet buttons xy) = Some xy.
Proof.
  intros Hx Hy. unfold abs_packet. cbv zeta.
  rewrite (Z.min_r 32767 xy.1), (Z.max_r 0 xy.1), (Z.min_r 32767 xy.2), (Z.max_r 0 xy.2) by lia.
  cbn [WordHunt.packet_xy]. rewrite !byte_split by lia. by destruct xy.
Qed.

(** X21.  The grid stays between its corners.  With the top-left corner no
    further right or down than the bottom-right one and both inside
    0..32767, every cell of the 4x4 grid gets a position between the two
    corners, x growing (weakly) with the column and y with the row, all cells
    of a column sharing x and all cells of a row sharing y; so the clamp of
    [send_cmd] leaves every grid position as it is and the packet carries it
    exactly. *)
Theorem grid_stays_between_corners (tlx tly brx bry row col : Z) :
  0 ≤ tlx ≤ brx → brx ≤ 32767 → 0 ≤ tly ≤ bry → bry ≤ 32767 →
  0 ≤ row < 4 → 0 ≤ col < 4 →
  ∃ x y,
    WordHunt.get_grid_coordinates_at tlx tly brx bry !! (row, col) = Some (x, y)
    ∧ tlx ≤ x ≤ brx ∧ tly ≤ y ≤ bry
    ∧ (∀ buttons, WordHunt.packet_xy (abs_packet buttons (x, y)) = Some (x, y))
    ∧ ∀ row' col' x' y',
        row ≤ row' < 4 → col ≤ col' < 4 →
        WordHunt.get_grid_coordinates_at tlx tly brx bry !! (row', col') = Some (x', y') →
        x ≤ x' ∧ y ≤ y' ∧ (col' = col → x' = x) ∧ (row' = row → y' = y).
Proof.
  intros Hx Hbx Hy Hby Hr Hc.
  destruct (interpolate_between tlx brx col Hx Hc) as [Hxb Hxm].
  destruct (interpolate_between tly bry row Hy Hr) as [Hyb Hym].
  eexists _, _. split; [by apply grid_lookup|].
  split; [exact Hxb|]. split; [exact Hyb|]. split.
  - intros buttons. apply abs_packet_exact; cbn [fst snd]; lia.
  - intros row' col' x' y' Hr' Hc'. rewrite grid_lookup by lia. intros [= <- <-].
    split; [by apply Hxm|]. split; [by apply Hym|]. split; by intros ->.
Qed.

Lemma grid_stays_between_corners_witness :
  0 ≤ WordHunt.TOP_LEFT_X ≤ WordHunt.BOTTOM_RIGHT_X ∧ WordHunt.BOTTOM_RIGHT_X ≤ 32767
  ∧ 0 ≤ WordHunt.TOP_LEFT_Y ≤ WordHunt.BOTTOM_RIGHT_Y ∧ WordHunt.BOTTOM_RIGHT_Y ≤ 32767
  ∧ ∃ x y,
      WordHunt.get_grid_coordinates !! (1, 2) = Some (x, y)
      ∧ WordHunt.TOP_LEFT_X ≤ x ≤ WordHunt.BOTTOM_RIGHT_X
      ∧ WordHunt.TOP_LEFT_Y ≤ y ≤ WordHunt.BOTTOM_RIGHT_Y.
Proof.
  assert (0 ≤ WordHunt.TOP_LEFT_X ≤ WordHunt.BOTTOM_RIGHT_X) as Hx by (vm_compute; split; discriminate).
  assert (WordHunt.BOTTOM_RIGHT_X ≤ 32767) as Hbx by (vm_compute; discriminate).
  assert (0 ≤ WordHunt.TOP_LEFT_Y ≤ WordHunt.BOTTOM_RIGHT_Y) as Hy by (vm_compute; split; discriminate).
  assert (WordHunt.BOTTOM_RIGHT_Y ≤ 32767) as Hby by (vm_compute; discriminate).
  split; [exact Hx|]. split; [exact Hbx|]. split; [exact Hy|]. split; [exact Hby|].
  destruct (grid_stays_between_corners WordHunt.TOP_LEFT_X WordHunt.TOP_LEFT_Y
              WordHunt.BOTTOM_RIGHT_X WordHunt.BOTTOM_RIGHT_Y 1 2 Hx Hbx Hy Hby
              ltac:(lia) ltac:(lia)) as (x & y & Hxy & Hxb & Hyb & _).
  exists x, y. split; [exact Hxy|]. split; [exact Hxb|exact Hyb].
Defined.

(** ** From the word list to the words found *)

(** X22.  What the solver finds, end to end.  For a trie built from a word
    list and a 4x4 board, as long as the limit of 500 words is not reached,
    the words in the list [find_words] returns are exactly these: the cleaned
    lines of the word list that are accepted (alphabetic, three characters or
    more) and that some path of pairwise distinct, successively neighbouring
    cells spells on the board. *)
Theorem found_words_are_exactly_the_spelled_ones
    (set_iter : gset string → list string) (lines : list string)
    (board : list (list ascii)) (trie : pyobj) (out : list (string * list Position)) :
  Solver.set_iteration set_iter → board_4x4 board →
  BuildTrie.build_trie lines = Ok trie →
  Solver.find_words set_iter board trie = Ok out →
  (length out < 500)%nat →
  ∀ word,
    word ∈ out.*1
    ↔ word ∈ BuildTrie.clean <$> lines ∧ BuildTrie.accepted word
      ∧ ∃ path, simple_path_of board word path.
Proof.
  intros Hiter Hboard Hbuild Hrun Hshort word.
  destruct (SolverFacts.find_words_inv set_iter board trie out Hiter Hrun)
    as (st & Hsearch & Hwords & Hfirst).
  destruct (build_trie_paths lines trie Hbuild) as [_ Hmarked].
  split.
  - intros ([word' path] & -> & Hin)%list_elem_of_fmap. cbn [fst].
    apply Hfirst, SolverFacts.first_path_elem in Hin.
    pose proof (SolverFacts.all_discoveries_sound board trie _ Hin) as Hpath.
    pose proof (FoundFacts.all_discoveries_in_trie board trie _ Hin) as [Hterm _].
    cbn [fst snd] in *. apply Hmarked in Hterm as [Hline Hacc].
    split; [exact Hline|]. split; [exact Hacc|]. by exists path.
  - intros (Hline & Hacc & path & Hsp & Hnd & Hch).
    assert (BuildTrie.terminal_path trie word) as Hterm by (by apply Hmarked).
    assert (word ∈ Solver.results st) as Hfound.
    { eapply spelled_word_is_collected; try done. apply Hacc. }
    rewrite Hwords. unfold Solver.limited_words, Solver.slice_to, Solver.SOLVER_NUMWORDS_LIMIT.
    assert (length (Solver.sorted (set_iter (Solver.results st))) < 500)%nat as Hall.
    { apply (f_equal length) in Hwords. rewrite length_fmap in Hwords.
      unfold Solver.limited_words, Solver.slice_to, Solver.SOLVER_NUMWORDS_LIMIT in Hwords.
      rewrite length_take in Hwords. cbn [Z.to_nat Pos.to_nat] in Hwords. lia. }
    rewrite take_ge by (cbn [Z.to_nat]; lia).
    rewrite SelectorFacts.sorted_perm, (Hiter (Solver.results st)).
    by apply elem_of_elements.
Qed.

Lemma demo_words_short : (length demo_words < 500)%nat.
Proof. vm_compute. lia. Defined.

Lemma found_words_are_exactly_the_spelled_ones_witness :
  board_4x4 demo_board
  ∧ BuildTrie.build_trie demo_lines = Ok demo_trie
  ∧ Solver.find_words elements demo_board demo_trie = Ok demo_words
  ∧ (length demo_words < 500)%nat
  ∧ ∀ word,
      word ∈ demo_words.*1
      ↔ word ∈ BuildTrie.clean <$> demo_lines ∧ BuildTrie.accepted word
        ∧ ∃ path, simple_path_of demo_board word path.
Proof.
  split; [exact demo_board_4x4|]. split; [exact demo_trie_built|].
  split; [exact demo_run|]. split; [exact demo_words_short|].
  exact (found_words_are_exactly_the_spelled_ones elements demo_lines demo_board demo_trie
           demo_words elements_iteration demo_board_4x4 demo_trie_built demo_run
           demo_words_short).
Defined.

